(** * cs231n layers: a shallow embedding of [assignment2/cs231n/layers.py]

    The kernels of [layers.py] are numpy programs.  They are embedded here
    over an ideal model of numpy arrays:

    - an array is a shape together with its row-major buffer ([ndarray]);
      reshaping keeps the buffer, transposing permutes the index;
    - floating point numbers are the real numbers of the Standard Library
      (so a division by zero or the square root of a negative number is
      some real number, where numpy produces [inf] or [nan]; the theorems
      that depend on such values assume the denominators positive);
    - a Python exception is a value of [exn], and a kernel returns a
      [result];
    - configuration dictionaries are finite maps from strings; the one that
      batch normalization mutates is returned with the outputs;
    - the process-wide random generator of numpy is an explicit state.

    Binary operations follow the broadcasting rule of numpy and raise
    [ValueError] on shapes that do not agree.  [np.dot] is modelled on
    vectors and matrices, slicing and padding on 4-dimensional arrays, as
    the kernels use them; a configuration value is expected to have the
    Python type its docstring gives.  Python 3 division is assumed for the
    output sizes ([/] is the true division, [int] truncates towards
    zero).

    The two loss functions index the scores with the labels, an array of
    integers: indexing with two integer arrays is modelled on arrays of
    two axes or more, with negative indices counting from the end of an
    axis.  The exponential and the logarithm are those of the real
    numbers.

    The second half of the file states what the kernels compute: after the
    properties of the specification come, kernel by kernel, the values of
    the forward and backward passes, their errors, and how the passes
    compose. *)

From Stdlib Require Import Reals Lra Lia List ZArith String Ascii Arith.
From stdpp Require Import gmap strings.
Import ListNotations.

Set Default Proof Using "Type".

(* ================================================================= *)
(** ** Exceptions and results *)

Inductive exn : Type :=
| ValueError (msg : string)
| KeyError (key : string)
| TypeError (msg : string)
| AttributeError (msg : string)
| IndexError (msg : string)
| ZeroDivisionError (msg : string).

Inductive result (A : Type) : Type :=
| Ok (a : A)
| Raise (e : exn).
Arguments Ok {A} a.
Arguments Raise {A} e.

Definition bind {A B : Type} (m : result A) (k : A -> result B) : result B :=
  match m with
  | Ok a => k a
  | Raise e => Raise e
  end.

Definition is_ok {A : Type} (m : result A) : Prop := exists a, m = Ok a.

(** The notations [x ← m; k] and ['(x, y) ← m; k] sequence two steps and
    stop at the first exception. *)
#[global] Instance result_ret : MRet result := @Ok.
#[global] Instance result_bind : MBind result := fun A B k m => bind m k.

(** [for i in range(n): s = body(i, s)], where the body may raise. *)
Fixpoint for_each {S : Type} (l : list nat) (body : nat -> S -> result S)
    (s : S) : result S :=
  match l with
  | [] => Ok s
  | i :: l' => s' ← body i s; for_each l' body s'
  end.

(** Python's [range(n)] for an integer [n]: empty when [n <= 0]. *)
Definition py_range (n : Z) : list nat := seq 0 (Z.to_nat n).

(* ================================================================= *)
(** ** Arrays: shape, row-major buffer, multi-indices *)

Record ndarray (A : Type) : Type := mk_nd { shape : list nat; data : list A }.
Arguments mk_nd {A} shape data.
Arguments shape {A} _.
Arguments data {A} _.

Definition size_of (sh : list nat) : nat := fold_right Nat.mul 1%nat sh.

(** The invariant of every numpy array: the buffer holds [size] elements. *)
Definition wf {A : Type} (a : ndarray A) : Prop :=
  length (data a) = size_of (shape a).

(** Row-major position of a multi-index, and back. *)
Fixpoint ravel (sh ix : list nat) : nat :=
  match sh, ix with
  | _ :: sh', i :: ix' => i * size_of sh' + ravel sh' ix'
  | _, _ => 0
  end.

Fixpoint unravel (sh : list nat) (k : nat) : list nat :=
  match sh with
  | [] => []
  | _ :: sh' => k / size_of sh' :: unravel sh' (k mod size_of sh')
  end.

Fixpoint in_bounds (ix sh : list nat) : Prop :=
  match ix, sh with
  | [], [] => True
  | i :: ix', d :: sh' => i < d /\ in_bounds ix' sh'
  | _, _ => False
  end.

Definition get {A : Type} `{Inhabited A} (a : ndarray A) (ix : list nat) : A :=
  nth (ravel (shape a) ix) (data a) inhabitant.

(** The array of shape [sh] whose element at [ix] is [f ix]. *)
Definition tabulate {A : Type} (sh : list nat) (f : list nat -> A) : ndarray A :=
  mk_nd sh (map (fun k => f (unravel sh k)) (seq 0 (size_of sh))).

#[global] Instance R_inhabited : Inhabited R := populate 0%R.


(** Shapes as Python reads them: [N, D = x.shape] and
    [N, C, H, W = x.shape] raise when the rank is not the expected one. *)
Definition unpack_error (expected got : nat) : exn :=
  if got <? expected
  then ValueError "not enough values to unpack"
  else ValueError "too many values to unpack".

Definition unpack2 (sh : list nat) : result (nat * nat) :=
  match sh with
  | [a; b] => Ok (a, b)
  | _ => Raise (unpack_error 2 (length sh))
  end.

Definition unpack4 (sh : list nat) : result (nat * nat * nat * nat) :=
  match sh with
  | [a; b; c; d] => Ok (a, b, c, d)
  | _ => Raise (unpack_error 4 (length sh))
  end.

(** Component [k] of a multi-index. *)
Definition ix_at (ix : list nat) (k : nat) : nat := nth k ix 0%nat.

(** [x.shape[0]] *)
Definition shape0 (sh : list nat) : result nat :=
  match sh with
  | n :: _ => Ok n
  | [] => Raise (IndexError "tuple index out of range")
  end.

(* ----------------------------------------------------------------- *)
(** *** Creation, reshape, transpose *)

Definition np_zeros (sh : list nat) : ndarray R := tabulate sh (fun _ => 0%R).
Definition np_ones (sh : list nat) : ndarray R := tabulate sh (fun _ => 1%R).

(** [np.zeros] on sizes that were computed as integers. *)
Definition np_zeros_int (sh : list Z) : result (ndarray R) :=
  if forallb (Z.leb 0) sh
  then Ok (np_zeros (map Z.to_nat sh))
  else Raise (ValueError "negative dimensions are not allowed").

(** A Python number used as an array operand: a 0-dimensional array. *)
Definition scalar (r : R) : ndarray R := mk_nd [] [r].

(** [a.reshape(sh)]: the same buffer under another shape of equal size. *)
Definition np_reshape {A : Type} (a : ndarray A) (sh : list nat)
    : result (ndarray A) :=
  if size_of (shape a) =? size_of sh
  then Ok (mk_nd sh (data a))
  else Raise (ValueError "cannot reshape array").

(** [a.T]: the axes reversed. *)
Definition np_T {A : Type} `{Inhabited A} (a : ndarray A) : ndarray A :=
  tabulate (rev (shape a)) (fun ix => get a (rev ix)).

Fixpoint index_of (x : nat) (l : list nat) : nat :=
  match l with
  | [] => 0
  | y :: l' => if x =? y then 0 else S (index_of x l')
  end.

Definition is_axes (axes : list nat) (rank : nat) : bool :=
  (length axes =? rank)
  && forallb (fun ax => existsb (Nat.eqb ax) axes) (seq 0 rank).

(** [a.transpose(axes)]: axis [k] of the result is axis [axes[k]] of [a]. *)
Definition np_transpose {A : Type} `{Inhabited A} (a : ndarray A)
    (axes : list nat) : result (ndarray A) :=
  if is_axes axes (length (shape a))
  then Ok (tabulate (map (fun ax => nth ax (shape a) 0) axes)
             (fun ix => get a (map (fun ax => nth (index_of ax axes) ix 0)
                                 (seq 0 (length (shape a))))))
  else Raise (ValueError "axes don't match array").

(* ----------------------------------------------------------------- *)
(** *** Elementwise operations and broadcasting *)

Definition np_map {A B : Type} `{Inhabited A} (f : A -> B) (a : ndarray A)
    : ndarray B :=
  tabulate (shape a) (fun ix => f (get a ix)).

(** The broadcasting rule of numpy, on shapes read from the last axis:
    two sizes agree when they are equal or one of them is 1. *)
Fixpoint broadcast_rev (ra rb : list nat) : option (list nat) :=
  match ra, rb with
  | [], _ => Some rb
  | _, [] => Some ra
  | x :: ra', y :: rb' =>
      match broadcast_rev ra' rb' with
      | Some r =>
          if x =? y then Some (x :: r)
          else if x =? 1 then Some (y :: r)
          else if y =? 1 then Some (x :: r)
          else None
      | None => None
      end
  end.

Definition broadcast_shapes (sa sb : list nat) : option (list nat) :=
  option_map (@rev nat) (broadcast_rev (rev sa) (rev sb)).

(** The element of an operand of shape [sh] that feeds position [ix] of the
    broadcast result: the trailing axes of [ix], at 0 along an axis of size 1. *)
Definition broadcast_index (sh ix : list nat) : list nat :=
  zip_with (fun d i => if d =? 1 then 0 else i) sh
    (skipn (length ix - length sh) ix).

Definition np_binop {A B C : Type} `{Inhabited A} `{Inhabited B}
    (op : A -> B -> C) (a : ndarray A) (b : ndarray B) : result (ndarray C) :=
  match broadcast_shapes (shape a) (shape b) with
  | Some sh =>
      Ok (tabulate sh (fun ix =>
            op (get a (broadcast_index (shape a) ix))
               (get b (broadcast_index (shape b) ix))))
  | None => Raise (ValueError "operands could not be broadcast together")
  end.

(** [a op= b]: the result must keep the shape of [a]. *)
Definition np_inplace {A B : Type} `{Inhabited A} `{Inhabited B}
    (op : A -> B -> A) (a : ndarray A) (b : ndarray B) : result (ndarray A) :=
  r ← np_binop op a b;
  if decide (shape r = shape a) then Ok r
  else Raise (ValueError "non-broadcastable output operand").

Definition np_add := np_binop Rplus.
Definition np_sub := np_binop Rminus.
Definition np_mul := np_binop Rmult.
Definition np_div := np_binop Rdiv.

Definition Rltb (x y : R) : bool := if Rlt_dec x y then true else false.
Definition Rgeb (x y : R) : bool := if Rge_dec x y then true else false.
Definition Reqb (x y : R) : bool := if Req_dec_T x y then true else false.

(** [np.where(cond, a, v)] for a scalar [v]. *)
Definition np_where (cond : ndarray bool) (a : ndarray R) (v : R)
    : result (ndarray R) :=
  np_binop (fun (c : bool) (x : R) => if c then x else v) cond a.

(** [a[mask] = v] for a boolean mask, which must have the shape of [a]. *)
Definition np_mask_set (a : ndarray R) (mask : ndarray bool) (v : R)
    : result (ndarray R) :=
  if decide (shape mask = shape a)
  then Ok (tabulate (shape a) (fun ix => if get mask ix then v else get a ix))
  else Raise (IndexError "boolean index did not match indexed array").

(* ----------------------------------------------------------------- *)
(** *** Reductions and products *)

Fixpoint sum_upto (n : nat) (f : nat -> R) : R :=
  match n with
  | O => 0%R
  | S k => (sum_upto k f + f k)%R
  end.

Definition axis_error : exn :=
  ValueError "axis 0 is out of bounds for array of dimension 0".

(** [np.sum(a, axis=0)] and [np.mean(a, axis=0)] *)
Definition np_sum0 (a : ndarray R) : result (ndarray R) :=
  match shape a with
  | n :: sh => Ok (tabulate sh (fun ix => sum_upto n (fun i => get a (i :: ix))))
  | [] => Raise axis_error
  end.

Definition np_mean0 (a : ndarray R) : result (ndarray R) :=
  match shape a with
  | n :: sh =>
      Ok (tabulate sh (fun ix =>
            (sum_upto n (fun i => get a (i :: ix)) / INR n)%R))
  | [] => Raise axis_error
  end.

(** [np.dot] on vectors and matrices. *)
Definition np_dot (a b : ndarray R) : result (ndarray R) :=
  match shape a, shape b with
  | [n; k], [k'; m] =>
      if k =? k'
      then Ok (tabulate [n; m] (fun ix =>
                 sum_upto k (fun l =>
                   (get a [ix_at ix 0; l] * get b [l; ix_at ix 1])%R)))
      else Raise (ValueError "shapes not aligned")
  | [n; k], [k'] =>
      if k =? k'
      then Ok (tabulate [n] (fun ix =>
                 sum_upto k (fun l => (get a [ix_at ix 0; l] * get b [l])%R)))
      else Raise (ValueError "shapes not aligned")
  | [k], [k'; m] =>
      if k =? k'
      then Ok (tabulate [m] (fun ix =>
                 sum_upto k (fun l => (get a [l] * get b [l; ix_at ix 0])%R)))
      else Raise (ValueError "shapes not aligned")
  | [k], [k'] =>
      if k =? k'
      then Ok (tabulate [] (fun _ =>
                 sum_upto k (fun l => (get a [l] * get b [l])%R)))
      else Raise (ValueError "shapes not aligned")
  | _, _ => Raise (ValueError "shapes not aligned")
  end.

Definition Rmax_list (l : list R) : R :=
  match l with
  | [] => 0%R
  | v :: l' => fold_left Rmax l' v
  end.

(** The elements of the window [a[n, c, :, :]], row by row. *)
Definition window_elems (a : ndarray R) (n c h w : nat) : list R :=
  flat_map (fun i => map (fun j => get a [n; c; i; j]) (seq 0 w)) (seq 0 h).

(** [np.amax(a, axis=(2,3))] on a 4-dimensional array. *)
Definition np_amax23 (a : ndarray R) : result (ndarray R) :=
  '(N, C, H, W) ← unpack4 (shape a);
  if (H * W =? 0)%nat
  then Raise (ValueError
    "zero-size array to reduction operation maximum which has no identity")
  else Ok (tabulate [N; C] (fun ix =>
             Rmax_list (window_elems a (ix_at ix 0) (ix_at ix 1) H W))).

(** [np.repeat(a, k)]: the flattened array, each element [k] times. *)
Definition np_repeat {A : Type} `{Inhabited A} (a : ndarray A) (k : nat)
    : ndarray A :=
  tabulate [size_of (shape a) * k]
    (fun ix => get a (unravel (shape a) (ix_at ix 0 / k))).

(* ----------------------------------------------------------------- *)
(** *** Slices of 4-dimensional arrays

    The kernels slice with non-negative bounds; a bound past the end of an
    axis is clipped to it.  Arrays of rank above 4 are outside the model. *)

Definition rank4 (sh : list nat) : result (nat * nat * nat * nat) :=
  match sh with
  | [a; b; c; d] => Ok (a, b, c, d)
  | _ => Raise (IndexError "too many indices for array")
  end.

Definition slice_lo (lo dim : nat) : nat := Nat.min lo dim.
Definition slice_hi (hi dim : nat) : nat := Nat.min hi dim.
Definition slice_len (lo hi dim : nat) : nat := slice_hi hi dim - slice_lo lo dim.

Definition in_slice (lo hi dim k : nat) : bool :=
  (slice_lo lo dim <=? k) && (k <? slice_hi hi dim).

(** [a[:, :, h0:h1, w0:w1]] *)
Definition np_slice23 (a : ndarray R) (h0 h1 w0 w1 : nat)
    : result (ndarray R) :=
  '(N, C, H, W) ← rank4 (shape a);
  Ok (tabulate [N; C; slice_len h0 h1 H; slice_len w0 w1 W] (fun ix =>
        get a [ix_at ix 0; ix_at ix 1;
               slice_lo h0 H + ix_at ix 2; slice_lo w0 W + ix_at ix 3])).

(** [a[:, :, h0:h1, w0:w1] += b] *)
Definition np_slice23_iadd (a : ndarray R) (h0 h1 w0 w1 : nat) (b : ndarray R)
    : result (ndarray R) :=
  '(N, C, H, W) ← rank4 (shape a);
  let sh := [N; C; slice_len h0 h1 H; slice_len w0 w1 W] in
  if decide (broadcast_shapes sh (shape b) = Some sh)
  then Ok (tabulate (shape a) (fun ix =>
             if in_slice h0 h1 H (ix_at ix 2) && in_slice w0 w1 W (ix_at ix 3)
             then (get a ix
                   + get b (broadcast_index (shape b)
                              [ix_at ix 0; ix_at ix 1;
                               (ix_at ix 2 - slice_lo h0 H)%nat;
                               (ix_at ix 3 - slice_lo w0 W)%nat]))%R
             else get a ix))
  else Raise (ValueError "operands could not be broadcast together").

(** [a[:, :, i, j]] *)
Definition np_get_ij (a : ndarray R) (i j : nat) : result (ndarray R) :=
  '(N, C, H, W) ← rank4 (shape a);
  if (i <? H) && (j <? W)
  then Ok (tabulate [N; C] (fun ix => get a [ix_at ix 0; ix_at ix 1; i; j]))
  else Raise (IndexError "index is out of bounds").

(** [a[:, :, i, j] = r] *)
Definition np_set_ij (a : ndarray R) (i j : nat) (r : ndarray R)
    : result (ndarray R) :=
  '(N, C, H, W) ← rank4 (shape a);
  if (i <? H) && (j <? W)
  then
    if decide (broadcast_shapes [N; C] (shape r) = Some [N; C])
    then Ok (tabulate (shape a) (fun ix =>
               if (ix_at ix 2 =? i) && (ix_at ix 3 =? j)
               then get r (broadcast_index (shape r) [ix_at ix 0; ix_at ix 1])
               else get a ix))
    else Raise (ValueError "could not broadcast input array")
  else Raise (IndexError "index is out of bounds").

(** [np.pad(a, ((0,), (0,), (pad,), (pad,)), 'constant')] *)
Definition np_pad23 (a : ndarray R) (pad : nat) : result (ndarray R) :=
  match shape a with
  | [N; C; H; W] =>
      Ok (tabulate [N; C; H + 2 * pad; W + 2 * pad] (fun ix =>
            if (pad <=? ix_at ix 2) && (ix_at ix 2 <? H + pad)
               && (pad <=? ix_at ix 3) && (ix_at ix 3 <? W + pad)
            then get a [ix_at ix 0; ix_at ix 1; ix_at ix 2 - pad; ix_at ix 3 - pad]
            else 0%R))
  | _ => Raise (ValueError "unable to broadcast pad_width")
  end.

(* ----------------------------------------------------------------- *)
(** *** Reductions along axis 1 and over the whole array *)

Definition axis1_error (rank : nat) : exn :=
  ValueError
    (if (rank =? 0)%nat
     then "axis 1 is out of bounds for array of dimension 0"
     else "axis 1 is out of bounds for array of dimension 1").

(** [np.max(a, axis=1, keepdims=True)] *)
Definition np_max1_keepdims (a : ndarray R) : result (ndarray R) :=
  match shape a with
  | d0 :: d1 :: rest =>
      if (d1 =? 0)%nat
      then Raise (ValueError
        "zero-size array to reduction operation maximum which has no identity")
      else Ok (tabulate (d0 :: 1%nat :: rest) (fun ix =>
                 Rmax_list (map (fun j => get a (ix_at ix 0 :: j :: skipn 2 ix))
                              (seq 0 d1))))
  | sh => Raise (axis1_error (length sh))
  end.

(** [np.sum(a, axis=1, keepdims=True)] *)
Definition np_sum1_keepdims (a : ndarray R) : result (ndarray R) :=
  match shape a with
  | d0 :: d1 :: rest =>
      Ok (tabulate (d0 :: 1%nat :: rest) (fun ix =>
            sum_upto d1 (fun j => get a (ix_at ix 0 :: j :: skipn 2 ix))))
  | sh => Raise (axis1_error (length sh))
  end.

Fixpoint count_upto (n : nat) (p : nat -> bool) : nat :=
  match n with
  | O => 0%nat
  | S k => (count_upto k p + (if p k then 1 else 0))%nat
  end.

(** [np.sum(m, axis=1)] of a boolean array: the number of [True] entries. *)
Definition np_count1 (m : ndarray bool) : result (ndarray Z) :=
  match shape m with
  | d0 :: d1 :: rest =>
      Ok (tabulate (d0 :: rest) (fun ix =>
            Z.of_nat (count_upto d1 (fun j =>
              get m (ix_at ix 0 :: j :: skipn 1 ix)))))
  | sh => Raise (axis1_error (length sh))
  end.

(** [np.sum(a)]: all the elements, in row-major order. *)
Fixpoint sum_over (sh : list nat) (f : list nat -> R) : R :=
  match sh with
  | [] => f []
  | d :: sh' => sum_upto d (fun i => sum_over sh' (fun ix => f (i :: ix)))
  end.

Definition np_sum (a : ndarray R) : R := sum_over (shape a) (get a).

(** [a[:, np.newaxis]]: the same buffer, with an axis of size 1 after the
    first one. *)
Definition np_newaxis1 {A : Type} (a : ndarray A) : result (ndarray A) :=
  match shape a with
  | d :: rest => Ok (mk_nd (d :: 1%nat :: rest) (data a))
  | [] => Raise (IndexError "too many indices for array")
  end.

(* ----------------------------------------------------------------- *)
(** *** Indexing with two integer arrays

    [a[rows, cols]] reads, at each position of the common (broadcast) shape
    of the two index arrays, the row and the column to take; a negative
    index counts from the end of its axis, and the axes of [a] after the
    second are kept.  Index arrays hold integers by their type. *)

(** [np.arange(n)] *)
Definition np_arange (n : nat) : ndarray Z :=
  tabulate [n] (fun ix => Z.of_nat (ix_at ix 0)).

Definition norm_index (d : nat) (z : Z) : option nat :=
  if ((0 <=? z) && (z <? Z.of_nat d))%Z then Some (Z.to_nat z)
  else if ((- Z.of_nat d <=? z) && (z <? 0))%Z
       then Some (Z.to_nat (z + Z.of_nat d))
       else None.

Definition index_pair (rows cols : ndarray Z) (d0 d1 : nat) (k : list nat)
    : option (nat * nat) :=
  match norm_index d0 (get rows (broadcast_index (shape rows) k)),
        norm_index d1 (get cols (broadcast_index (shape cols) k)) with
  | Some i, Some j => Some (i, j)
  | _, _ => None
  end.

(** The shape of the index, the remaining axes of the indexed array, and
    the (row, column) pairs in row-major order of the index. *)
Definition fancy_index (sh_a : list nat) (rows cols : ndarray Z)
    : result (list nat * list nat * list (nat * nat)) :=
  match sh_a with
  | d0 :: d1 :: rest =>
      match broadcast_shapes (shape rows) (shape cols) with
      | Some sh =>
          match mapM (fun k => index_pair rows cols d0 d1 (unravel sh k))
                  (seq 0 (size_of sh)) with
          | Some pairs => Ok (sh, rest, pairs)
          | None => Raise (IndexError "index is out of bounds for axis")
          end
      | None =>
          Raise (IndexError
            "shape mismatch: indexing arrays could not be broadcast together")
      end
  | _ => Raise (IndexError "too many indices for array")
  end.

(** [a[rows, cols]] *)
Definition np_take2 (a : ndarray R) (rows cols : ndarray Z)
    : result (ndarray R) :=
  '(sh, rest, pairs) ← fancy_index (shape a) rows cols;
  Ok (tabulate (sh ++ rest) (fun ix =>
        let '(i, j) := nth (ravel sh (firstn (length sh) ix)) pairs (0, 0)%nat in
        get a (i :: j :: skipn (length sh) ix))).

(** The last position of [p] in [l]: where a pair is listed twice, the last
    assignment is the one that stays. *)
Fixpoint last_index (p : nat * nat) (l : list (nat * nat)) : option nat :=
  match l with
  | [] => None
  | q :: l' =>
      match last_index p l' with
      | Some k => Some (S k)
      | None => if decide (q = p) then Some 0%nat else None
      end
  end.

(** [a[rows, cols] = v] *)
Definition np_put2 (a : ndarray R) (rows cols : ndarray Z) (v : ndarray R)
    : result (ndarray R) :=
  '(sh, rest, pairs) ← fancy_index (shape a) rows cols;
  if decide (broadcast_shapes (sh ++ rest) (shape v) = Some (sh ++ rest))
  then Ok (tabulate (shape a) (fun ix =>
             match last_index (ix_at ix 0, ix_at ix 1) pairs with
             | Some k =>
                 get v (broadcast_index (shape v) (unravel sh k ++ skipn 2 ix))
             | None => get a ix
             end))
  else Raise (ValueError
    "shape mismatch: value array could not be broadcast to indexing result").

(* ================================================================= *)
(** ** Python values and dictionaries *)

Inductive pyval : Type :=
| PInt (z : Z)
| PFloat (r : R)
| PStr (s : string)
| PArr (a : ndarray R).

(** [d[k]] *)
Definition dict_item {V : Type} (d : gmap string V) (k : string) : result V :=
  match d !! k with
  | Some v => Ok v
  | None => Raise (KeyError k)
  end.

(** A value used as an operand of array arithmetic. *)
Definition to_array (v : pyval) : result (ndarray R) :=
  match v with
  | PInt z => Ok (scalar (IZR z))
  | PFloat r => Ok (scalar r)
  | PArr a => Ok a
  | PStr _ =>
      Raise (TypeError
        "ufunc did not contain a loop with signature matching types")
  end.

(** [v == s] for a string literal [s]. *)
Definition py_eq_str (v : pyval) (s : string) : bool :=
  match v with
  | PStr s' => bool_decide (s' = s)
  | _ => false
  end.

(** ['%s' % v].  Only strings are formatted by the model. *)
Definition py_format (v : pyval) : result string :=
  match v with
  | PStr s => Ok s
  | _ => Raise (TypeError "formatting of a value that is not a string")
  end.

Definition dquote : string := String (ascii_of_nat 34) EmptyString.

(** [int((a) / stride + 1)], equally [int(1 + (a) / stride)]: the exact
    quotient, truncated towards zero. *)
Definition out_size (a : Z) (stride : nat) : result Z :=
  if (stride =? 0)%nat
  then Raise (ZeroDivisionError "division by zero")
  else Ok (Z.quot (a + Z.of_nat stride) (Z.of_nat stride)).

(* ================================================================= *)
(** ** Affine layer *)

(** [np.reshape(x, (x.shape[0], -1))] *)
Definition np_reshape_rows (x : ndarray R) : result (ndarray R) :=
  n ← shape0 (shape x);
  if (n =? 0)%nat
  then Raise (ValueError "cannot reshape array of size 0 into shape (0,newaxis)")
  else Ok (mk_nd [n; size_of (shape x) / n] (data x)).

Definition affine_forward (x w b : ndarray R)
    : result (ndarray R * (ndarray R * ndarray R * ndarray R)) :=
  X ← np_reshape_rows x;
  y ← np_dot X w;
  out ← np_add y b;
  let cache := (x, w, b) in
  Ok (out, cache).

Definition affine_backward (dout : ndarray R)
    (cache : ndarray R * ndarray R * ndarray R)
    : result (ndarray R * ndarray R * ndarray R) :=
  let '(x, w, b) := cache in
  dX ← np_dot dout (np_T w);
  dx ← np_reshape dX (shape x);
  xr ← np_reshape x (shape dX);
  dw ← np_dot (np_T xr) dout;
  n ← shape0 (shape x);
  db ← np_dot (np_T dout) (np_ones [n]);
  Ok (dx, dw, db).

(* ================================================================= *)
(** ** ReLU *)

Definition relu_forward (x : ndarray R) : result (ndarray R * ndarray R) :=
  let out := np_map (Rmax 0) x in
  let cache := x in
  Ok (out, cache).

Definition relu_backward (dout : ndarray R) (cache : ndarray R)
    : result (ndarray R) :=
  let x := cache in
  dx ← np_where (np_map (fun v => Rgeb v 0) x) dout 0;
  Ok dx.

(* ================================================================= *)
(** ** Batch normalization *)

(** The tuple [gamma, beta, eps, x, xn, sample_mean, sample_var, num, den]. *)
Record bn_cache : Type := mk_bn_cache {
  c_gamma : ndarray R;
  c_beta : ndarray R;
  c_eps : pyval;
  c_x : ndarray R;
  c_xn : ndarray R;
  c_smean : ndarray R;
  c_svar : ndarray R;
  c_num : ndarray R;
  c_den : ndarray R
}.

Definition invalid_mode_message (mode : string) : string :=
  "Invalid forward batchnorm mode " +:+ dquote +:+ mode +:+ dquote.

(** The third component of the result is [bn_param] as the call leaves it. *)
Definition batchnorm_forward (x gamma beta : ndarray R)
    (bn_param : gmap string pyval)
    : result (ndarray R * option bn_cache * gmap string pyval) :=
  mode ← dict_item bn_param "mode";
  let eps := default (PFloat (1 / 100000)) (bn_param !! "eps") in
  let momentum := default (PFloat (9 / 10)) (bn_param !! "momentum") in
  '(N, D) ← unpack2 (shape x);
  let running_mean := default (PArr (np_zeros [D])) (bn_param !! "running_mean") in
  let running_var := default (PArr (np_zeros [D])) (bn_param !! "running_var") in
  '(out, cache, running_mean, running_var) ←
    (if py_eq_str mode "train" then
       sample_mean ← np_mean0 x;
       centered ← np_sub x sample_mean;
       sample_var ← np_mean0 (np_map Rsqr centered);
       num ← np_sub x sample_mean;
       eps_a ← to_array eps;
       var_eps ← np_add sample_var eps_a;
       let den := np_map sqrt var_eps in
       xn ← np_div num den;
       scaled ← np_mul xn gamma;
       out ← np_add scaled beta;
       mom ← to_array momentum;
       rm ← to_array running_mean;
       rm_old ← np_mul mom rm;
       one_minus ← np_sub (scalar 1) mom;
       rm_new ← np_mul one_minus sample_mean;
       running_mean ← np_add rm_old rm_new;
       rv ← to_array running_var;
       rv_old ← np_mul mom rv;
       one_minus ← np_sub (scalar 1) mom;
       rv_new ← np_mul one_minus sample_var;
       running_var ← np_add rv_old rv_new;
       let cache :=
         mk_bn_cache gamma beta eps x xn sample_mean sample_var num den in
       Ok (out, Some cache, PArr running_mean, PArr running_var)
     else if py_eq_str mode "test" then
       rm ← to_array running_mean;
       centered ← np_sub x rm;
       rv ← to_array running_var;
       eps_a ← to_array eps;
       var_eps ← np_add rv eps_a;
       xn ← np_div centered (np_map sqrt var_eps);
       scaled ← np_mul xn gamma;
       out ← np_add scaled beta;
       Ok (out, None, running_mean, running_var)
     else
       m ← py_format mode;
       Raise (ValueError (invalid_mode_message m)));
  Ok (out, cache,
      <["running_var" := running_var]>
        (<["running_mean" := running_mean]> bn_param)).

Definition unpack_cache (cache : option bn_cache) : result bn_cache :=
  match cache with
  | Some c => Ok c
  | None => Raise (TypeError "cannot unpack non-iterable NoneType object")
  end.

Definition batchnorm_backward (dout : ndarray R) (cache : option bn_cache)
    : result (ndarray R * ndarray R * ndarray R) :=
  c ← unpack_cache cache;
  let '(gamma, x, xn, smean, num, den) :=
    (c_gamma c, c_x c, c_xn c, c_smean c, c_num c, c_den c) in
  dxn ← np_mul dout gamma;
  dout_xn ← np_mul dout xn;
  dgamma ← np_sum0 dout_xn;
  dbeta ← np_sum0 dout;
  let invden := np_map (fun v => 1 / v)%R den in
  dnum ← np_mul dxn invden;
  let dx := np_map (fun v => 1 * v)%R dnum in
  dnum_sum ← np_sum0 dnum;
  let dsmean := np_map (fun v => -1 * v)%R dnum_sum in
  dxn_num ← np_mul dxn num;
  dinvden ← np_sum0 dxn_num;
  dden ← np_mul (np_map (fun v => -1 / v)%R (np_map Rsqr den)) dinvden;
  dsvareps ← np_mul (np_map (fun v => (5 / 10) / v)%R den) dden;
  let dsvar := dsvareps in
  centered ← np_sub x smean;
  centered_mean ← np_mean0 centered;
  t ← np_mul (np_map (fun v => 2 * v)%R dsvar) centered_mean;
  dsmean ← np_inplace Rplus dsmean t;
  centered ← np_sub x smean;
  t ← np_mul (np_map (fun v => 2 * v)%R dsvar) centered;
  n ← shape0 (shape x);
  dx ← np_inplace Rplus dx (np_map (fun v => v / INR n)%R t);
  t ← np_mul (np_ones (shape x)) dsmean;
  n ← shape0 (shape x);
  dx ← np_inplace Rplus dx (np_map (fun v => v / INR n)%R t);
  Ok (dx, dgamma, dbeta).

Definition batchnorm_backward_alt (dout : ndarray R) (cache : option bn_cache)
    : result (ndarray R * ndarray R * ndarray R) :=
  c ← unpack_cache cache;
  let '(gamma, eps, x, xn, smean, svar) :=
    (c_gamma c, c_eps c, c_x c, c_xn c, c_smean c, c_svar c) in
  N ← shape0 (shape x);
  dout_sum ← np_sum0 dout;
  dx ← np_sub (np_map (fun v => INR N * v)%R dout) dout_sum;
  centered ← np_sub x smean;
  centered' ← np_sub x smean;
  dout_centered ← np_mul dout centered';
  s ← np_sum0 dout_centered;
  t ← np_mul centered s;
  eps_a ← to_array eps;
  var_eps ← np_add svar eps_a;
  t ← np_div t var_eps;
  dx ← np_inplace Rminus dx t;
  eps_a ← to_array eps;
  var_eps ← np_add svar eps_a;
  factor ← np_div (np_map (fun v => v / INR N)%R gamma) (np_map sqrt var_eps);
  dx ← np_inplace Rmult dx factor;
  dout_xn ← np_mul dout xn;
  dgamma ← np_sum0 dout_xn;
  dbeta ← np_sum0 dout;
  Ok (dx, dgamma, dbeta).

(* ================================================================= *)
(** ** Dropout *)

(** The random generator of numpy is a process-wide state: seeding replaces
    it, drawing advances it.  The generator itself is a parameter. *)
Record generator : Type := mk_generator {
  rng : Type;
  np_random_seed : Z -> rng;
  np_random_rand : list nat -> rng -> ndarray R * rng;
  (** [np.random.rand] called on the shape [sh] returns an array of that
      shape, drawn from the interval from 0 (included) to 1 (excluded). *)
  rand_shape : forall sh g, shape (fst (np_random_rand sh g)) = sh;
  rand_range : forall sh g ix, in_bounds ix sh ->
    (0 <= get (fst (np_random_rand sh g)) ix < 1)%R
}.

Definition to_seed (v : pyval) : result Z :=
  match v with
  | PInt z =>
      if ((0 <=? z) && (z <? 2 ^ 32))%Z then Ok z
      else Raise (ValueError "Seed must be between 0 and 2**32 - 1")
  | _ => Raise (TypeError "Cannot cast scalar to an integer seed")
  end.

(** [if 'seed' in dropout_param: np.random.seed(dropout_param['seed'])] *)
Definition seed_generator (G : generator) (dropout_param : gmap string pyval)
    (g : rng G) : result (rng G) :=
  match dropout_param !! "seed" with
  | Some s => z ← to_seed s; Ok (np_random_seed G z)
  | None => Ok g
  end.

Definition none_astype_message : string :=
  "'NoneType' object has no attribute 'astype'".

(** The state of the generator after the call is the last component of the
    result (it is not modelled when the call raises). *)
Definition dropout_forward (G : generator) (x : ndarray R)
    (dropout_param : gmap string pyval) (g : rng G)
    : result (ndarray R * (gmap string pyval * option (ndarray R)) * rng G) :=
  p ← dict_item dropout_param "p";
  mode ← dict_item dropout_param "mode";
  g ← seed_generator G dropout_param g;
  '(mask, out, g) ←
    (if py_eq_str mode "train" then
       let mask := np_ones (shape x) in
       let '(probs, g) := np_random_rand G (shape x) g in
       p_a ← to_array p;
       dropped ← np_binop Rltb probs p_a;
       mask ← np_mask_set mask dropped 0;
       out ← np_mul x mask;
       Ok (Some mask, Some out, g)
     else if py_eq_str mode "test" then
       Ok (None, Some x, g)
     else Ok (None, None, g));
  let cache := (dropout_param, mask) in
  match out with
  | Some out => Ok (out, cache, g)
  | None => Raise (AttributeError none_astype_message)
  end.

(** The result is [None] when the mode is neither ['train'] nor ['test']. *)
Definition dropout_backward (dout : ndarray R)
    (cache : gmap string pyval * option (ndarray R))
    : result (option (ndarray R)) :=
  let '(dropout_param, mask) := cache in
  mode ← dict_item dropout_param "mode";
  if py_eq_str mode "train" then
    match mask with
    | Some mask => dx ← np_mul dout mask; Ok (Some dx)
    | None => Raise (TypeError "unsupported operand type(s) for *")
    end
  else if py_eq_str mode "test" then Ok (Some dout)
  else Ok None.

(* ================================================================= *)
(** ** Convolution *)

Definition conv_cache : Type :=
  ndarray R * ndarray R * ndarray R * gmap string nat.

Definition conv_forward_naive (x w b : ndarray R)
    (conv_param : gmap string nat) : result (ndarray R * conv_cache) :=
  '(N, C, H, W) ← unpack4 (shape x);
  '(F, C, HH, WW) ← unpack4 (shape w);
  let D := C * HH * WW in
  let stride := default 1 (conv_param !! "stride") in
  let pad := default 0 (conv_param !! "pad") in
  x_padded ← np_pad23 x pad;
  H1 ← out_size (Z.of_nat H + 2 * Z.of_nat pad - Z.of_nat HH) stride;
  W1 ← out_size (Z.of_nat W + 2 * Z.of_nat pad - Z.of_nat WW) stride;
  out ← np_zeros_int [Z.of_nat N; Z.of_nat F; H1; W1];
  wr ← np_reshape w [F; D];
  let wr := np_T wr in
  out ← for_each (py_range H1) (fun i out =>
           for_each (py_range W1) (fun j out =>
             xij ← np_slice23 x_padded (stride * i) (stride * i + HH)
                                       (stride * j) (stride * j + WW);
             xij ← np_reshape xij [N; D];
             y ← np_dot xij wr;
             y ← np_add y b;
             np_set_ij out i j y) out) out;
  let cache := (x, w, b, conv_param) in
  Ok (out, cache).

Definition conv_backward_naive (dout : ndarray R) (cache : conv_cache)
    : result (ndarray R * ndarray R * ndarray R) :=
  let '(x, w, b, conv_param) := cache in
  '(N, C, H, W) ← unpack4 (shape x);
  '(F, C, HH, WW) ← unpack4 (shape w);
  let D := C * HH * WW in
  let stride := default 1 (conv_param !! "stride") in
  let pad := default 0 (conv_param !! "pad") in
  x_padded ← np_pad23 x pad;
  H1 ← out_size (Z.of_nat H + 2 * Z.of_nat pad - Z.of_nat HH) stride;
  W1 ← out_size (Z.of_nat W + 2 * Z.of_nat pad - Z.of_nat WW) stride;
  wr ← np_reshape w [F; D];
  let dx_padded := np_zeros (shape x_padded) in
  let dwr := np_zeros (shape wr) in
  let db := np_zeros (shape b) in
  '(dx_padded, dwr, db) ←
    for_each (py_range H1) (fun i acc =>
      for_each (py_range W1) (fun j acc =>
        let '(dx_padded, dwr, db) := acc in
        dO ← np_get_ij dout i j;
        xij ← np_slice23 x_padded (stride * i) (stride * i + HH)
                                  (stride * j) (stride * j + WW);
        xij ← np_reshape xij [N; D];
        dxij ← np_dot dO wr;
        dxij ← np_reshape dxij [N; C; HH; WW];
        dx_padded ← np_slice23_iadd dx_padded
                      (stride * i) (stride * i + HH)
                      (stride * j) (stride * j + WW) dxij;
        t ← np_dot (np_T dO) xij;
        dwr ← np_inplace Rplus dwr t;
        t ← np_dot (np_T dO) (np_ones [N]);
        db ← np_inplace Rplus db t;
        Ok (dx_padded, dwr, db)) acc) (dx_padded, dwr, db);
  dx ← np_slice23 dx_padded pad (H + pad) pad (W + pad);
  dw ← np_reshape dwr [F; C; HH; WW];
  Ok (dx, dw, db).

(* ================================================================= *)
(** ** Max pooling *)

Definition pool_cache : Type := ndarray R * ndarray R * gmap string nat.

Definition max_pool_forward_naive (x : ndarray R)
    (pool_param : gmap string nat) : result (ndarray R * pool_cache) :=
  '(N, C, H, W) ← unpack4 (shape x);
  let HH := default H (pool_param !! "pool_height") in
  let WW := default W (pool_param !! "pool_width") in
  let stride := default 1 (pool_param !! "stride") in
  H1 ← out_size (Z.of_nat H - Z.of_nat HH) stride;
  W1 ← out_size (Z.of_nat W - Z.of_nat WW) stride;
  out ← np_zeros_int [Z.of_nat N; Z.of_nat C; H1; W1];
  out ← for_each (py_range H1) (fun i out =>
           for_each (py_range W1) (fun j out =>
             xij ← np_slice23 x (stride * i) (stride * i + HH)
                                (stride * j) (stride * j + WW);
             m ← np_amax23 xij;
             np_set_ij out i j m) out) out;
  let cache := (x, out, pool_param) in
  Ok (out, cache).

Definition max_pool_backward_naive (dout : ndarray R) (cache : pool_cache)
    : result (ndarray R) :=
  let '(x, out, pool_param) := cache in
  '(N, C, H, W) ← unpack4 (shape x);
  let HH := default H (pool_param !! "pool_height") in
  let WW := default W (pool_param !! "pool_width") in
  let stride := default 1 (pool_param !! "stride") in
  H1 ← out_size (Z.of_nat H - Z.of_nat HH) stride;
  W1 ← out_size (Z.of_nat W - Z.of_nat WW) stride;
  let dx := np_zeros [N; C; H; W] in
  for_each (py_range H1) (fun i dx =>
    for_each (py_range W1) (fun j dx =>
      xij ← np_slice23 x (stride * i) (stride * i + HH)
                         (stride * j) (stride * j + WW);
      outij ← np_get_ij out i j;
      doutij ← np_get_ij dout i j;
      outij ← np_reshape (np_repeat outij (HH * WW)) (shape xij);
      doutij ← np_reshape (np_repeat doutij (HH * WW)) (shape xij);
      maskij ← np_binop Reqb xij outij;
      let dxij := np_zeros (shape xij) in
      dxij ← np_mask_set dxij maskij 1;
      dxij ← np_inplace Rmult dxij doutij;
      np_slice23_iadd dx (stride * i) (stride * i + HH)
                         (stride * j) (stride * j + WW) dxij) dx) dx.

(* ================================================================= *)
(** ** Spatial batch normalization *)

Definition spatial_batchnorm_forward (x gamma beta : ndarray R)
    (bn_param : gmap string pyval)
    : result (ndarray R * option bn_cache * gmap string pyval) :=
  '(N, C, H, W) ← unpack4 (shape x);
  xt ← np_transpose x [0; 2; 3; 1];
  rx ← np_reshape xt [N * H * W; C];
  '(rout, cache, bn_param) ← batchnorm_forward rx gamma beta bn_param;
  r ← np_reshape rout [N; H; W; C];
  out ← np_transpose r [0; 3; 1; 2];
  Ok (out, cache, bn_param).

Definition spatial_batchnorm_backward (dout : ndarray R)
    (cache : option bn_cache)
    : result (ndarray R * ndarray R * ndarray R) :=
  '(N, C, H, W) ← unpack4 (shape dout);
  dt ← np_transpose dout [0; 2; 3; 1];
  rdout ← np_reshape dt [N * H * W; C];
  '(rdx, dgamma, dbeta) ← batchnorm_backward_alt rdout cache;
  r ← np_reshape rdx [N; H; W; C];
  dx ← np_transpose r [0; 3; 1; 2];
  Ok (dx, dgamma, dbeta).

(* ================================================================= *)
(** ** Loss functions

    The labels [y] are an array of integers.  The scores are read with
    [x[np.arange(N), y]], which does not check that a label is a class: a
    label outside [-C, C) raises [IndexError], a negative label in that
    range counts from the last class. *)

Definition svm_loss (x : ndarray R) (y : ndarray Z)
    : result (R * ndarray R) :=
  N ← shape0 (shape x);
  correct_class_scores ← np_take2 x (np_arange N) y;
  col ← np_newaxis1 correct_class_scores;
  d ← np_sub x col;
  d ← np_add d (scalar 1);
  let margins := np_map (Rmax 0) d in
  margins ← np_put2 margins (np_arange N) y (scalar 0);
  let loss := (np_sum margins / INR N)%R in
  num_pos ← np_count1 (np_map (Rltb 0) margins);
  let dx := np_zeros (shape x) in
  dx ← np_mask_set dx (np_map (Rltb 0) margins) 1;
  t ← np_take2 dx (np_arange N) y;
  t ← np_inplace (fun (v : R) (k : Z) => v - IZR k)%R t num_pos;
  dx ← np_put2 dx (np_arange N) y t;
  let dx := np_map (fun v => v / INR N)%R dx in
  Ok (loss, dx).

Definition softmax_loss (x : ndarray R) (y : ndarray Z)
    : result (R * ndarray R) :=
  m ← np_max1_keepdims x;
  d ← np_sub x m;
  let probs := np_map exp d in
  s ← np_sum1_keepdims probs;
  probs ← np_inplace Rdiv probs s;
  N ← shape0 (shape x);
  p ← np_take2 probs (np_arange N) y;
  let loss := (- np_sum (np_map ln p) / INR N)%R in
  let dx := probs in
  t ← np_take2 dx (np_arange N) y;
  t ← np_inplace Rminus t (scalar 1);
  dx ← np_put2 dx (np_arange N) y t;
  let dx := np_map (fun v => v / INR N)%R dx in
  Ok (loss, dx).

(* ================================================================= *)
(** ** Specification vocabulary *)

(** Batch statistics of column [j] of an (N, D) matrix. *)
Definition batch_mean (x : ndarray R) (N j : nat) : R :=
  (sum_upto N (fun i => get x [i; j]) / INR N)%R.

Definition batch_var (x : ndarray R) (N j : nat) : R :=
  (sum_upto N (fun i => Rsqr (get x [i; j] - batch_mean x N j)) / INR N)%R.

(** A configuration of batch normalization whose optional entries, when
    present, carry the documented types: floats for [eps] and [momentum],
    arrays of shape (D,) for the running statistics. *)
Definition bn_config (bn_param : gmap string pyval) (D : nat)
    (eps momentum : R) (running_mean running_var : ndarray R) : Prop :=
  default (PFloat (1 / 100000)) (bn_param !! "eps") = PFloat eps
  /\ default (PFloat (9 / 10)) (bn_param !! "momentum") = PFloat momentum
  /\ default (PArr (np_zeros [D])) (bn_param !! "running_mean")
     = PArr running_mean
  /\ default (PArr (np_zeros [D])) (bn_param !! "running_var")
     = PArr running_var
  /\ shape running_mean = [D]
  /\ shape running_var = [D].

(** The cache of a training-mode call of batch normalization on an (N, D)
    input, written with the batch statistics. *)
Definition bn_train_cache (x gamma beta : ndarray R) (eps : R) (N D : nat)
    : bn_cache :=
  {| c_gamma := gamma; c_beta := beta; c_eps := PFloat eps; c_x := x;
     c_xn := tabulate [N; D] (fun ix =>
       ((get x ix - batch_mean x N (ix_at ix 1))
        / sqrt (batch_var x N (ix_at ix 1) + eps))%R);
     c_smean := tabulate [D] (fun ix => batch_mean x N (ix_at ix 0));
     c_svar := tabulate [D] (fun ix => batch_var x N (ix_at ix 0));
     c_num := tabulate [N; D] (fun ix =>
       (get x ix - batch_mean x N (ix_at ix 1))%R);
     c_den := tabulate [D] (fun ix =>
       sqrt (batch_var x N (ix_at ix 0) + eps)) |}.

(** The output of a forward pass, without its cache. *)
Definition output {A B : Type} (r : result (A * B)) : result A :=
  '(out, _) ← r; Ok out.

(** The values of the pooling window [(i, j)] of image [(n, c)], the
    positions it covers, and what position [(h, w)] receives from it in the
    backward pass: the upstream value when its own value is the window's
    maximum, nothing otherwise. *)
Definition pool_window (x : ndarray R) (stride HH WW n c i j : nat) : list R :=
  flat_map (fun a =>
    map (fun b => get x [n; c; stride * i + a; stride * j + b]) (seq 0 WW))
    (seq 0 HH).

Definition in_window (stride HH WW i j h w : nat) : bool :=
  (stride * i <=? h) && (h <? stride * i + HH)
  && ((stride * j <=? w) && (w <? stride * j + WW)).

Definition routed (x dout : ndarray R) (stride HH WW n c h w i j : nat) : R :=
  if in_window stride HH WW i j h w
     && Reqb (get x [n; c; h; w])
             (Rmax_list (pool_window x stride HH WW n c i j))
  then get dout [n; c; i; j]
  else 0%R.

(** The zero-padded image of the convolution, at row [h] and column [w] of
    the padded frame. *)
Definition padded (x : ndarray R) (pad H W n c h w : nat) : R :=
  if (pad <=? h) && (h <? H + pad) && (pad <=? w) && (w <? W + pad)
  then get x [n; c; h - pad; w - pad]
  else 0%R.

(** The class that the label [y[i]] selects among [C] classes (a negative
    label counts from the last class), and the labels that select one. *)
Definition label (C : nat) (y : ndarray Z) (i : nat) : nat :=
  default 0%nat (norm_index C (get y [i])).

Definition valid_labels (N C : nat) (y : ndarray Z) : Prop :=
  forall i, i < N -> is_Some (norm_index C (get y [i])).

(** The hinge margin of class [j] for example [i]: 0 for the labelled
    class. *)
Definition hinge (x : ndarray R) (C : nat) (y : ndarray Z) (i j : nat) : R :=
  if decide (j = label C y i) then 0%R
  else Rmax 0 (get x [i; j] - get x [i; label C y i] + 1).

(** The softmax of row [i] of the scores, at class [j]. *)
Definition softmax (x : ndarray R) (C i j : nat) : R :=
  (exp (get x [i; j]) / sum_upto C (fun k => exp (get x [i; k])))%R.

(** The gradient of the hinge loss of example [i] with respect to the score
    of class [j], before the division by the size of the batch: minus the
    number of classes with a positive margin for the labelled class, 1 for
    a class with a positive margin, 0 for the others. *)
Definition hinge_grad (x : ndarray R) (C : nat) (y : ndarray Z) (i j : nat)
    : R :=
  if decide (j = label C y i)
  then (- INR (count_upto C (fun k => Rltb 0 (hinge x C y i k))))%R
  else if Rltb 0 (hinge x C y i j) then 1%R else 0%R.



(* ================================================================= *)
(** ** Concrete inputs *)

(** [{'p': 0.5, 'mode': 'foo'}] *)
Definition foo_param : gmap string pyval :=
  <["mode" := PStr "foo"]> (<["p" := PFloat (1 / 2)]> ∅).

(** A generator whose draws are all 0. *)
Definition zero_generator : generator :=
  {| rng := unit;
     np_random_seed := fun _ => tt;
     np_random_rand := fun sh g => (mk_nd sh (repeat 0%R (size_of sh)), g);
     rand_shape := fun _ _ => eq_refl;
     rand_range := ltac:(intros sh g ix _; unfold get; simpl;
                         rewrite nth_repeat; lra) |}.

(** [{'p': 0.5, 'mode': 'train'}] *)
Definition train_param : gmap string pyval :=
  <["mode" := PStr "train"]> (<["p" := PFloat (1 / 2)]> ∅).

(** The vector [[3., 4.]] and the draws [[0., 0.]]. *)
Definition vec34 : ndarray R := mk_nd [2] [3; 4]%R.
Definition vec00 : ndarray R := mk_nd [2] [0; 0]%R.

(** [{'mode': 'train'}] and [{'mode': 'test'}] *)
Definition bn_train_param : gmap string pyval := {["mode" := PStr "train"]}.
Definition bn_test_param : gmap string pyval := {["mode" := PStr "test"]}.

(** The 1 x 1 matrix [[1.]], and the vectors [[1.]] and [[0.]]. *)
Definition mat1 : ndarray R := mk_nd [1; 1] [1%R].
Definition vec1 : ndarray R := mk_nd [1] [1%R].
Definition vec0 : ndarray R := mk_nd [1] [0%R].

(** [{'mode': 'test', 'running_mean': [0.], 'running_var': [1.]}] *)
Definition bn_test_full : gmap string pyval :=
  <["running_var" := PArr vec1]>
    (<["running_mean" := PArr vec0]> bn_test_param).

(** A 1 x 1 x 1 x 1 image, and a 1 x 1 x 3 x 3 filter bank. *)
Definition img1 : ndarray R := mk_nd [1; 1; 1; 1] [1%R].
Definition filter3 : ndarray R :=
  mk_nd [1; 1; 3; 3] [1; 1; 1; 1; 1; 1; 1; 1; 1]%R.

(** A row [[1., 5., 2.]] pooled by windows of width 2 with stride 1, and an
    upstream gradient [[10., 20.]]. *)
Definition row152 : ndarray R := mk_nd [1; 1; 1; 3] [1; 5; 2]%R.
Definition up1020 : ndarray R := mk_nd [1; 1; 1; 2] [10; 20]%R.
Definition pool12 : gmap string nat :=
  <["pool_height" := 1]> (<["pool_width" := 2]> (<["stride" := 1]> ∅)).

(** [{'p': 0.5, 'mode': 'test'}] *)
Definition test_param : gmap string pyval :=
  <["mode" := PStr "test"]> (<["p" := PFloat (1 / 2)]> ∅).

(** An array filled with 0.1. *)
Definition tenths (sh : list nat) : ndarray R :=
  tabulate sh (fun _ => (1 / 10)%R).

(** [{'p': 0.5, 'mode': 'train', 'seed': 7}] *)
Definition seeded_param : gmap string pyval :=
  <["seed" := PInt 7]> train_param.

(** A generator that counts its draws, which are all 0. *)
Definition counting_generator : generator :=
  {| rng := nat;
     np_random_seed := fun z => Z.to_nat z;
     np_random_rand := fun sh g => (mk_nd sh (repeat 0%R (size_of sh)), S g);
     rand_shape := fun _ _ => eq_refl;
     rand_range := ltac:(intros sh g ix _; unfold get; simpl;
                         rewrite nth_repeat; lra) |}.

(** One example with the scores [[3., 4.]], labelled with class 0. *)
Definition scores34 : ndarray R := mk_nd [1; 2] [3; 4]%R.
Definition labels0 : ndarray Z := mk_nd [1] [0%Z].

(** The labels [[2]] and [[-2]] for one example. *)
Definition labels2 : ndarray Z := mk_nd [1] [2%Z].
Definition labels_m2 : ndarray Z := mk_nd [1] [(-2)%Z].

(** A generator whose draws alternate between 0 and 0.75, in the order of
    the buffer; its state is left as it is. *)
Definition alternating_generator : generator :=
  {| rng := unit;
     np_random_seed := fun _ => tt;
     np_random_rand := fun sh g =>
       (mk_nd sh (map (fun k => if Nat.even k then 0%R else (3 / 4)%R)
                      (seq 0 (size_of sh))), g);
     rand_shape := fun _ _ => eq_refl;
     rand_range := ltac:(intros sh g ix _; unfold get; simpl;
                         destruct (nth_in_or_default (ravel sh ix)
                                     (map (fun k => if Nat.even k then 0%R
                                                    else (3 / 4)%R)
                                          (seq 0 (size_of sh))) 0%R)
                           as [Hin | E];
                         [ apply in_map_iff in Hin as (m & <- & _);
                           destruct (Nat.even m); lra
                         | rewrite E; lra ]) |}.

(** [{'p': 0.0, 'mode': 'train'}] and [{'p': 1.0, 'mode': 'train'}] *)
Definition keep_all_param : gmap string pyval :=
  <["mode" := PStr "train"]> (<["p" := PFloat 0]> ∅).
Definition drop_all_param : gmap string pyval :=
  <["mode" := PStr "train"]> (<["p" := PFloat 1]> ∅).

(** A batch of two examples with one feature, [[1.], [3.]], and the
    upstream gradient [[1.], [0.]]. *)
Definition col13 : ndarray R := mk_nd [2; 1] [1; 3]%R.
Definition col10 : ndarray R := mk_nd [2; 1] [1; 0]%R.

(** The scores [[5., 6.]]: those of [scores34] plus 2. *)
Definition scores56 : ndarray R := mk_nd [1; 2] [5; 6]%R.

(** [{'stride': 2}] *)
Definition stride2 : gmap string nat := {["stride" := 2]}.

(* ================================================================= *)
(** * Properties *)

(** ** The result monad *)

Lemma bind_ok {A B : Type} (m : result A) (k : A -> result B) (b : B) :
  bind m k = Ok b -> exists a, m = Ok a /\ k a = Ok b.
Proof.
  destruct m as [a|e]; simpl; intros E; [eauto | discriminate].
Qed.

Lemma size_of_pos_bounds (sh ix : list nat) :
  in_bounds ix sh -> ravel sh ix < size_of sh.
Proof.
  revert ix; induction sh as [|d sh IH]; intros [|i ix]; simpl; try tauto.
  - lia.
  - intros [Hi Hix]. specialize (IH ix Hix). nia.
Qed.

Lemma unravel_ravel (sh ix : list nat) :
  in_bounds ix sh -> unravel sh (ravel sh ix) = ix.
Proof.
  revert ix; induction sh as [|d sh IH]; intros [|i ix]; simpl; try tauto.
  intros [Hi Hix].
  pose proof (size_of_pos_bounds sh ix Hix) as Hlt.
  assert (Hs : size_of sh <> 0%nat) by lia.
  rewrite Nat.div_add_l by exact Hs.
  rewrite (Nat.div_small _ _ Hlt), Nat.add_0_r.
  f_equal.
  rewrite Nat.add_comm, Nat.Div0.mod_add, (Nat.mod_small _ _ Hlt).
  apply IH, Hix.
Qed.

Lemma unravel_in_bounds (sh : list nat) (k : nat) :
  k < size_of sh -> in_bounds (unravel sh k) sh.
Proof.
  revert k; induction sh as [|d sh IH]; intros k Hk; simpl in *; [exact I|].
  assert (Hs : size_of sh <> 0%nat) by (intros E; rewrite E in Hk; lia).
  split.
  - apply Nat.Div0.div_lt_upper_bound. lia.
  - apply IH. apply Nat.mod_upper_bound, Hs.
Qed.

Lemma ravel_unravel (sh : list nat) (k : nat) :
  k < size_of sh -> ravel sh (unravel sh k) = k.
Proof.
  revert k; induction sh as [|d sh IH]; intros k Hk; simpl in *; [lia|].
  assert (Hs : size_of sh <> 0%nat) by (intros E; rewrite E in Hk; lia).
  rewrite IH by (apply Nat.mod_upper_bound, Hs).
  pose proof (Nat.div_mod_eq k (size_of sh)). lia.
Qed.

Lemma in_bounds_length (ix sh : list nat) :
  in_bounds ix sh -> length ix = length sh.
Proof.
  revert sh; induction ix as [|i ix IH]; intros [|d sh]; simpl; try tauto.
  intros [_ Hix]. f_equal. apply IH, Hix.
Qed.

Lemma shape_tabulate {A : Type} (sh : list nat) (f : list nat -> A) :
  shape (tabulate sh f) = sh.
Proof. reflexivity. Qed.

Lemma wf_tabulate {A : Type} (sh : list nat) (f : list nat -> A) :
  wf (tabulate sh f).
Proof. unfold wf, tabulate; simpl. now rewrite length_map, length_seq. Qed.

Lemma get_tabulate {A : Type} `{Inhabited A} (sh : list nat)
    (f : list nat -> A) (ix : list nat) :
  in_bounds ix sh -> get (tabulate sh f) ix = f ix.
Proof.
  intros Hix. unfold get, tabulate; simpl.
  pose proof (size_of_pos_bounds sh ix Hix) as Hlt.
  rewrite (nth_indep _ inhabitant (f (unravel sh 0)))
    by now rewrite length_map, length_seq.
  rewrite (map_nth (fun k => f (unravel sh k))).
  rewrite seq_nth by exact Hlt. simpl.
  now rewrite unravel_ravel.
Qed.

Lemma tabulate_ext {A : Type} (sh : list nat) (f g : list nat -> A) :
  (forall ix, in_bounds ix sh -> f ix = g ix) -> tabulate sh f = tabulate sh g.
Proof.
  intros E. unfold tabulate. f_equal. apply map_ext_in.
  intros k Hk. apply in_seq in Hk. apply E, unravel_in_bounds. lia.
Qed.


Lemma in_bounds1_inv (ix : list nat) (n : nat) :
  in_bounds ix [n] -> exists i, ix = [i] /\ i < n.
Proof.
  destruct ix as [|i [|? ?]]; simpl; try tauto.
  intros [Hi _]. eauto.
Qed.

Lemma in_bounds2_inv (ix : list nat) (n d : nat) :
  in_bounds ix [n; d] -> exists i j, ix = [i; j] /\ i < n /\ j < d.
Proof.
  destruct ix as [|i [|j [|? ?]]]; simpl; try tauto.
  intros (Hi & Hj & _). eauto.
Qed.

Lemma in_bounds4_inv (ix : list nat) (a b c d : nat) :
  in_bounds ix [a; b; c; d] ->
  exists i j k l, ix = [i; j; k; l] /\ i < a /\ j < b /\ k < c /\ l < d.
Proof.
  destruct ix as [|i [|j [|k [|l [|? ?]]]]]; simpl; try tauto.
  intros (Hi & Hj & Hk & Hl & _). eauto 10.
Qed.

#[global] Arguments get : simpl never.
#[global] Arguments tabulate : simpl never.

(** ** Broadcasting *)

Lemma broadcast_rev_same (l : list nat) : broadcast_rev l l = Some l.
Proof.
  induction l as [|x l IH]; simpl; [reflexivity|].
  now rewrite IH, Nat.eqb_refl.
Qed.

Lemma broadcast_shapes_same (sh : list nat) : broadcast_shapes sh sh = Some sh.
Proof.
  unfold broadcast_shapes. rewrite broadcast_rev_same. simpl.
  now rewrite rev_involutive.
Qed.

Lemma broadcast_shapes_nil_r (sh : list nat) : broadcast_shapes sh [] = Some sh.
Proof.
  unfold broadcast_shapes. simpl.
  replace (broadcast_rev (rev sh) []) with (Some (rev sh))
    by (destruct (rev sh); reflexivity).
  simpl. now rewrite rev_involutive.
Qed.

Lemma broadcast_shapes_nil_l (sh : list nat) : broadcast_shapes [] sh = Some sh.
Proof.
  unfold broadcast_shapes. simpl. now rewrite rev_involutive.
Qed.

Lemma broadcast_shapes_row (n d : nat) :
  broadcast_shapes [n; d] [d] = Some [n; d].
Proof. unfold broadcast_shapes. simpl. now rewrite Nat.eqb_refl. Qed.

Lemma broadcast_shapes_row_l (n d : nat) :
  broadcast_shapes [d] [n; d] = Some [n; d].
Proof. unfold broadcast_shapes. simpl. now rewrite Nat.eqb_refl. Qed.

Lemma broadcast_index_same (sh ix : list nat) :
  in_bounds ix sh -> broadcast_index sh ix = ix.
Proof.
  intros Hix. unfold broadcast_index.
  rewrite (in_bounds_length _ _ Hix), Nat.sub_diag.
  change (skipn 0 ix) with ix.
  revert sh Hix. induction ix as [|i ix IH]; intros [|d sh]; simpl; try tauto.
  intros [Hi Hix]. rewrite (IH _ Hix).
  destruct (Nat.eqb_spec d 1) as [->|_]; [f_equal; lia | reflexivity].
Qed.

Lemma broadcast_index_row (n d i j : nat) :
  j < d -> broadcast_index [d] [i; j] = [j].
Proof.
  intros Hj. unfold broadcast_index. simpl.
  destruct (Nat.eqb_spec d 1) as [->|_]; [f_equal; lia | reflexivity].
Qed.

Section Binop.
Context {A B C : Type} `{Inhabited A} `{Inhabited B} (op : A -> B -> C).

Lemma np_binop_same (a : ndarray A) (b : ndarray B) :
  shape b = shape a ->
  np_binop op a b
  = Ok (tabulate (shape a) (fun ix => op (get a ix) (get b ix))).
Proof.
  intros E. unfold np_binop. rewrite E, broadcast_shapes_same.
  f_equal. apply tabulate_ext. intros ix Hix.
  now rewrite broadcast_index_same.
Qed.

Lemma np_binop_scalar_r (a : ndarray A) (b : ndarray B) :
  shape b = [] ->
  np_binop op a b
  = Ok (tabulate (shape a) (fun ix => op (get a ix) (get b []))).
Proof.
  intros E. unfold np_binop. rewrite E, broadcast_shapes_nil_r.
  f_equal. apply tabulate_ext. intros ix Hix.
  now rewrite (broadcast_index_same (shape a)) by exact Hix.
Qed.

Lemma np_binop_scalar_l (a : ndarray A) (b : ndarray B) :
  shape a = [] ->
  np_binop op a b
  = Ok (tabulate (shape b) (fun ix => op (get a []) (get b ix))).
Proof.
  intros E. unfold np_binop. rewrite E, broadcast_shapes_nil_l.
  f_equal. apply tabulate_ext. intros ix Hix.
  now rewrite (broadcast_index_same (shape b)) by exact Hix.
Qed.

Lemma np_binop_row (a : ndarray A) (b : ndarray B) (n d : nat) :
  shape a = [n; d] -> shape b = [d] ->
  np_binop op a b
  = Ok (tabulate [n; d] (fun ix => op (get a ix) (get b [ix_at ix 1]))).
Proof.
  intros Ea Eb. unfold np_binop. rewrite Ea, Eb, broadcast_shapes_row.
  f_equal. apply tabulate_ext. intros ix Hix.
  rewrite broadcast_index_same by exact Hix.
  apply in_bounds2_inv in Hix as (i & j & -> & Hi & Hj).
  now rewrite (broadcast_index_row n).
Qed.

Lemma np_binop_row_l (a : ndarray A) (b : ndarray B) (n d : nat) :
  shape a = [d] -> shape b = [n; d] ->
  np_binop op a b
  = Ok (tabulate [n; d] (fun ix => op (get a [ix_at ix 1]) (get b ix))).
Proof.
  intros Ea Eb. unfold np_binop. rewrite Ea, Eb, broadcast_shapes_row_l.
  f_equal. apply tabulate_ext. intros ix Hix.
  rewrite (broadcast_index_same [n; d]) by exact Hix.
  apply in_bounds2_inv in Hix as (i & j & -> & Hi & Hj).
  now rewrite (broadcast_index_row n).
Qed.

End Binop.

Lemma np_inplace_same {A B : Type} `{Inhabited A} `{Inhabited B}
    (op : A -> B -> A) (a : ndarray A) (b : ndarray B) :
  shape b = shape a ->
  np_inplace op a b
  = Ok (tabulate (shape a) (fun ix => op (get a ix) (get b ix))).
Proof.
  intros E. unfold np_inplace. rewrite (np_binop_same op a b E). simpl.
  destruct (decide _) as [_|Hne]; [reflexivity | now destruct Hne].
Qed.

Lemma np_inplace_row {A B : Type} `{Inhabited A} `{Inhabited B}
    (op : A -> B -> A) (a : ndarray A) (b : ndarray B) (n d : nat) :
  shape a = [n; d] -> shape b = [d] ->
  np_inplace op a b
  = Ok (tabulate [n; d] (fun ix => op (get a ix) (get b [ix_at ix 1]))).
Proof.
  intros Ea Eb. unfold np_inplace. rewrite (np_binop_row op a b n d Ea Eb).
  simpl. rewrite Ea.
  destruct (decide _) as [_|Hne]; [reflexivity | now destruct Hne].
Qed.

(** ** Stepping through a kernel

    [nd_step] rewrites the next array operation of a kernel into its result
    once the shapes of its operands are known; [nd_norm] reads elements of
    the tables so obtained, also under sums. *)

Lemma get_scalar (r : R) : get (scalar r) [] = r.
Proof. reflexivity. Qed.

Lemma get_np_ones (sh ix : list nat) :
  in_bounds ix sh -> get (np_ones sh) ix = 1%R.
Proof. intros Hix. unfold np_ones. now rewrite get_tabulate. Qed.

Lemma get_np_zeros (sh ix : list nat) :
  in_bounds ix sh -> get (np_zeros sh) ix = 0%R.
Proof. intros Hix. unfold np_zeros. now rewrite get_tabulate. Qed.

Lemma sum_upto_ext (n : nat) (f g : nat -> R) :
  (forall i, i < n -> f i = g i) -> sum_upto n f = sum_upto n g.
Proof.
  induction n as [|n IH]; intros E; simpl; [reflexivity|].
  rewrite IH by (intros i Hi; apply E; lia). now rewrite E by lia.
Qed.

Lemma np_mean0_ok (a : ndarray R) (n : nat) (sh : list nat) :
  shape a = n :: sh ->
  np_mean0 a
  = Ok (tabulate sh (fun ix =>
          (sum_upto n (fun i => get a (i :: ix)) / INR n)%R)).
Proof. intros E. unfold np_mean0. now rewrite E. Qed.

Lemma np_sum0_ok (a : ndarray R) (n : nat) (sh : list nat) :
  shape a = n :: sh ->
  np_sum0 a
  = Ok (tabulate sh (fun ix => sum_upto n (fun i => get a (i :: ix)))).
Proof. intros E. unfold np_sum0. now rewrite E. Qed.

Ltac nd_shape :=
  unfold np_map, np_ones, np_zeros, np_T;
  rewrite ?shape_tabulate; cbn [shape scalar];
  first [eassumption | reflexivity | congruence].

Ltac run := cbn [mbind result_bind bind to_array unpack_cache shape0].

Ltac nd_binop :=
  match goal with
  | |- context [np_binop ?op ?a ?b] =>
      first
        [ rewrite (np_binop_same op a b) by nd_shape
        | erewrite (np_binop_row op a b) by nd_shape
        | erewrite (np_binop_row_l op a b) by nd_shape
        | rewrite (np_binop_scalar_r op a b) by nd_shape
        | rewrite (np_binop_scalar_l op a b) by nd_shape ]
  | |- context [np_inplace ?op ?a ?b] =>
      first
        [ rewrite (np_inplace_same op a b) by nd_shape
        | erewrite (np_inplace_row op a b) by nd_shape ]
  end.

Ltac nd_step :=
  first
    [ nd_binop
    | match goal with
      | |- context [np_mean0 ?a] => erewrite (np_mean0_ok a) by nd_shape
      | |- context [np_sum0 ?a] => erewrite (np_sum0_ok a) by nd_shape
      end ]; run.

Ltac nd_bounds := cbn [in_bounds]; repeat split; first [assumption | lia].

Ltac nd_get :=
  repeat first
    [ rewrite get_tabulate by nd_bounds
    | progress cbn [ix_at nth]
    | rewrite get_scalar ].

Ltac nd_sum :=
  match goal with
  | |- context [sum_upto ?n ?f] =>
      lazymatch f with context [@tabulate] => idtac end;
      let g := fresh "g" in
      evar (g : nat -> R);
      rewrite (sum_upto_ext n f g);
      [ subst g
      | let i := fresh "i" in let Hi := fresh "Hi" in
        intros i Hi; nd_get; subst g; reflexivity ]
  end.

Ltac nd_shapes :=
  unfold np_map, np_ones, np_zeros;
  repeat first
    [ rewrite shape_tabulate
    | match goal with
      | H : shape ?a = _ |- context [shape ?a] => rewrite H
      end ].

Ltac nd_norm := nd_shapes; repeat first [progress nd_get | nd_sum].

Ltac nd_ext :=
  apply tabulate_ext;
  let ix := fresh "ix" in let Hix := fresh "Hix" in
  intros ix Hix;
  first
    [ apply in_bounds2_inv in Hix as (? & ? & -> & ? & ?)
    | apply in_bounds1_inv in Hix as (? & -> & ?) ].

Ltac nd_struct :=
  repeat match goal with
    | |- Ok _ = Ok _ => apply f_equal
    | |- (_, _) = (_, _) => apply f_equal2
    | |- Some _ = Some _ => apply f_equal
    | |- PArr _ = PArr _ => apply f_equal
    | |- insert ?k _ _ = insert ?k _ _ => apply f_equal2
    | |- mk_bn_cache _ _ _ _ _ _ _ _ _ = mk_bn_cache _ _ _ _ _ _ _ _ _ =>
        f_equal
    end;
  try reflexivity.

(* ================================================================= *)
(** ** The array operations on small inputs *)

Example np_transpose_example :
  np_transpose (mk_nd [1; 2; 1; 2] [1; 2; 3; 4]%R) [0; 2; 3; 1]
  = Ok (mk_nd [1; 1; 2; 2] [1; 3; 2; 4]%R).
Proof. reflexivity. Qed.

Example np_repeat_example :
  np_repeat (mk_nd [2] [1; 2]%R) 2 = mk_nd [4] [1; 1; 2; 2]%R.
Proof. reflexivity. Qed.

Example np_pad23_example :
  np_pad23 (mk_nd [1; 1; 1; 1] [5%R]) 1
  = Ok (mk_nd [1; 1; 3; 3] [0; 0; 0; 0; 5; 0; 0; 0; 0]%R).
Proof. reflexivity. Qed.

Example np_slice23_example :
  np_slice23 (mk_nd [1; 1; 2; 3] [1; 2; 3; 4; 5; 6]%R) 0 5 1 3
  = Ok (mk_nd [1; 1; 2; 2] [2; 3; 5; 6]%R).
Proof. reflexivity. Qed.

Example out_size_examples :
  out_size 4 2 = Ok 3%Z /\ out_size 5 2 = Ok 3%Z
  /\ out_size (-3) 2 = Ok 0%Z /\ out_size (-2) 1 = Ok (-1)%Z
  /\ out_size 4 0 = Raise (ZeroDivisionError "division by zero").
Proof. repeat split. Qed.

(** The scenario of the specification: a (2, 3) input and (3, 4) weights
    filled with 0.1 and a zero bias give 0.03 everywhere. *)
Example affine_forward_example :
  exists out cache,
    affine_forward (tenths [2; 3]) (tenths [3; 4]) (np_zeros [4])
    = Ok (out, cache)
    /\ shape out = [2; 4]
    /\ forall i j, i < 2 -> j < 4 -> get out [i; j] = (3 / 100)%R.
Proof.
  unfold affine_forward, np_reshape_rows.
  change (shape (tenths [2; 3])) with [2; 3].
  cbn [shape0 mbind result_bind bind Nat.eqb].
  change (size_of [2; 3] / 2) with 3.
  change (data (tenths [2; 3]))
    with (data (tabulate [2; 3] (fun _ : list nat => (1 / 10)%R))).
  fold (tenths [2; 3]).
  assert (E : mk_nd [2; 3] (data (tenths [2; 3])) = tenths [2; 3])
    by reflexivity.
  rewrite E.
  unfold np_dot. change (shape (tenths [2; 3])) with [2; 3].
  change (shape (tenths [3; 4])) with [3; 4].
  cbn [Nat.eqb mbind result_bind bind].
  unfold np_add. rewrite (np_binop_row Rplus _ _ 2 4) by reflexivity.
  cbn [mbind result_bind bind].
  do 2 eexists. split; [reflexivity|]. split; [reflexivity|].
  intros i j Hi Hj. unfold tenths.
  rewrite !get_tabulate by (cbn [in_bounds]; lia).
  cbn [ix_at nth sum_upto].
  rewrite !get_tabulate by (cbn [in_bounds]; lia).
  rewrite get_np_zeros by (cbn [in_bounds]; lia). lra.
Qed.

(* ================================================================= *)
(** ** Invalid modes *)

Lemma py_eq_str_ne (m s : string) : m <> s -> py_eq_str (PStr m) s = false.
Proof. intros Hne. simpl. now apply bool_decide_eq_false. Qed.

(** Batch normalization reports a mode that is neither ['train'] nor
    ['test'] with a [ValueError] that quotes it. *)
Lemma batchnorm_forward_invalid_mode (x gamma beta : ndarray R)
    (bn_param : gmap string pyval) (m : string) (N D : nat) :
  shape x = [N; D] ->
  bn_param !! "mode" = Some (PStr m) ->
  m <> "train" -> m <> "test" ->
  batchnorm_forward x gamma beta bn_param
  = Raise (ValueError (invalid_mode_message m)).
Proof.
  intros Hx Hm Htrain Htest. unfold batchnorm_forward, dict_item.
  rewrite Hm, Hx. simpl.
  rewrite (bool_decide_eq_false_2 _ Htrain), (bool_decide_eq_false_2 _ Htest).
  reflexivity.
Qed.

(** Dropout has no such branch: with an unknown mode no output is computed
    and the final [out.astype] fails on [None], whatever the mode is. *)
Lemma dropout_forward_invalid_mode (G : generator) (x : ndarray R)
    (dropout_param : gmap string pyval) (g : rng G) (p : pyval) (m : string) :
  dropout_param !! "p" = Some p ->
  dropout_param !! "mode" = Some (PStr m) ->
  is_ok (seed_generator G dropout_param g) ->
  m <> "train" -> m <> "test" ->
  dropout_forward G x dropout_param g
  = Raise (AttributeError none_astype_message).
Proof.
  intros Hp Hm [g0 Hs] Htrain Htest. unfold dropout_forward, dict_item.
  rewrite Hp, Hm, Hs. simpl.
  rewrite (bool_decide_eq_false_2 _ Htrain), (bool_decide_eq_false_2 _ Htest).
  reflexivity.
Qed.

(** The backward pass of dropout returns [None] for such a mode. *)
Lemma dropout_backward_invalid_mode (dout : ndarray R)
    (dropout_param : gmap string pyval) (mask : option (ndarray R))
    (m : string) :
  dropout_param !! "mode" = Some (PStr m) ->
  m <> "train" -> m <> "test" ->
  dropout_backward dout (dropout_param, mask) = Ok None.
Proof.
  intros Hm Htrain Htest. unfold dropout_backward, dict_item.
  rewrite Hm. simpl.
  rewrite (bool_decide_eq_false_2 _ Htrain), (bool_decide_eq_false_2 _ Htest).
  reflexivity.
Qed.

(** C1 (fails on dropout).  Called with the mode ['foo'], the forward pass
    of dropout does not report the mode: it raises the [AttributeError] of
    [None.astype], while batch normalization raises a [ValueError] whose
    message quotes ['foo']. *)
Theorem dropout_forward_mode_foo (G : generator) (g : rng G) :
  dropout_forward G (mk_nd [1] [1%R]) foo_param g
  = Raise (AttributeError "'NoneType' object has no attribute 'astype'")
  /\ batchnorm_forward (mk_nd [1; 1] [1%R]) (mk_nd [1] [1%R])
       (mk_nd [1] [0%R]) foo_param
     = Raise (ValueError (invalid_mode_message "foo")).
Proof.
  split.
  - apply (dropout_forward_invalid_mode G _ _ g (PFloat (1 / 2)) "foo");
      first [reflexivity | discriminate | now exists g].
  - apply (batchnorm_forward_invalid_mode _ _ _ _ "foo" 1 1);
      first [reflexivity | discriminate].
Qed.

(* ================================================================= *)
(** ** Dropout in training mode *)

(** C3.  In training mode the forward pass of dropout returns an array of
    the shape of [x] whose element at [ix] is 0 where the draw is below [p]
    and the element of [x] itself elsewhere: a survivor is not divided by
    [1 - p]. *)
Theorem dropout_forward_train_unscaled (G : generator) (x : ndarray R)
    (dropout_param : gmap string pyval) (g g0 : rng G) (pv : pyval) (p : R) :
  dropout_param !! "p" = Some pv ->
  to_array pv = Ok (scalar p) ->
  dropout_param !! "mode" = Some (PStr "train") ->
  seed_generator G dropout_param g = Ok g0 ->
  let probs := fst (np_random_rand G (shape x) g0) in
  exists out mask,
    dropout_forward G x dropout_param g
    = Ok (out, (dropout_param, Some mask), snd (np_random_rand G (shape x) g0))
    /\ shape out = shape x
    /\ forall ix, in_bounds ix (shape x) ->
         get out ix = (if Rlt_dec (get probs ix) p then 0 else get x ix)%R
         /\ (get out ix = get x ix \/ get out ix = 0%R).
Proof.
  intros Hp Hpv Hmode Hseed probs. subst probs.
  unfold dropout_forward, dict_item. rewrite Hp, Hmode, Hseed. simpl.
  pose proof (rand_shape G (shape x) g0) as Hshape.
  destruct (np_random_rand G (shape x) g0) as [pr g1]. simpl in Hshape |- *.
  rewrite Hpv. simpl.
  rewrite (np_binop_scalar_r Rltb pr (scalar p) eq_refl). simpl.
  unfold np_mask_set. simpl. rewrite Hshape.
  destruct (decide (shape x = shape x)) as [_|Hne]; [|now destruct Hne].
  simpl. unfold np_mul. rewrite np_binop_same by reflexivity. simpl.
  do 2 eexists. split; [reflexivity|]. split; [reflexivity|].
  intros ix Hix.
  rewrite !get_tabulate by (rewrite ?Hshape; exact Hix).
  rewrite get_scalar, get_np_ones by exact Hix.
  unfold Rltb. destruct (Rlt_dec (get pr ix) p).
  - rewrite Rmult_0_r. auto.
  - rewrite Rmult_1_r. auto.
Qed.

Lemma dropout_forward_train_unscaled_witness :
  exists out mask,
    dropout_forward alternating_generator vec34 train_param tt
    = Ok (out, (train_param, Some mask), tt)
    /\ shape out = [2]
    /\ get out [0] = 0%R /\ get out [1] = 4%R.
Proof.
  destruct (dropout_forward_train_unscaled alternating_generator vec34
              train_param tt tt (PFloat (1 / 2)) (1 / 2)
              eq_refl eq_refl eq_refl eq_refl)
    as (out & mask & E & Hsh & Hv).
  exists out, mask. split; [exact E|]. split; [exact Hsh|].
  destruct (Hv [0]) as [E0 _]; [simpl; lia|].
  destruct (Hv [1]) as [E1 _]; [simpl; lia|].
  split.
  - rewrite E0. unfold get. simpl.
    destruct (Rlt_dec 0 (1 / 2)); [reflexivity | lra].
  - rewrite E1. unfold get. simpl.
    destruct (Rlt_dec (3 / 4) (1 / 2)); [lra | reflexivity].
Defined.

(* ================================================================= *)
(** ** Batch normalization: what the forward pass returns *)

Lemma batchnorm_forward_train (x gamma beta : ndarray R)
    (bn_param : gmap string pyval) (N D : nat) (eps mom : R)
    (rm rv : ndarray R) :
  shape x = [N; D] -> shape gamma = [D] -> shape beta = [D] ->
  bn_param !! "mode" = Some (PStr "train") ->
  bn_config bn_param D eps mom rm rv ->
  batchnorm_forward x gamma beta bn_param
  = Ok (tabulate [N; D] (fun ix =>
          (get (c_xn (bn_train_cache x gamma beta eps N D)) ix
           * get gamma [ix_at ix 1] + get beta [ix_at ix 1])%R),
        Some (bn_train_cache x gamma beta eps N D),
        <["running_var" := PArr (tabulate [D] (fun ix =>
            (mom * get rv ix + (1 - mom) * batch_var x N (ix_at ix 0))%R))]>
          (<["running_mean" := PArr (tabulate [D] (fun ix =>
            (mom * get rm ix + (1 - mom) * batch_mean x N (ix_at ix 0))%R))]>
             bn_param)).
Proof.
  intros Hx Hg Hb Hm (He & Hmom & Hrm & Hrv & Hsrm & Hsrv).
  unfold batchnorm_forward, dict_item. rewrite Hm, Hx.
  cbn [mbind result_bind bind unpack2 py_eq_str].
  rewrite bool_decide_eq_true_2 by reflexivity.
  rewrite He, Hmom, Hrm, Hrv.
  unfold np_sub, np_add, np_mul, np_div.
  repeat nd_step.
  rewrite ?Hsrm, ?Hsrv.
  unfold bn_train_cache, batch_var, batch_mean.
  cbn [c_gamma c_beta c_eps c_x c_xn c_smean c_svar c_num c_den].
  nd_struct; nd_ext; nd_norm; reflexivity.
Qed.

Lemma batchnorm_forward_test (x gamma beta : ndarray R)
    (bn_param : gmap string pyval) (N D : nat) (eps mom : R)
    (rm rv : ndarray R) :
  shape x = [N; D] -> shape gamma = [D] -> shape beta = [D] ->
  bn_param !! "mode" = Some (PStr "test") ->
  bn_config bn_param D eps mom rm rv ->
  batchnorm_forward x gamma beta bn_param
  = Ok (tabulate [N; D] (fun ix =>
          ((get x ix - get rm [ix_at ix 1])
           / sqrt (get rv [ix_at ix 1] + eps)
           * get gamma [ix_at ix 1] + get beta [ix_at ix 1])%R),
        None,
        <["running_var" := PArr rv]>
          (<["running_mean" := PArr rm]> bn_param)).
Proof.
  intros Hx Hg Hb Hm (He & Hmom & Hrm & Hrv & Hsrm & Hsrv).
  unfold batchnorm_forward, dict_item. rewrite Hm, Hx.
  cbn [mbind result_bind bind unpack2 py_eq_str].
  rewrite bool_decide_eq_false_2 by discriminate.
  rewrite bool_decide_eq_true_2 by reflexivity.
  rewrite He, Hrm, Hrv.
  unfold np_sub, np_add, np_mul, np_div. run.
  repeat nd_step.
  rewrite ?Hsrm, ?Hsrv.
  nd_struct; nd_ext; nd_norm; reflexivity.
Qed.

(* ================================================================= *)
(** ** Batch normalization: the two backward passes *)

Lemma sum_upto_scal (n : nat) (c : R) (f : nat -> R) :
  sum_upto n (fun i => c * f i)%R = (c * sum_upto n f)%R.
Proof. induction n as [|n IH]; simpl; [ring | rewrite IH; ring]. Qed.

Lemma sum_upto_minus_const (n : nat) (c : R) (f : nat -> R) :
  sum_upto n (fun i => f i - c)%R = (sum_upto n f - INR n * c)%R.
Proof.
  induction n as [|n IH]; [simpl; ring|].
  rewrite S_INR. simpl. rewrite IH. ring.
Qed.

(** The centred column sums to zero. *)
Lemma sum_centered (x : ndarray R) (N j : nat) :
  0 < N ->
  sum_upto N (fun i => get x [i; j] - batch_mean x N j)%R = 0%R.
Proof.
  intros HN. rewrite sum_upto_minus_const. unfold batch_mean.
  assert (INR N <> 0%R) by (apply not_0_INR; lia).
  field. assumption.
Qed.

(** On the cache of a training call whose denominators are positive, the
    graph-reversal pass and the simplified pass return the same triple. *)
Lemma batchnorm_backward_agree (x gamma beta dout : ndarray R) (eps : R)
    (N D : nat) :
  shape x = [N; D] -> shape gamma = [D] -> shape dout = [N; D] ->
  0 < N ->
  (forall j, j < D -> (0 < batch_var x N j + eps)%R) ->
  exists dx dgamma dbeta,
    batchnorm_backward dout (Some (bn_train_cache x gamma beta eps N D))
    = Ok (dx, dgamma, dbeta)
    /\ batchnorm_backward_alt dout (Some (bn_train_cache x gamma beta eps N D))
       = Ok (dx, dgamma, dbeta)
    /\ shape dx = [N; D] /\ shape dgamma = [D] /\ shape dbeta = [D].
Proof.
  intros Hx Hg Hd HN Hpos.
  unfold batchnorm_backward, batchnorm_backward_alt, bn_train_cache.
  cbn [mbind result_bind bind unpack_cache
       c_gamma c_beta c_eps c_x c_xn c_smean c_svar c_num c_den].
  rewrite Hx.
  unfold np_sub, np_add, np_mul, np_div. run.
  repeat nd_step.
  do 3 eexists. split; [reflexivity|]. split; [|repeat split; nd_shape].
  nd_struct. nd_ext. nd_norm.
  match goal with Hi : ?i < N, Hj : ?j < D |- _ => rename i into i0, j into j0 end.
  rewrite sum_centered by exact HN.
  rewrite (sum_upto_ext N
             (fun i => get dout [i; j0] * get gamma [j0]
                       * (get x [i; j0] - batch_mean x N j0))%R
             (fun i => get gamma [j0]
                       * (get dout [i; j0]
                          * (get x [i; j0] - batch_mean x N j0)))%R)
    by (intros; ring).
  rewrite (sum_upto_ext N
             (fun i => get dout [i; j0] * get gamma [j0]
                       * (1 / sqrt (batch_var x N j0 + eps)))%R
             (fun i => get gamma [j0] * (1 / sqrt (batch_var x N j0 + eps))
                       * get dout [i; j0])%R)
    by (intros; ring).
  rewrite !sum_upto_scal.
  specialize (Hpos j0 ltac:(assumption)).
  assert (Hsq : (sqrt (batch_var x N j0 + eps) * sqrt (batch_var x N j0 + eps)
                 = batch_var x N j0 + eps)%R) by (apply sqrt_sqrt; lra).
  assert (Hd0 : (0 < sqrt (batch_var x N j0 + eps))%R)
    by (apply sqrt_lt_R0; lra).
  assert (HN0 : INR N <> 0%R) by (apply not_0_INR; lia).
  set (d := sqrt (batch_var x N j0 + eps)) in *.
  rewrite <- Hsq. unfold Rsqr.
  field. split; [exact HN0 | lra].
Qed.

Lemma sum_upto_nonneg (n : nat) (f : nat -> R) :
  (forall i, i < n -> (0 <= f i)%R) -> (0 <= sum_upto n f)%R.
Proof.
  induction n as [|n IH]; intros Hf; simpl; [lra|].
  pose proof (IH (fun i Hi => Hf i (Nat.lt_lt_succ_r _ _ Hi))).
  pose proof (Hf n (Nat.lt_succ_diag_r n)). lra.
Qed.

(** The batch variance is not negative, so a positive [eps] keeps every
    denominator positive. *)
Lemma batch_var_nonneg (x : ndarray R) (N j : nat) :
  0 < N -> (0 <= batch_var x N j)%R.
Proof.
  intros HN. unfold batch_var.
  apply Rmult_le_pos.
  - apply sum_upto_nonneg. intros i _. apply Rle_0_sqr.
  - left. apply Rinv_0_lt_compat, lt_0_INR. exact HN.
Qed.

Lemma batchnorm_backward_agree_eps (x gamma beta dout : ndarray R) (eps : R)
    (N D : nat) :
  shape x = [N; D] -> shape gamma = [D] -> shape dout = [N; D] ->
  0 < N -> (0 < eps)%R ->
  exists dx dgamma dbeta,
    batchnorm_backward dout (Some (bn_train_cache x gamma beta eps N D))
    = Ok (dx, dgamma, dbeta)
    /\ batchnorm_backward_alt dout (Some (bn_train_cache x gamma beta eps N D))
       = Ok (dx, dgamma, dbeta).
Proof.
  intros Hx Hg Hd HN He.
  destruct (batchnorm_backward_agree x gamma beta dout eps N D)
    as (dx & dgamma & dbeta & H1 & H2 & _); try assumption.
  - intros j _. pose proof (batch_var_nonneg x N j HN). lra.
  - eauto.
Qed.

(** The gradients of [batchnorm_backward_alt] in closed form. *)
Lemma batchnorm_backward_alt_values (x gamma beta dout : ndarray R) (eps : R)
    (N D : nat) :
  shape x = [N; D] -> shape gamma = [D] -> shape dout = [N; D] ->
  batchnorm_backward_alt dout (Some (bn_train_cache x gamma beta eps N D))
  = Ok (tabulate [N; D] (fun ix =>
          ((INR N * get dout ix
            - sum_upto N (fun k => get dout [k; ix_at ix 1])
            - (get x ix - batch_mean x N (ix_at ix 1))
              * sum_upto N (fun k =>
                  get dout [k; ix_at ix 1]
                  * (get x [k; ix_at ix 1] - batch_mean x N (ix_at ix 1)))
              / (batch_var x N (ix_at ix 1) + eps))
           * (get gamma [ix_at ix 1] / INR N
              / sqrt (batch_var x N (ix_at ix 1) + eps)))%R),
        tabulate [D] (fun ix =>
          sum_upto N (fun k =>
            (get dout [k; ix_at ix 0]
             * ((get x [k; ix_at ix 0] - batch_mean x N (ix_at ix 0))
                / sqrt (batch_var x N (ix_at ix 0) + eps)))%R)),
        tabulate [D] (fun ix => sum_upto N (fun k => get dout [k; ix_at ix 0]))).
Proof.
  intros Hx Hg Hd.
  unfold batchnorm_backward_alt, bn_train_cache.
  cbn [mbind result_bind bind unpack_cache
       c_gamma c_beta c_eps c_x c_xn c_smean c_svar c_num c_den].
  rewrite Hx.
  unfold np_sub, np_add, np_mul, np_div. run.
  repeat nd_step.
  nd_struct; nd_ext; nd_norm; reflexivity.
Qed.

(** C2.  On the cache that a training-mode forward call produces (batch of
    at least one row, [var + eps] positive in every column) and an upstream
    gradient of the shape of the input, [batchnorm_backward] and
    [batchnorm_backward_alt] both return, and return the same gradients
    with respect to the input, gamma and beta. *)
Theorem batchnorm_backward_variants_agree (x gamma beta dout : ndarray R)
    (bn_param : gmap string pyval) (N D : nat) (eps mom : R)
    (rm rv : ndarray R) :
  shape x = [N; D] -> shape gamma = [D] -> shape beta = [D] ->
  shape dout = [N; D] ->
  0 < N ->
  bn_param !! "mode" = Some (PStr "train") ->
  bn_config bn_param D eps mom rm rv ->
  (forall j, j < D -> (0 < batch_var x N j + eps)%R) ->
  exists out cache bn_param',
    batchnorm_forward x gamma beta bn_param = Ok (out, cache, bn_param')
    /\ exists dx dgamma dbeta,
         batchnorm_backward dout cache = Ok (dx, dgamma, dbeta)
         /\ batchnorm_backward_alt dout cache = Ok (dx, dgamma, dbeta).
Proof.
  intros Hx Hg Hb Hd HN Hm Hcfg Hpos.
  rewrite (batchnorm_forward_train x gamma beta bn_param N D eps mom rm rv)
    by assumption.
  do 3 eexists. split; [reflexivity|].
  destruct (batchnorm_backward_agree x gamma beta dout eps N D)
    as (dx & dgamma & dbeta & H1 & H2 & _); try assumption.
  exists dx, dgamma, dbeta. split; assumption.
Qed.

Lemma batchnorm_backward_variants_agree_witness :
  exists out cache bn_param',
    batchnorm_forward col13 vec1 vec0 bn_train_param
    = Ok (out, cache, bn_param')
    /\ exists dx dgamma dbeta,
         batchnorm_backward col10 cache = Ok (dx, dgamma, dbeta)
         /\ batchnorm_backward_alt col10 cache = Ok (dx, dgamma, dbeta)
         /\ get dx [0; 0] <> 0%R /\ get dbeta [0] = 1%R.
Proof.
  destruct (batchnorm_backward_variants_agree col13 vec1 vec0 col10
              bn_train_param 2 1 (1 / 100000) (9 / 10)
              (np_zeros [1]) (np_zeros [1]))
    as (out & cache & bn' & E & dx & dgamma & dbeta & E1 & E2);
    try reflexivity.
  - lia.
  - repeat split.
  - intros j Hj. assert (j = 0) as -> by lia.
    unfold batch_var, batch_mean, get, Rsqr. simpl. lra.
  - exists out, cache, bn'. split; [exact E|].
    exists dx, dgamma, dbeta. split; [exact E1|]. split; [exact E2|].
    rewrite (batchnorm_forward_train col13 vec1 vec0 bn_train_param 2 1
               (1 / 100000) (9 / 10) (np_zeros [1]) (np_zeros [1]))
      in E by (try reflexivity; repeat split).
    injection E as _ <- _.
    rewrite (batchnorm_backward_alt_values col13 vec1 vec0 col10
               (1 / 100000) 2 1) in E2 by reflexivity.
    injection E2 as <- _ <-.
    assert (Hv : batch_var col13 2 0 = 1%R)
      by (unfold batch_var, batch_mean, get, Rsqr; simpl; lra).
    assert (Hs : (0 < sqrt (1 + 1 / 100000))%R)
      by (apply sqrt_lt_R0; lra).
    split.
    + rewrite get_tabulate by (simpl; lia). cbn [ix_at nth].
      rewrite Hv. unfold batch_mean, get. simpl.
      intros H0. apply Rmult_integral in H0 as [H0 | H0].
      * lra.
      * apply Rmult_integral in H0 as [H0 | H0]; [lra|].
        pose proof (Rinv_0_lt_compat _ Hs). lra.
    + rewrite get_tabulate by (simpl; lia). unfold get. simpl. lra.
Defined.

(* ================================================================= *)
(** ** Batch normalization in test mode: the configuration *)

(** C9.  A test-mode call on an (N, D) input returns, and the configuration
    it leaves holds both running statistics; a key that was absent is set
    to the zero array of shape (D,), so the configuration has changed. *)
Theorem batchnorm_forward_test_assigns_running (x gamma beta : ndarray R)
    (bn_param : gmap string pyval) (N D : nat) (eps mom : R)
    (rm rv : ndarray R) :
  shape x = [N; D] -> shape gamma = [D] -> shape beta = [D] ->
  bn_param !! "mode" = Some (PStr "test") ->
  bn_config bn_param D eps mom rm rv ->
  exists out bn_param',
    batchnorm_forward x gamma beta bn_param = Ok (out, None, bn_param')
    /\ is_Some (bn_param' !! "running_mean")
    /\ is_Some (bn_param' !! "running_var")
    /\ (bn_param !! "running_mean" = None ->
        bn_param' !! "running_mean" = Some (PArr (np_zeros [D]))
        /\ bn_param' <> bn_param)
    /\ (bn_param !! "running_var" = None ->
        bn_param' !! "running_var" = Some (PArr (np_zeros [D]))
        /\ bn_param' <> bn_param).
Proof.
  intros Hx Hg Hb Hm Hcfg.
  rewrite (batchnorm_forward_test x gamma beta bn_param N D eps mom rm rv)
    by assumption.
  destruct Hcfg as (_ & _ & Hrm & Hrv & _ & _).
  do 2 eexists. split; [reflexivity|].
  assert (Hm' : (<["running_var" := PArr rv]>
                   (<["running_mean" := PArr rm]> bn_param))
                !! "running_mean" = Some (PArr rm))
    by (rewrite lookup_insert_ne by discriminate; apply lookup_insert_eq).
  assert (Hv' : (<["running_var" := PArr rv]>
                   (<["running_mean" := PArr rm]> bn_param))
                !! "running_var" = Some (PArr rv))
    by apply lookup_insert_eq.
  rewrite Hm', Hv'. repeat split; eauto.
  - rewrite H in Hrm. simpl in Hrm. congruence.
  - intros E. rewrite E in Hm'. congruence.
  - rewrite H in Hrv. simpl in Hrv. congruence.
  - intros E. rewrite E in Hv'. congruence.
Qed.

Lemma batchnorm_forward_test_assigns_running_witness :
  exists out bn_param',
    batchnorm_forward mat1 vec1 vec0 bn_test_param = Ok (out, None, bn_param')
    /\ is_Some (bn_param' !! "running_mean")
    /\ is_Some (bn_param' !! "running_var")
    /\ (bn_test_param !! "running_mean" = None ->
        bn_param' !! "running_mean" = Some (PArr (np_zeros [1]))
        /\ bn_param' <> bn_test_param)
    /\ (bn_test_param !! "running_var" = None ->
        bn_param' !! "running_var" = Some (PArr (np_zeros [1]))
        /\ bn_param' <> bn_test_param).
Proof.
  apply (batchnorm_forward_test_assigns_running mat1 vec1 vec0 bn_test_param
           1 1 (1 / 100000) (9 / 10) (np_zeros [1]) (np_zeros [1]));
    try reflexivity.
  repeat split.
Defined.

(** C6 (fails when a key is absent).  Called in test mode with the
    configuration [{'mode': 'test'}], the forward pass leaves a
    configuration that holds a running mean, which the configuration
    before the call did not. *)
Lemma batchnorm_forward_test_updates_state :
  exists out cache bn_param',
    batchnorm_forward mat1 vec1 vec0 bn_test_param
    = Ok (out, cache, bn_param')
    /\ bn_test_param !! "running_mean" = None
    /\ bn_param' !! "running_mean" = Some (PArr (np_zeros [1]))
    /\ bn_param' <> bn_test_param.
Proof.
  rewrite (batchnorm_forward_test mat1 vec1 vec0 bn_test_param
             1 1 (1 / 100000) (9 / 10) (np_zeros [1]) (np_zeros [1]));
    try reflexivity; [|repeat split].
  do 3 eexists. split; [reflexivity|].
  split; [reflexivity|]. split; [reflexivity|].
  intros E. apply (f_equal (fun m => m !! "running_mean")) in E.
  discriminate E.
Qed.

(** C6, amended.  A test-mode call never changes a key other than the two
    running statistics, leaves each running statistic at the value the call
    read (the stored one, or zeros for an absent key), and leaves the whole
    configuration as it was when both statistics were stored.  The backward
    passes receive the upstream gradient and the cache only: the
    configuration is not among their arguments, and no field of [bn_cache]
    refers to it. *)
Theorem batchnorm_forward_test_frame (x gamma beta : ndarray R)
    (bn_param : gmap string pyval) (N D : nat) (eps mom : R)
    (rm rv : ndarray R) :
  shape x = [N; D] -> shape gamma = [D] -> shape beta = [D] ->
  bn_param !! "mode" = Some (PStr "test") ->
  bn_config bn_param D eps mom rm rv ->
  exists out bn_param',
    batchnorm_forward x gamma beta bn_param = Ok (out, None, bn_param')
    /\ (is_Some (bn_param !! "running_mean") ->
        is_Some (bn_param !! "running_var") ->
        bn_param' = bn_param)
    /\ (forall k, k <> "running_mean" -> k <> "running_var" ->
        bn_param' !! k = bn_param !! k)
    /\ default (PArr (np_zeros [D])) (bn_param' !! "running_mean")
       = default (PArr (np_zeros [D])) (bn_param !! "running_mean")
    /\ default (PArr (np_zeros [D])) (bn_param' !! "running_var")
       = default (PArr (np_zeros [D])) (bn_param !! "running_var").
Proof.
  intros Hx Hg Hb Hm Hcfg.
  rewrite (batchnorm_forward_test x gamma beta bn_param N D eps mom rm rv)
    by assumption.
  destruct Hcfg as (_ & _ & Hrm & Hrv & _ & _).
  do 2 eexists. split; [reflexivity|]. repeat split.
  - intros [vm Em] [vv Ev]. rewrite Em in Hrm. rewrite Ev in Hrv.
    simpl in Hrm, Hrv. subst vm vv.
    rewrite (insert_id bn_param "running_mean" (PArr rm)) by exact Em.
    now apply insert_id.
  - intros k Hk1 Hk2.
    rewrite lookup_insert_ne by congruence.
    now rewrite lookup_insert_ne by congruence.
  - rewrite lookup_insert_ne by discriminate.
    rewrite lookup_insert_eq. now rewrite Hrm.
  - rewrite lookup_insert_eq. now rewrite Hrv.
Qed.

Lemma batchnorm_forward_test_frame_witness :
  exists out bn_param',
    batchnorm_forward mat1 vec1 vec0 bn_test_full = Ok (out, None, bn_param')
    /\ (is_Some (bn_test_full !! "running_mean") ->
        is_Some (bn_test_full !! "running_var") ->
        bn_param' = bn_test_full)
    /\ (forall k, k <> "running_mean" -> k <> "running_var" ->
        bn_param' !! k = bn_test_full !! k)
    /\ default (PArr (np_zeros [1])) (bn_param' !! "running_mean")
       = default (PArr (np_zeros [1])) (bn_test_full !! "running_mean")
    /\ default (PArr (np_zeros [1])) (bn_param' !! "running_var")
       = default (PArr (np_zeros [1])) (bn_test_full !! "running_var").
Proof.
  apply (batchnorm_forward_test_frame mat1 vec1 vec0 bn_test_full
           1 1 (1 / 100000) (9 / 10) vec0 vec1);
    try reflexivity.
  repeat split.
Defined.

(* ================================================================= *)
(** ** Convolution: the defaults of the configuration *)

Lemma output_bind_ext {X A B : Type} (m : result X)
    (k1 k2 : X -> result (A * B)) :
  (forall a, output (k1 a) = output (k2 a)) ->
  output (m ≫= k1) = output (m ≫= k2).
Proof. intros E. destruct m as [a|e]; [apply E | reflexivity]. Qed.

Lemma conv_forward_param_ext (x w b : ndarray R)
    (cp1 cp2 : gmap string nat) :
  cp1 !! "stride" = None \/ cp1 !! "stride" = Some 1 ->
  cp2 !! "stride" = None \/ cp2 !! "stride" = Some 1 ->
  default 0 (cp1 !! "pad") = default 0 (cp2 !! "pad") ->
  output (conv_forward_naive x w b cp1) = output (conv_forward_naive x w b cp2).
Proof.
  intros H1 H2 Hp. unfold conv_forward_naive.
  assert (E1 : default 1 (cp1 !! "stride") = 1)
    by (destruct H1 as [-> | ->]; reflexivity).
  assert (E2 : default 1 (cp2 !! "stride") = 1)
    by (destruct H2 as [-> | ->]; reflexivity).
  rewrite E1, E2, Hp.
  repeat (apply output_bind_ext; intros; repeat case_match; subst).
  reflexivity.
Qed.

Lemma conv_backward_param_ext (dout x w b : ndarray R)
    (cp1 cp2 : gmap string nat) :
  default 1 (cp1 !! "stride") = default 1 (cp2 !! "stride") ->
  default 0 (cp1 !! "pad") = default 0 (cp2 !! "pad") ->
  conv_backward_naive dout (x, w, b, cp1)
  = conv_backward_naive dout (x, w, b, cp2).
Proof.
  intros Hs Hp. unfold conv_backward_naive. now rewrite Hs, Hp.
Qed.

(** C10.  A configuration without ['stride'] behaves as the same
    configuration with [stride = 1], and one without ['pad'] as the same
    configuration with [pad = 0]: the forward passes return the same output
    (or raise the same exception), and so do the backward passes on the
    caches that hold the two configurations. *)
Theorem conv_param_defaults (x w b dout : ndarray R)
    (conv_param : gmap string nat) :
  (conv_param !! "stride" = None ->
   output (conv_forward_naive x w b conv_param)
   = output (conv_forward_naive x w b (<["stride" := 1]> conv_param))
   /\ conv_backward_naive dout (x, w, b, conv_param)
      = conv_backward_naive dout (x, w, b, <["stride" := 1]> conv_param))
  /\ (conv_param !! "pad" = None ->
      output (conv_forward_naive x w b conv_param)
      = output (conv_forward_naive x w b (<["pad" := 0]> conv_param))
      /\ conv_backward_naive dout (x, w, b, conv_param)
         = conv_backward_naive dout (x, w, b, <["pad" := 0]> conv_param)).
Proof.
  split; intros Hnone.
  - split.
    + apply conv_forward_param_ext.
      * now left.
      * right. apply lookup_insert_eq.
      * now rewrite lookup_insert_ne by discriminate.
    + apply conv_backward_param_ext.
      * now rewrite Hnone, lookup_insert_eq.
      * now rewrite lookup_insert_ne by discriminate.
  - assert (Hs : (<["pad" := 0]> conv_param) !! "stride"
                 = conv_param !! "stride")
      by (now rewrite lookup_insert_ne by discriminate).
    assert (Hp : default 0 (conv_param !! "pad")
                 = default 0 ((<["pad" := 0]> conv_param) !! "pad"))
      by (now rewrite Hnone, lookup_insert_eq).
    split.
    + unfold conv_forward_naive. rewrite Hs, <- Hp.
      repeat (apply output_bind_ext; intros; repeat case_match; subst).
      reflexivity.
    + apply conv_backward_param_ext; [now rewrite Hs | exact Hp].
Qed.

Lemma conv_param_defaults_witness :
  (output (conv_forward_naive img1 img1 vec0 ∅)
   = output (conv_forward_naive img1 img1 vec0 (<["stride" := 1]> ∅))
   /\ conv_backward_naive img1 (img1, img1, vec0, ∅)
      = conv_backward_naive img1 (img1, img1, vec0, <["stride" := 1]> ∅))
  /\ (output (conv_forward_naive img1 img1 vec0 ∅)
      = output (conv_forward_naive img1 img1 vec0 (<["pad" := 0]> ∅))
      /\ conv_backward_naive img1 (img1, img1, vec0, ∅)
         = conv_backward_naive img1 (img1, img1, vec0, <["pad" := 0]> ∅)).
Proof.
  destruct (conv_param_defaults img1 img1 vec0 img1 ∅) as [Hs Hp].
  split; [apply Hs | apply Hp]; reflexivity.
Defined.

(* ================================================================= *)
(** ** Shapes of the batch normalization gradients *)



(* ================================================================= *)
(** ** Spatial batch normalization on (N, C, 1, 1) inputs *)

Lemma np_reshape_ok {A : Type} (a : ndarray A) (sh : list nat) :
  size_of (shape a) = size_of sh -> np_reshape a sh = Ok (mk_nd sh (data a)).
Proof.
  intros E. unfold np_reshape. now rewrite E, Nat.eqb_refl.
Qed.






(* ================================================================= *)
(** ** Convolution: the shape of the output *)

Lemma for_each_invariant {S : Type} (P : S -> Prop) (l : list nat)
    (body : nat -> S -> result S) :
  (forall i s, In i l -> P s -> exists s', body i s = Ok s' /\ P s') ->
  forall s, P s -> exists s', for_each l body s = Ok s' /\ P s'.
Proof.
  induction l as [|i l IH]; intros Hbody s Hs; simpl.
  - eauto.
  - destruct (Hbody i s (or_introl eq_refl) Hs) as (s1 & E1 & H1).
    rewrite E1. simpl. apply IH; [|exact H1].
    intros j s' Hj. apply Hbody. now right.
Qed.

Lemma in_py_range (i : nat) (n : Z) : In i (py_range n) -> i < Z.to_nat n.
Proof. unfold py_range. rewrite in_seq. lia. Qed.

(** A window that the loop visits lies inside the sliced axis. *)
Lemma out_size_window (a : Z) (stride i : nat) :
  stride <> 0 ->
  i < Z.to_nat (Z.quot (a + Z.of_nat stride) (Z.of_nat stride)) ->
  (Z.of_nat (stride * i) <= a)%Z.
Proof.
  intros Hs Hi.
  set (s := Z.of_nat stride) in *.
  assert (Hs0 : (0 < s)%Z) by (unfold s; lia).
  assert (Hq : (0 < Z.quot (a + s) s)%Z) by lia.
  assert (Ha : (0 <= a + s)%Z).
  { destruct (Z_lt_le_dec (a + s) 0) as [Hneg|]; [|assumption].
    pose proof (Z.quot_opp_l (-(a + s)) s ltac:(lia)) as E.
    rewrite Z.opp_involutive in E.
    pose proof (Z.quot_pos (-(a + s)) s ltac:(lia) Hs0). lia. }
  rewrite Z.quot_div_nonneg in Hi, Hq by lia.
  pose proof (Z.mul_div_le (a + s) s Hs0).
  rewrite Nat2Z.inj_mul. fold s. nia.
Qed.

Lemma np_pad23_ok (a : ndarray R) (pad N C H W : nat) :
  shape a = [N; C; H; W] ->
  exists r, np_pad23 a pad = Ok r /\ shape r = [N; C; H + 2 * pad; W + 2 * pad].
Proof. intros E. unfold np_pad23. rewrite E. eauto. Qed.

Lemma np_slice23_ok (a : ndarray R) (h0 h1 w0 w1 N C H W : nat) :
  shape a = [N; C; H; W] ->
  h0 <= h1 -> h1 <= H -> w0 <= w1 -> w1 <= W ->
  np_slice23 a h0 h1 w0 w1
  = Ok (tabulate [N; C; h1 - h0; w1 - w0] (fun ix =>
          get a [ix_at ix 0; ix_at ix 1; h0 + ix_at ix 2; w0 + ix_at ix 3])).
Proof.
  intros E ? ? ? ?. unfold np_slice23. rewrite E.
  cbn [rank4 mbind result_bind bind].
  unfold slice_len, slice_hi, slice_lo.
  rewrite !Nat.min_l by lia. reflexivity.
Qed.

Lemma np_dot_mm (a b : ndarray R) (n k m : nat) :
  shape a = [n; k] -> shape b = [k; m] ->
  exists r, np_dot a b = Ok r /\ shape r = [n; m] /\ wf r.
Proof.
  intros Ea Eb. unfold np_dot. rewrite Ea, Eb, Nat.eqb_refl.
  eexists. split; [reflexivity|]. split; [reflexivity | apply wf_tabulate].
Qed.


Lemma np_set_ij_ok (a r : ndarray R) (i j N C H W : nat) :
  shape a = [N; C; H; W] -> shape r = [N; C] -> i < H -> j < W ->
  np_set_ij a i j r
  = Ok (tabulate [N; C; H; W] (fun ix =>
          if (ix_at ix 2 =? i) && (ix_at ix 3 =? j)
          then get r [ix_at ix 0; ix_at ix 1]
          else get a ix)).
Proof.
  intros Ea Er Hi Hj. unfold np_set_ij. rewrite Ea, Er.
  cbn [rank4 mbind result_bind bind].
  rewrite (proj2 (Nat.ltb_lt i H) Hi), (proj2 (Nat.ltb_lt j W) Hj).
  cbn [andb]. rewrite broadcast_shapes_same.
  destruct (decide _) as [_|Hne]; [|now destruct Hne].
  f_equal. apply tabulate_ext. intros ix Hix.
  apply in_bounds4_inv in Hix as (n & c & h & w & -> & ? & ? & ? & ?).
  cbn [ix_at nth]. destruct ((h =? i) && (w =? j)); [|reflexivity].
  rewrite broadcast_index_same by (cbn [in_bounds]; lia). reflexivity.
Qed.

Lemma np_get_ij_ok (a : ndarray R) (i j N C H W : nat) :
  shape a = [N; C; H; W] -> i < H -> j < W ->
  np_get_ij a i j
  = Ok (tabulate [N; C] (fun ix => get a [ix_at ix 0; ix_at ix 1; i; j])).
Proof.
  intros Ea Hi Hj. unfold np_get_ij. rewrite Ea.
  cbn [rank4 mbind result_bind bind].
  now rewrite (proj2 (Nat.ltb_lt i H) Hi), (proj2 (Nat.ltb_lt j W) Hj).
Qed.

Lemma shape_np_T {A : Type} `{Inhabited A} (a : ndarray A) :
  shape (np_T a) = rev (shape a).
Proof. reflexivity. Qed.

(** The forward pass returns whenever the stride is not 0 and the two
    output sizes are not negative; the sizes are the truncated quotients. *)
Lemma conv_forward_shape (x w b : ndarray R) (conv_param : gmap string nat)
    (N C H W F HH WW : nat) :
  shape x = [N; C; H; W] -> shape w = [F; C; HH; WW] -> shape b = [F] ->
  let stride := default 1 (conv_param !! "stride") in
  let pad := default 0 (conv_param !! "pad") in
  let H1 := Z.quot (Z.of_nat H + 2 * Z.of_nat pad - Z.of_nat HH
                    + Z.of_nat stride) (Z.of_nat stride) in
  let W1 := Z.quot (Z.of_nat W + 2 * Z.of_nat pad - Z.of_nat WW
                    + Z.of_nat stride) (Z.of_nat stride) in
  stride <> 0 -> (0 <= H1)%Z -> (0 <= W1)%Z ->
  exists out,
    conv_forward_naive x w b conv_param = Ok (out, (x, w, b, conv_param))
    /\ shape out = [N; F; Z.to_nat H1; Z.to_nat W1] /\ wf out.
Proof.
  intros Hx Hw Hb stride pad H1 W1 Hs HH1 HW1.
  unfold conv_forward_naive. rewrite Hx, Hw.
  cbn [unpack4 mbind result_bind bind].
  fold stride pad.
  destruct (np_pad23_ok x pad N C H W Hx) as (xp & -> & Hxp).
  cbn [mbind result_bind bind].
  unfold out_size. rewrite (proj2 (Nat.eqb_neq stride 0) Hs).
  cbn [mbind result_bind bind]. fold H1 W1.
  unfold np_zeros_int. cbn [forallb].
  rewrite !(proj2 (Z.leb_le 0 _)) by lia. cbn [andb map].
  cbn [mbind result_bind bind]. rewrite !Nat2Z.id.
  rewrite np_reshape_ok by (rewrite Hw; simpl; ring).
  cbn [mbind result_bind bind].
  set (wr := np_T _).
  assert (Hwr : shape wr = [C * HH * WW; F]) by reflexivity.
  set (P := fun out : ndarray R =>
              shape out = [N; F; Z.to_nat H1; Z.to_nat W1] /\ wf out).
  match goal with
  | |- context [for_each ?l ?body ?s] =>
      assert (Hloop : exists out, for_each l body s = Ok out /\ P out);
      [ apply for_each_invariant | destruct Hloop as (out & -> & Hout) ]
  end.
  - intros i out Hi Hout.
    apply for_each_invariant; [|exact Hout].
    intros j out' Hj [Hsh _].
    apply in_py_range in Hi, Hj.
    pose proof (out_size_window _ stride i Hs Hi).
    pose proof (out_size_window _ stride j Hs Hj).
    rewrite (np_slice23_ok xp _ _ _ _ N C (H + 2 * pad) (W + 2 * pad))
      by (first [exact Hxp | lia]).
    cbn [mbind result_bind bind].
    rewrite np_reshape_ok by (rewrite shape_tabulate; simpl;
      replace (stride * i + HH - stride * i) with HH by lia;
      replace (stride * j + WW - stride * j) with WW by lia; ring).
    cbn [mbind result_bind bind].
    match goal with
    | |- context [np_dot ?a wr] =>
        destruct (np_dot_mm a wr N (C * HH * WW) F)
          as (y & -> & Hy & _); [reflexivity | exact Hwr |]
    end.
    cbn [mbind result_bind bind].
    unfold np_add. rewrite (np_binop_row Rplus y b N F Hy Hb).
    cbn [mbind result_bind bind].
    rewrite (np_set_ij_ok out' _ i j N F _ _ Hsh) by (first [reflexivity | lia]).
    eexists. split; [reflexivity|]. split; [reflexivity | apply wf_tabulate].
  - split; [reflexivity | apply wf_tabulate].
  - cbn [mbind result_bind bind]. exists out. destruct Hout. auto.
Qed.

Lemma out_size_exact (a s : Z) :
  (0 < s)%Z -> (s | a)%Z -> Z.quot (a + s) s = (1 + a / s)%Z.
Proof.
  intros Hs [k ->].
  replace (k * s + s)%Z with ((k + 1) * s)%Z by ring.
  rewrite Z.quot_mul, Z.div_mul by lia. ring.
Qed.

(** C5 (fails when the filter exceeds the padded input by the stride or
    more).  For a 1 x 1 input, a 3 x 3 filter, stride 1 and no padding the
    stride divides [H + 2p - HH = -2], the size given by the formula is -1,
    and the forward pass raises the [ValueError] of [np.zeros]. *)
Lemma conv_forward_negative_size :
  (1 | 1 + 2 * 0 - 3)%Z
  /\ (1 + (1 + 2 * 0 - 3) / 1 = -1)%Z
  /\ conv_forward_naive img1 filter3 vec0 ∅
     = Raise (ValueError "negative dimensions are not allowed").
Proof.
  split; [exists (-2)%Z; reflexivity|]. split; reflexivity.
Qed.

(** C5, amended.  For an input (N, C, H, W), filters (F, C, HH, WW), a bias
    (F,), a stride [s >= 1] that divides [H + 2p - HH] and [W + 2p - WW],
    and sizes [1 + (H + 2p - HH) / s] and [1 + (W + 2p - WW) / s] that are
    not negative, the forward pass returns an output of exactly the shape
    (N, F, 1 + (H + 2p - HH) / s, 1 + (W + 2p - WW) / s). *)
Theorem conv_forward_output_shape (x w b : ndarray R)
    (conv_param : gmap string nat) (N C H W F HH WW : nat) :
  shape x = [N; C; H; W] -> shape w = [F; C; HH; WW] -> shape b = [F] ->
  let s := Z.of_nat (default 1 (conv_param !! "stride")) in
  let p := Z.of_nat (default 0 (conv_param !! "pad")) in
  let a := (Z.of_nat H + 2 * p - Z.of_nat HH)%Z in
  let c := (Z.of_nat W + 2 * p - Z.of_nat WW)%Z in
  (0 < s)%Z -> (s | a)%Z -> (s | c)%Z ->
  (0 <= 1 + a / s)%Z -> (0 <= 1 + c / s)%Z ->
  exists out cache,
    conv_forward_naive x w b conv_param = Ok (out, cache)
    /\ map Z.of_nat (shape out)
       = [Z.of_nat N; Z.of_nat F; (1 + a / s)%Z; (1 + c / s)%Z].
Proof.
  intros Hx Hw Hb s p a c Hs Ha Hc HH1 HW1.
  destruct (conv_forward_shape x w b conv_param N C H W F HH WW Hx Hw Hb)
    as (out & E & Hsh & _).
  - fold s in Hs. lia.
  - fold s p a. rewrite out_size_exact by assumption. exact HH1.
  - fold s p c. rewrite out_size_exact by assumption. exact HW1.
  - exists out, (x, w, b, conv_param). split; [exact E|].
    rewrite Hsh. fold s p a c.
    rewrite !out_size_exact by assumption.
    cbn [map]. now rewrite !Z2Nat.id by assumption.
Qed.

Lemma conv_forward_output_shape_witness :
  exists out cache,
    conv_forward_naive img1 img1 vec0 ∅ = Ok (out, cache)
    /\ map Z.of_nat (shape out)
       = [1; 1; 1 + (1 + 2 * 0 - 1) / 1; 1 + (1 + 2 * 0 - 1) / 1]%Z.
Proof.
  refine (conv_forward_output_shape img1 img1 vec0 ∅ 1 1 1 1 1 1 1
            eq_refl eq_refl eq_refl _ _ _ _ _).
  - reflexivity.
  - exists 0%Z. reflexivity.
  - exists 0%Z. reflexivity.
  - discriminate.
  - discriminate.
Defined.

(* ================================================================= *)
(** ** Convolution: the shapes of the gradients *)

Lemma np_slice23_iadd_ok (a b : ndarray R) (h0 h1 w0 w1 N C H W : nat) :
  shape a = [N; C; H; W] ->
  h0 <= h1 -> h1 <= H -> w0 <= w1 -> w1 <= W ->
  shape b = [N; C; h1 - h0; w1 - w0] ->
  np_slice23_iadd a h0 h1 w0 w1 b
  = Ok (tabulate [N; C; H; W] (fun ix =>
          if (h0 <=? ix_at ix 2) && (ix_at ix 2 <? h1)
             && ((w0 <=? ix_at ix 3) && (ix_at ix 3 <? w1))
          then (get a ix
                + get b [ix_at ix 0; ix_at ix 1;
                         (ix_at ix 2 - h0)%nat; (ix_at ix 3 - w0)%nat])%R
          else get a ix)).
Proof.
  intros Ea ? ? ? ? Eb. unfold np_slice23_iadd. rewrite Ea, Eb.
  cbn [rank4 mbind result_bind bind].
  unfold in_slice, slice_len, slice_hi, slice_lo.
  rewrite !Nat.min_l by lia.
  rewrite broadcast_shapes_same.
  destruct (decide _) as [_|Hne]; [|now destruct Hne].
  f_equal. apply tabulate_ext. intros ix Hix.
  apply in_bounds4_inv in Hix as (n & c & h & w & -> & ? & ? & ? & ?).
  cbn [ix_at nth].
  destruct ((h0 <=? h) && (h <? h1) && ((w0 <=? w) && (w <? w1))) eqn:E;
    [|reflexivity].
  rewrite broadcast_index_same; [reflexivity|].
  apply andb_prop in E as [E1 E2].
  apply andb_prop in E1 as [E1 E1']. apply andb_prop in E2 as [E2 E2'].
  apply Nat.leb_le in E1, E2. apply Nat.ltb_lt in E1', E2'.
  cbn [in_bounds]. lia.
Qed.


(* ================================================================= *)
(** ** Max pooling *)

Lemma for_each_seq_from {S : Type} (P : nat -> S -> Prop) (k n : nat)
    (body : nat -> S -> result S) :
  (forall i s, k <= i < k + n -> P i s ->
     exists s', body i s = Ok s' /\ P (Datatypes.S i) s') ->
  forall s, P k s -> exists s', for_each (seq k n) body s = Ok s' /\ P (k + n) s'.
Proof.
  revert k. induction n as [|n IH]; intros k Hbody s Hs; simpl.
  - rewrite Nat.add_0_r. eauto.
  - destruct (Hbody k s ltac:(lia) Hs) as (s1 & E1 & H1).
    rewrite E1. cbn [mbind result_bind bind].
    replace (k + Datatypes.S n) with (Datatypes.S k + n) by lia.
    apply IH; [|exact H1].
    intros i s' Hi. apply Hbody. lia.
Qed.

(** A loop over [range(n)] that advances an invariant indexed by the number
    of iterations done. *)
Lemma for_each_range {S : Type} (P : nat -> S -> Prop) (n : Z)
    (body : nat -> S -> result S) :
  (forall i s, i < Z.to_nat n -> P i s ->
     exists s', body i s = Ok s' /\ P (Datatypes.S i) s') ->
  forall s, P 0 s ->
  exists s', for_each (py_range n) body s = Ok s' /\ P (Z.to_nat n) s'.
Proof.
  intros Hbody s Hs. unfold py_range.
  apply (for_each_seq_from P 0 (Z.to_nat n)); [|exact Hs].
  intros i s' Hi. apply Hbody. lia.
Qed.

Lemma np_amax23_ok (a : ndarray R) (N C H W : nat) :
  shape a = [N; C; H; W] -> 0 < H -> 0 < W ->
  np_amax23 a
  = Ok (tabulate [N; C] (fun ix =>
          Rmax_list (window_elems a (ix_at ix 0) (ix_at ix 1) H W))).
Proof.
  intros E HH HW. unfold np_amax23. rewrite E.
  cbn [unpack4 mbind result_bind bind].
  destruct (Nat.eqb_spec (H * W) 0) as [E0|_]; [nia | reflexivity].
Qed.

Lemma flat_map_ext_in {A B : Type} (f g : A -> list B) (l : list A) :
  (forall a, In a l -> f a = g a) -> flat_map f l = flat_map g l.
Proof.
  intros E. rewrite !flat_map_concat_map. f_equal. now apply map_ext_in.
Qed.

Lemma window_elems_slice (x : ndarray R) (N C h0 w0 HH WW n c : nat) :
  n < N -> c < C ->
  window_elems
    (tabulate [N; C; HH; WW] (fun ix =>
       get x [ix_at ix 0; ix_at ix 1; h0 + ix_at ix 2; w0 + ix_at ix 3]))
    n c HH WW
  = flat_map (fun a => map (fun b => get x [n; c; h0 + a; w0 + b]) (seq 0 WW))
      (seq 0 HH).
Proof.
  intros Hn Hc. unfold window_elems.
  apply flat_map_ext_in. intros a Ha. apply in_seq in Ha.
  apply map_ext_in. intros b Hb. apply in_seq in Hb.
  now rewrite get_tabulate by (cbn [in_bounds]; lia).
Qed.

(** The forward pass of max pooling: every output element is the maximum
    of its window. *)
Lemma max_pool_forward_ok (x : ndarray R) (pool_param : gmap string nat)
    (N C H W : nat) :
  shape x = [N; C; H; W] ->
  let HH := default H (pool_param !! "pool_height") in
  let WW := default W (pool_param !! "pool_width") in
  let stride := default 1 (pool_param !! "stride") in
  let h1 := (H - HH) / stride + 1 in
  let w1 := (W - WW) / stride + 1 in
  stride <> 0 -> 0 < HH <= H -> 0 < WW <= W ->
  exists out,
    max_pool_forward_naive x pool_param = Ok (out, (x, out, pool_param))
    /\ shape out = [N; C; h1; w1]
    /\ forall n c i j, n < N -> c < C -> i < h1 -> j < w1 ->
         get out [n; c; i; j]
         = Rmax_list (pool_window x stride HH WW n c i j).
Proof.
  intros Hx HH WW stride h1 w1 Hs HHH HWW.
  unfold max_pool_forward_naive. rewrite Hx.
  cbn [unpack4 mbind result_bind bind]. fold HH WW stride.
  unfold out_size. rewrite (proj2 (Nat.eqb_neq stride 0) Hs).
  cbn [mbind result_bind bind].
  assert (EH : Z.quot (Z.of_nat H - Z.of_nat HH + Z.of_nat stride)
                 (Z.of_nat stride) = Z.of_nat h1).
  { unfold h1. rewrite Z.quot_div_nonneg by lia.
    rewrite Nat2Z.inj_add, Nat2Z.inj_div, Nat2Z.inj_sub by lia.
    rewrite <- (Z.mul_1_l (Z.of_nat stride)) at 1.
    rewrite Z.div_add by lia. reflexivity. }
  assert (EW : Z.quot (Z.of_nat W - Z.of_nat WW + Z.of_nat stride)
                 (Z.of_nat stride) = Z.of_nat w1).
  { unfold w1. rewrite Z.quot_div_nonneg by lia.
    rewrite Nat2Z.inj_add, Nat2Z.inj_div, Nat2Z.inj_sub by lia.
    rewrite <- (Z.mul_1_l (Z.of_nat stride)) at 1.
    rewrite Z.div_add by lia. reflexivity. }
  rewrite EH, EW.
  unfold np_zeros_int. cbn [forallb].
  rewrite !(proj2 (Z.leb_le 0 _)) by lia. cbn [andb map].
  cbn [mbind result_bind bind]. rewrite !Nat2Z.id.
  set (V := fun n c i j => Rmax_list (pool_window x stride HH WW n c i j)).
  set (P := fun (k : nat) (out : ndarray R) =>
              shape out = [N; C; h1; w1]
              /\ forall n c i j, n < N -> c < C -> i < k -> j < w1 ->
                   get out [n; c; i; j] = V n c i j).
  match goal with
  | |- context [for_each (py_range ?n) ?body ?s] =>
      assert (Hloop : exists out, for_each (py_range n) body s = Ok out
                                  /\ P (Z.to_nat n) out);
      [ apply (for_each_range P)
      | destruct Hloop as (out & -> & Hout) ]
  end.
  - intros i out Hi [Hsh Hval]. rewrite Nat2Z.id in Hi.
    set (Q := fun (k : nat) (out : ndarray R) =>
                shape out = [N; C; h1; w1]
                /\ (forall n c i' j, n < N -> c < C -> i' < i -> j < w1 ->
                     get out [n; c; i'; j] = V n c i' j)
                /\ (forall n c j, n < N -> c < C -> j < k ->
                     get out [n; c; i; j] = V n c i j)).
    match goal with
    | |- context [for_each (py_range ?n) ?body ?s] =>
        assert (Hloop : exists out', for_each (py_range n) body s = Ok out'
                                     /\ Q (Z.to_nat n) out');
        [ apply (for_each_range Q)
        | destruct Hloop as (out' & -> & Hout') ]
    end.
    + intros j out' Hj (Hsh' & Hprev & Hrow). rewrite Nat2Z.id in Hj.
      assert (Hi' : stride * i + HH <= H).
      { unfold h1 in Hi. pose proof (Nat.Div0.mul_div_le (H - HH) stride).
        assert (i <= (H - HH) / stride) by lia. nia. }
      assert (Hj' : stride * j + WW <= W).
      { unfold w1 in Hj. pose proof (Nat.Div0.mul_div_le (W - WW) stride).
        assert (j <= (W - WW) / stride) by lia. nia. }
      rewrite (np_slice23_ok x _ _ _ _ N C H W Hx) by lia.
      cbn [mbind result_bind bind].
      replace (stride * i + HH - stride * i) with HH by lia.
      replace (stride * j + WW - stride * j) with WW by lia.
      rewrite (np_amax23_ok _ N C HH WW) by (first [reflexivity | lia]).
      cbn [mbind result_bind bind].
      rewrite (np_set_ij_ok out' _ i j N C h1 w1 Hsh')
        by (first [reflexivity | lia]).
      eexists. split; [reflexivity|]. split; [reflexivity|]. split.
      * intros n c i' j' Hn Hc Hi'' Hj''.
        rewrite get_tabulate by (cbn [in_bounds]; lia).
        cbn [ix_at nth].
        destruct (Nat.eqb_spec i' i) as [->|_]; [lia|].
        cbn [andb]. now apply Hprev.
      * intros n c j' Hn Hc Hj''.
        rewrite get_tabulate by (cbn [in_bounds]; lia).
        cbn [ix_at nth]. rewrite Nat.eqb_refl. cbn [andb].
        destruct (Nat.eqb_spec j' j) as [->|Hne].
        -- rewrite get_tabulate by (cbn [in_bounds]; lia).
           cbn [ix_at nth].
           now rewrite (window_elems_slice x N C) by assumption.
        -- apply Hrow; lia.
    + split; [exact Hsh|]. split; [exact Hval|]. intros; lia.
    + rewrite Nat2Z.id in Hout'. destruct Hout' as (Hsh' & Hprev & Hrow).
      exists out'. split; [reflexivity|]. split; [exact Hsh'|].
      intros n c i' j Hn Hc Hi' Hj.
      destruct (Nat.eq_dec i' i) as [->|Hne]; [now apply Hrow|].
      apply Hprev; lia.
  - split; [reflexivity|]. intros; lia.
  - rewrite Nat2Z.id in Hout. destruct Hout as [Hsh Hval].
    cbn [mbind result_bind bind].
    exists out. split; [reflexivity|]. split; [exact Hsh|].
    intros. now apply Hval.
Qed.

(** [np.repeat(a, HH * WW).reshape(N, C, HH, WW)] spreads [a[n, c]] over the
    window axes. *)
Lemma get_repeat_reshape (a : ndarray R) (N C HH WW n c p q : nat) :
  shape a = [N; C] -> n < N -> c < C -> p < HH -> q < WW ->
  get (mk_nd [N; C; HH; WW] (data (np_repeat a (HH * WW)))) [n; c; p; q]
  = get a [n; c].
Proof.
  intros Ha Hn Hc Hp Hq.
  set (k := ravel [N; C; HH; WW] [n; c; p; q]).
  assert (Hk : k = (n * C + c) * (HH * WW) + (p * WW + q))
    by (unfold k; simpl; ring).
  assert (Hpq : p * WW + q < HH * WW) by nia.
  assert (Hnc : n * C + c < N * C) by nia.
  transitivity (get (np_repeat a (HH * WW)) [k]).
  { unfold get. cbn [shape]. fold k. f_equal. simpl. lia. }
  unfold np_repeat. rewrite Ha.
  rewrite get_tabulate by (cbn [in_bounds size_of fold_right]; nia).
  cbn [ix_at nth].
  replace (k / (HH * WW)) with (ravel [N; C] [n; c]).
  - now rewrite unravel_ravel by (cbn [in_bounds]; lia).
  - rewrite Hk. rewrite Nat.div_add_l by lia.
    rewrite (Nat.div_small _ _ Hpq). simpl. lia.
Qed.

Lemma np_mask_set_ok (a : ndarray R) (mask : ndarray bool) (v : R) :
  shape mask = shape a ->
  np_mask_set a mask v
  = Ok (tabulate (shape a) (fun ix => if get mask ix then v else get a ix)).
Proof.
  intros E. unfold np_mask_set.
  destruct (decide _) as [_|Hne]; [reflexivity | now destruct Hne].
Qed.

Lemma max_pool_backward_ok (x out dout : ndarray R)
    (pool_param : gmap string nat) (N C H W : nat) :
  shape x = [N; C; H; W] ->
  let HH := default H (pool_param !! "pool_height") in
  let WW := default W (pool_param !! "pool_width") in
  let stride := default 1 (pool_param !! "stride") in
  let h1 := (H - HH) / stride + 1 in
  let w1 := (W - WW) / stride + 1 in
  stride <> 0 -> 0 < HH <= H -> 0 < WW <= W ->
  shape out = [N; C; h1; w1] -> shape dout = [N; C; h1; w1] ->
  exists dx,
    max_pool_backward_naive dout (x, out, pool_param) = Ok dx
    /\ shape dx = [N; C; H; W] /\ wf dx
    /\ forall n c h w, n < N -> c < C -> h < H -> w < W ->
         get dx [n; c; h; w]
         = sum_upto h1 (fun i => sum_upto w1 (fun j =>
             if in_window stride HH WW i j h w
                && Reqb (get x [n; c; h; w]) (get out [n; c; i; j])
             then get dout [n; c; i; j] else 0%R)).
Proof.
  intros Hx HH WW stride h1 w1 Hs HHH HWW Ho Hd.
  unfold max_pool_backward_naive. rewrite Hx.
  cbn [unpack4 mbind result_bind bind]. fold HH WW stride.
  unfold out_size. rewrite (proj2 (Nat.eqb_neq stride 0) Hs).
  cbn [mbind result_bind bind].
  assert (EH : Z.quot (Z.of_nat H - Z.of_nat HH + Z.of_nat stride)
                 (Z.of_nat stride) = Z.of_nat h1).
  { unfold h1. rewrite Z.quot_div_nonneg by lia.
    rewrite Nat2Z.inj_add, Nat2Z.inj_div, Nat2Z.inj_sub by lia.
    rewrite <- (Z.mul_1_l (Z.of_nat stride)) at 1.
    rewrite Z.div_add by lia. reflexivity. }
  assert (EW : Z.quot (Z.of_nat W - Z.of_nat WW + Z.of_nat stride)
                 (Z.of_nat stride) = Z.of_nat w1).
  { unfold w1. rewrite Z.quot_div_nonneg by lia.
    rewrite Nat2Z.inj_add, Nat2Z.inj_div, Nat2Z.inj_sub by lia.
    rewrite <- (Z.mul_1_l (Z.of_nat stride)) at 1.
    rewrite Z.div_add by lia. reflexivity. }
  rewrite EH, EW.
  set (R0 := fun n c h w i j =>
               if in_window stride HH WW i j h w
                  && Reqb (get x [n; c; h; w]) (get out [n; c; i; j])
               then get dout [n; c; i; j] else 0%R).
  set (P := fun (k : nat) (dx : ndarray R) =>
              (shape dx = [N; C; H; W] /\ wf dx)
              /\ forall n c h w, n < N -> c < C -> h < H -> w < W ->
                   get dx [n; c; h; w]
                   = sum_upto k (fun i => sum_upto w1 (R0 n c h w i))).
  match goal with
  | |- context [for_each (py_range ?n) ?body ?s] =>
      assert (Hloop : exists dx, for_each (py_range n) body s = Ok dx
                                 /\ P (Z.to_nat n) dx);
      [ apply (for_each_range P)
      | destruct Hloop as (dx & -> & Hdx) ]
  end.
  - intros i dx Hi [[Hsh Hwf] Hval]. rewrite Nat2Z.id in Hi.
    set (Q := fun (k : nat) (dx : ndarray R) =>
                (shape dx = [N; C; H; W] /\ wf dx)
                /\ forall n c h w, n < N -> c < C -> h < H -> w < W ->
                     get dx [n; c; h; w]
                     = (sum_upto i (fun i => sum_upto w1 (R0 n c h w i))
                        + sum_upto k (R0 n c h w i))%R).
    match goal with
    | |- context [for_each (py_range ?n) ?body ?s] =>
        assert (Hloop : exists dx', for_each (py_range n) body s = Ok dx'
                                    /\ Q (Z.to_nat n) dx');
        [ apply (for_each_range Q)
        | destruct Hloop as (dx' & -> & Hdx') ]
    end.
    + intros j dx' Hj ([Hsh' _] & Hacc). rewrite Nat2Z.id in Hj.
      assert (Hi' : stride * i + HH <= H).
      { unfold h1 in Hi. pose proof (Nat.Div0.mul_div_le (H - HH) stride).
        assert (i <= (H - HH) / stride) by lia. nia. }
      assert (Hj' : stride * j + WW <= W).
      { unfold w1 in Hj. pose proof (Nat.Div0.mul_div_le (W - WW) stride).
        assert (j <= (W - WW) / stride) by lia. nia. }
      rewrite (np_slice23_ok x _ _ _ _ N C H W Hx) by lia.
      cbn [mbind result_bind bind].
      replace (stride * i + HH - stride * i) with HH by lia.
      replace (stride * j + WW - stride * j) with WW by lia.
      rewrite (np_get_ij_ok out i j N C h1 w1 Ho) by lia.
      rewrite (np_get_ij_ok dout i j N C h1 w1 Hd) by lia.
      cbn [mbind result_bind bind]. rewrite shape_tabulate.
      rewrite !np_reshape_ok by (simpl; ring).
      cbn [mbind result_bind bind].
      rewrite np_binop_same by reflexivity.
      cbn [mbind result_bind bind]. rewrite shape_tabulate.
      rewrite np_mask_set_ok by reflexivity.
      cbn [mbind result_bind bind].
      rewrite np_inplace_same by reflexivity.
      cbn [mbind result_bind bind].
      rewrite (np_slice23_iadd_ok dx' _ _ _ _ _ N C H W Hsh')
        by (first [lia | unfold np_zeros; rewrite !shape_tabulate;
                         f_equal; f_equal; f_equal; [|f_equal]; lia]).
      eexists. split; [reflexivity|].
      split; [split; [reflexivity | apply wf_tabulate]|].
      intros n c h w Hn Hc Hh Hw.
      rewrite get_tabulate by (cbn [in_bounds]; lia).
      cbn [ix_at nth sum_upto]. rewrite (Hacc n c h w) by assumption.
      change (R0 n c h w i j)
        with (if in_window stride HH WW i j h w
                 && Reqb (get x [n; c; h; w]) (get out [n; c; i; j])
              then get dout [n; c; i; j] else 0%R).
      unfold in_window.
      destruct ((stride * i <=? h) && (h <? stride * i + HH)
                && ((stride * j <=? w) && (w <? stride * j + WW))) eqn:E.
      * apply andb_prop in E as [E1 E2].
        apply andb_prop in E1 as [E1 E1']. apply andb_prop in E2 as [E2 E2'].
        apply Nat.leb_le in E1, E2. apply Nat.ltb_lt in E1', E2'.
        unfold np_zeros. rewrite !shape_tabulate.
        rewrite !get_tabulate by (cbn [in_bounds]; lia).
        cbn [ix_at nth].
        rewrite !get_repeat_reshape by (first [reflexivity | lia]).
        rewrite !get_tabulate by (cbn [in_bounds]; lia).
        cbn [ix_at nth andb].
        replace (stride * i + (h - stride * i)) with h by lia.
        replace (stride * j + (w - stride * j)) with w by lia.
        destruct (Reqb _ _); ring.
      * cbn [andb]. ring.
    + split; [split; assumption|].
      intros n c h w Hn Hc Hh Hw. cbn [sum_upto].
      rewrite (Hval n c h w) by assumption. ring.
    + rewrite Nat2Z.id in Hdx'. destruct Hdx' as (Hsh' & Hacc).
      exists dx'. split; [reflexivity|]. split; [exact Hsh'|].
      intros n c h w Hn Hc Hh Hw. cbn [sum_upto]. now apply Hacc.
  - split; [split; [reflexivity | apply wf_tabulate]|].
    intros n c h w Hn Hc Hh Hw. cbn [sum_upto].
    now rewrite get_np_zeros by (cbn [in_bounds]; lia).
  - rewrite Nat2Z.id in Hdx. destruct Hdx as [[Hsh Hwf] Hval].
    exists dx. split; [reflexivity|]. split; [exact Hsh|]. split; [exact Hwf|].
    intros. now apply Hval.
Qed.

Lemma sum_upto_zero (n : nat) (f : nat -> R) :
  (forall i, i < n -> f i = 0%R) -> sum_upto n f = 0%R.
Proof.
  induction n as [|n IH]; intros E; simpl; [reflexivity|].
  rewrite IH by (intros i Hi; apply E; lia). rewrite E by lia. ring.
Qed.

Lemma sum_upto_single (n i0 : nat) (f : nat -> R) :
  i0 < n -> (forall i, i < n -> i <> i0 -> f i = 0%R) ->
  sum_upto n f = f i0.
Proof.
  induction n as [|n IH]; intros Hi E; [lia|]. simpl.
  destruct (Nat.eq_dec i0 n) as [->|Hne].
  - rewrite sum_upto_zero by (intros i Hi'; apply E; lia). ring.
  - rewrite IH by (first [lia | intros i Hi' Hi''; apply E; lia]).
    rewrite (E n) by lia. ring.
Qed.

Lemma fold_left_Rmax_ge (l : list R) (v : R) :
  (v <= fold_left Rmax l v)%R
  /\ (forall u, In u l -> (u <= fold_left Rmax l v)%R)
  /\ (fold_left Rmax l v = v \/ In (fold_left Rmax l v) l).
Proof.
  revert v. induction l as [|a l IH]; intros v; simpl.
  - split; [lra|]. split; [tauto|]. now left.
  - destruct (IH (Rmax v a)) as (H1 & H2 & H3).
    pose proof (Rmax_l v a). pose proof (Rmax_r v a).
    split; [lra|]. split.
    + intros u [<-|Hu]; [lra | now apply H2].
    + destruct H3 as [E|Hin]; [|now right; right].
      rewrite E. unfold Rmax. destruct (Rle_dec v a); [right; now left | now left].
Qed.

(** [Rmax_list] of a non-empty list is its greatest element. *)
Lemma Rmax_list_greatest (l : list R) :
  l <> [] ->
  In (Rmax_list l) l /\ forall u, In u l -> (u <= Rmax_list l)%R.
Proof.
  destruct l as [|v l]; [congruence|]. intros _. simpl.
  destruct (fold_left_Rmax_ge l v) as (H1 & H2 & H3).
  split.
  - destruct H3 as [->|Hin]; [now left | now right].
  - intros u [<-|Hu]; [exact H1 | now apply H2].
Qed.

(** The value that the forward pass stores for a window is the greatest
    value of the window. *)
Lemma pool_window_maximum (x : ndarray R) (stride HH WW n c i j : nat) :
  0 < HH -> 0 < WW ->
  let m := Rmax_list (pool_window x stride HH WW n c i j) in
  (exists a b, a < HH /\ b < WW
               /\ m = get x [n; c; stride * i + a; stride * j + b])
  /\ (forall a b, a < HH -> b < WW ->
        Rle (get x [n; c; stride * i + a; stride * j + b]) m).
Proof.
  intros HHH HWW m.
  assert (Hin : forall v, In v (pool_window x stride HH WW n c i j) <->
                  exists a b, a < HH /\ b < WW
                    /\ v = get x [n; c; stride * i + a; stride * j + b]).
  { intros v. unfold pool_window. rewrite in_flat_map. split.
    - intros (a & Ha & Hv). apply in_map_iff in Hv as (b & <- & Hb).
      apply in_seq in Ha, Hb. exists a, b. repeat split; lia.
    - intros (a & b & Ha & Hb & ->). exists a. split; [apply in_seq; lia|].
      apply in_map_iff. exists b. split; [reflexivity | apply in_seq; lia]. }
  destruct (Rmax_list_greatest (pool_window x stride HH WW n c i j))
    as [Hmem Hub].
  { intros E.
    assert (Hv : In (get x [n; c; stride * i + 0; stride * j + 0])
                   (pool_window x stride HH WW n c i j))
      by (apply Hin; exists 0, 0; repeat split; lia).
    rewrite E in Hv. destruct Hv. }
  split.
  - apply Hin. exact Hmem.
  - intros a b Ha Hb. apply Hub, Hin. exists a, b. auto.
Qed.

Lemma Reqb_true (a b : R) : Reqb a b = true <-> a = b.
Proof. unfold Reqb. destruct (Req_dec_T a b); split; congruence. Qed.

Lemma Reqb_false (a b : R) : Reqb a b = false <-> a <> b.
Proof. unfold Reqb. destruct (Req_dec_T a b); split; congruence. Qed.

(** Forward then backward: the gradient at a position is the sum, over all
    windows, of what each window routes to it. *)
Lemma max_pool_backward_sum (x dout : ndarray R)
    (pool_param : gmap string nat) (N C H W : nat) :
  shape x = [N; C; H; W] ->
  let HH := default H (pool_param !! "pool_height") in
  let WW := default W (pool_param !! "pool_width") in
  let stride := default 1 (pool_param !! "stride") in
  let h1 := (H - HH) / stride + 1 in
  let w1 := (W - WW) / stride + 1 in
  stride <> 0 -> 0 < HH <= H -> 0 < WW <= W ->
  shape dout = [N; C; h1; w1] ->
  exists out dx,
    max_pool_forward_naive x pool_param = Ok (out, (x, out, pool_param))
    /\ max_pool_backward_naive dout (x, out, pool_param) = Ok dx
    /\ shape dx = [N; C; H; W]
    /\ forall n c h w, n < N -> c < C -> h < H -> w < W ->
         get dx [n; c; h; w]
         = sum_upto h1 (fun i => sum_upto w1 (fun j =>
             routed x dout stride HH WW n c h w i j)).
Proof.
  intros Hx HH WW stride h1 w1 Hs HHH HWW Hd.
  destruct (max_pool_forward_ok x pool_param N C H W Hx Hs HHH HWW)
    as (out & Hfwd & Ho & Hmax).
  destruct (max_pool_backward_ok x out dout pool_param N C H W Hx Hs HHH HWW
              Ho Hd) as (dx & Hbwd & Hsh & _ & Hval).
  exists out, dx. repeat split; try assumption.
  intros n c h w Hn Hc Hh Hw. rewrite (Hval n c h w) by assumption.
  apply sum_upto_ext. intros i Hi. apply sum_upto_ext. intros j Hj.
  unfold routed. fold HH WW stride.
  now rewrite (Hmax n c i j) by assumption.
Qed.

(** C4 (fails when two windows share their maximum).  In the row
    [1., 5., 2.] pooled by windows of width 2 with stride 1, each window has
    a unique maximum and both have it at position 1.  With the upstream
    gradient [10., 20.] the gradient there is 30: the two contributions
    added, which is neither upstream value. *)
Lemma max_pool_backward_shared_maximum :
  exists out dx,
    max_pool_forward_naive row152 pool12 = Ok (out, (row152, out, pool12))
    /\ max_pool_backward_naive up1020 (row152, out, pool12) = Ok dx
    /\ pool_window row152 1 1 2 0 0 0 0 = [1; 5]%R
    /\ pool_window row152 1 1 2 0 0 0 1 = [5; 2]%R
    /\ get dx [0; 0; 0; 1] = 30%R
    /\ get up1020 [0; 0; 0; 0] = 10%R
    /\ get up1020 [0; 0; 0; 1] = 20%R.
Proof.
  assert (Hs : default 1 (pool12 !! "stride") <> 0) by discriminate.
  assert (Hh : 0 < default 1 (pool12 !! "pool_height") <= 1)
    by (change (default 1 (pool12 !! "pool_height")) with 1; lia).
  assert (Hw : 0 < default 3 (pool12 !! "pool_width") <= 3)
    by (change (default 3 (pool12 !! "pool_width")) with 2; lia).
  destruct (max_pool_backward_sum row152 up1020 pool12 1 1 1 3 eq_refl
              Hs Hh Hw eq_refl)
    as (out & dx & Hfwd & Hbwd & _ & Hval).
  exists out, dx. split; [exact Hfwd|]. split; [exact Hbwd|].
  split; [reflexivity|]. split; [reflexivity|].
  split; [|split; reflexivity].
  rewrite (Hval 0 0 0 1) by lia.
  change (default 1 (pool12 !! "pool_height")) with 1.
  change (default 3 (pool12 !! "pool_width")) with 2.
  change (default 1 (pool12 !! "stride")) with 1.
  change ((3 - 2) / 1 + 1) with 2. change ((1 - 1) / 1 + 1) with 1.
  cbn [sum_upto]. unfold routed.
  change (in_window 1 1 2 0 0 0 1) with true.
  change (in_window 1 1 2 0 1 0 1) with true.
  change (pool_window row152 1 1 2 0 0 0 0) with [1; 5]%R.
  change (pool_window row152 1 1 2 0 0 0 1) with [5; 2]%R.
  change (get row152 [0; 0; 0; 1]) with 5%R.
  change (get up1020 [0; 0; 0; 0]) with 10%R.
  change (get up1020 [0; 0; 0; 1]) with 20%R.
  cbn [Rmax_list fold_left andb].
  rewrite (Rmax_right 1 5), (Rmax_left 5 2) by lra.
  rewrite (proj2 (Reqb_true 5 5) eq_refl). lra.
Qed.

(** C4, amended.  After a forward pass, the backward pass of max pooling
    gives every input position the sum, over all pooling windows, of what
    each window routes to it: the full upstream value of the window when the
    position lies in the window and holds the window's maximum (every tied
    position receives it, unsplit), and nothing otherwise.  Hence the
    gradient is zero at a position that holds the maximum of no window, and
    equals the upstream value of a window at a position that holds the
    maximum of that window and of no other. *)
Theorem max_pool_backward_routing (x dout : ndarray R)
    (pool_param : gmap string nat) (N C H W : nat) :
  shape x = [N; C; H; W] ->
  let HH := default H (pool_param !! "pool_height") in
  let WW := default W (pool_param !! "pool_width") in
  let stride := default 1 (pool_param !! "stride") in
  let h1 := (H - HH) / stride + 1 in
  let w1 := (W - WW) / stride + 1 in
  stride <> 0 -> 0 < HH <= H -> 0 < WW <= W ->
  shape dout = [N; C; h1; w1] ->
  exists out dx,
    max_pool_forward_naive x pool_param = Ok (out, (x, out, pool_param))
    /\ max_pool_backward_naive dout (x, out, pool_param) = Ok dx
    /\ shape dx = [N; C; H; W]
    /\ forall n c h w, n < N -> c < C -> h < H -> w < W ->
         let wmax i j := Rmax_list (pool_window x stride HH WW n c i j) in
         get dx [n; c; h; w]
         = sum_upto h1 (fun i => sum_upto w1 (fun j =>
             routed x dout stride HH WW n c h w i j))
         /\ ((forall i j, i < h1 -> j < w1 ->
                in_window stride HH WW i j h w = true ->
                get x [n; c; h; w] <> wmax i j) ->
             get dx [n; c; h; w] = 0%R)
         /\ (forall i0 j0, i0 < h1 -> j0 < w1 ->
                in_window stride HH WW i0 j0 h w = true ->
                get x [n; c; h; w] = wmax i0 j0 ->
                (forall i j, i < h1 -> j < w1 -> (i, j) <> (i0, j0) ->
                   in_window stride HH WW i j h w = true ->
                   get x [n; c; h; w] <> wmax i j) ->
                get dx [n; c; h; w] = get dout [n; c; i0; j0]).
Proof.
  intros Hx HH WW stride h1 w1 Hs HHH HWW Hd.
  destruct (max_pool_backward_sum x dout pool_param N C H W Hx Hs HHH HWW Hd)
    as (out & dx & Hfwd & Hbwd & Hsh & Hval).
  exists out, dx. repeat split; try assumption.
  - now apply Hval.
  - intros Hnone. rewrite (Hval n c h w) by assumption.
    apply sum_upto_zero. intros i Hi. apply sum_upto_zero. intros j Hj.
    unfold routed. fold HH WW stride.
    destruct (in_window stride HH WW i j h w) eqn:Ein; [|reflexivity].
    cbn [andb].
    now rewrite (proj2 (Reqb_false _ _) (Hnone i j Hi Hj Ein)).
  - intros i0 j0 Hi0 Hj0 Hin Hmax Hothers.
    rewrite (Hval n c h w) by assumption.
    rewrite (sum_upto_single h1 i0) by
      (first [assumption
             | intros i Hi Hne; apply sum_upto_zero; intros j Hj;
               unfold routed; fold HH WW stride;
               destruct (in_window stride HH WW i j h w) eqn:Ein;
               [|reflexivity]; cbn [andb];
               rewrite (proj2 (Reqb_false _ _)
                          (Hothers i j Hi Hj ltac:(congruence) Ein));
               reflexivity]).
    rewrite (sum_upto_single w1 j0) by
      (first [assumption
             | intros j Hj Hne;
               unfold routed; fold HH WW stride;
               destruct (in_window stride HH WW i0 j h w) eqn:Ein;
               [|reflexivity]; cbn [andb];
               rewrite (proj2 (Reqb_false _ _)
                          (Hothers i0 j Hi0 Hj ltac:(congruence) Ein));
               reflexivity]).
    unfold routed. fold HH WW stride. rewrite Hin. cbn [andb].
    now rewrite (proj2 (Reqb_true _ _) Hmax).
Qed.

Lemma max_pool_backward_routing_witness :
  exists out dx,
    max_pool_forward_naive row152 pool12 = Ok (out, (row152, out, pool12))
    /\ max_pool_backward_naive up1020 (row152, out, pool12) = Ok dx
    /\ shape dx = [1; 1; 1; 3].
Proof.
  assert (Hs : default 1 (pool12 !! "stride") <> 0) by discriminate.
  assert (Hh : 0 < default 1 (pool12 !! "pool_height") <= 1)
    by (change (default 1 (pool12 !! "pool_height")) with 1; lia).
  assert (Hw : 0 < default 3 (pool12 !! "pool_width") <= 3)
    by (change (default 3 (pool12 !! "pool_width")) with 2; lia).
  destruct (max_pool_backward_routing row152 up1020 pool12 1 1 1 3 eq_refl
              Hs Hh Hw eq_refl) as (out & dx & H1 & H2 & H3 & _).
  exists out, dx. auto.
Defined.

(* ================================================================= *)
(** ** The shapes of all gradients *)




Lemma np_transpose_0231_shape (a : ndarray R) (N C H W : nat) :
  shape a = [N; C; H; W] ->
  exists r, np_transpose a [0; 2; 3; 1] = Ok r
            /\ shape r = [N; H; W; C] /\ wf r.
Proof.
  intros E. unfold np_transpose. rewrite E.
  change (is_axes [0; 2; 3; 1] (length [N; C; H; W])) with true.
  eexists. split; [reflexivity|]. split; [reflexivity | apply wf_tabulate].
Qed.





(* ================================================================= *)
(** ** ReLU *)

(** X1.  The forward pass of ReLU never raises.  Its output has the shape of the
    input and holds [max(0, x)] at every position, its cache is the input,
    and the layer applied to its own output returns that output. *)
Theorem relu_forward_idempotent (x : ndarray R) :
  exists out,
    relu_forward x = Ok (out, x)
    /\ shape out = shape x
    /\ (forall ix, in_bounds ix (shape x) ->
          get out ix = Rmax 0 (get x ix) /\ (0 <= get out ix)%R)
    /\ relu_forward out = Ok (out, out).
Proof.
  unfold relu_forward. eexists. split; [reflexivity|].
  split; [reflexivity|]. split.
  - intros ix Hix. unfold np_map. rewrite get_tabulate by exact Hix.
    split; [reflexivity | apply Rmax_l].
  - assert (E : np_map (Rmax 0) (np_map (Rmax 0) x) = np_map (Rmax 0) x);
      [|now rewrite E].
    unfold np_map. rewrite shape_tabulate.
    apply tabulate_ext. intros ix Hix.
    rewrite get_tabulate by exact Hix.
    apply Rmax_right, Rmax_l.
Qed.

(** X2.  The backward pass of ReLU lets the upstream gradient through wherever
    the input is not negative, and so also where the input is exactly 0
    (where the forward output is 0); elsewhere the gradient is 0. *)
Theorem relu_backward_values (dout x : ndarray R) :
  shape dout = shape x ->
  exists dx,
    relu_backward dout x = Ok dx
    /\ shape dx = shape x
    /\ forall ix, in_bounds ix (shape x) ->
         ((0 <= get x ix)%R -> get dx ix = get dout ix)
         /\ ((get x ix < 0)%R -> get dx ix = 0%R).
Proof.
  intros Hd. unfold relu_backward, np_where.
  rewrite np_binop_same by (unfold np_map; now rewrite shape_tabulate).
  cbn [mbind result_bind bind].
  eexists. split; [reflexivity|]. split; [reflexivity|].
  intros ix Hix. unfold np_map. rewrite shape_tabulate.
  rewrite !get_tabulate by exact Hix.
  unfold Rgeb. destruct (Rge_dec (get x ix) 0); split; intros; lra.
Qed.

Lemma relu_backward_values_witness :
  exists dx,
    relu_backward vec34 vec00 = Ok dx
    /\ shape dx = shape vec00
    /\ forall ix, in_bounds ix (shape vec00) ->
         ((0 <= get vec00 ix)%R -> get dx ix = get vec34 ix)
         /\ ((get vec00 ix < 0)%R -> get dx ix = 0%R).
Proof. apply (relu_backward_values vec34 vec00). reflexivity. Defined.

(* ================================================================= *)
(** ** Dropout: both passes *)

(** The mask of a training call: 0 where the draw is below [p], 1
    elsewhere. *)
Lemma dropout_forward_train_ok (G : generator) (x : ndarray R)
    (dropout_param : gmap string pyval) (g g0 : rng G) (pv : pyval) (p : R) :
  dropout_param !! "p" = Some pv ->
  to_array pv = Ok (scalar p) ->
  dropout_param !! "mode" = Some (PStr "train") ->
  seed_generator G dropout_param g = Ok g0 ->
  let probs := fst (np_random_rand G (shape x) g0) in
  let mask := tabulate (shape x) (fun ix =>
                if Rltb (get probs ix) p then 0%R else 1%R) in
  dropout_forward G x dropout_param g
  = Ok (tabulate (shape x) (fun ix => (get x ix * get mask ix)%R),
        (dropout_param, Some mask),
        snd (np_random_rand G (shape x) g0)).
Proof.
  intros Hp Hpv Hmode Hseed probs mask. subst mask probs.
  unfold dropout_forward, dict_item. rewrite Hp, Hmode, Hseed. simpl.
  pose proof (rand_shape G (shape x) g0) as Hshape.
  destruct (np_random_rand G (shape x) g0) as [pr g1]. simpl in Hshape |- *.
  rewrite Hpv. simpl.
  rewrite (np_binop_scalar_r Rltb pr (scalar p) eq_refl). simpl.
  unfold np_mask_set. simpl. rewrite Hshape.
  destruct (decide (shape x = shape x)) as [_|Hne]; [|now destruct Hne].
  simpl. unfold np_mul. rewrite np_binop_same by reflexivity. simpl.
  assert (E : tabulate (shape x) (fun ix =>
                if get (tabulate (shape x) (fun ix0 =>
                          Rltb (get pr ix0) (get (scalar p) []))) ix
                then 0%R else get (np_ones (shape x)) ix)
              = tabulate (shape x) (fun ix =>
                  if Rltb (get pr ix) p then 0%R else 1%R)).
  { apply tabulate_ext. intros ix Hix.
    rewrite get_tabulate by exact Hix.
    now rewrite get_scalar, get_np_ones by exact Hix. }
  rewrite E. reflexivity.
Qed.

(** X3.  In test mode the two passes of dropout are the identity: the forward
    pass returns its input and no mask, and the backward pass returns the
    upstream gradient.  The generator is left as it was, or as the seed of
    the configuration sets it. *)
Theorem dropout_test_identity (G : generator) (x dout : ndarray R)
    (dropout_param : gmap string pyval) (g g0 : rng G) (p : pyval) :
  dropout_param !! "p" = Some p ->
  dropout_param !! "mode" = Some (PStr "test") ->
  seed_generator G dropout_param g = Ok g0 ->
  dropout_forward G x dropout_param g = Ok (x, (dropout_param, None), g0)
  /\ dropout_backward dout (dropout_param, None) = Ok (Some dout)
  /\ (dropout_param !! "seed" = None -> g0 = g).
Proof.
  intros Hp Hm Hs. unfold dropout_forward, dropout_backward, dict_item.
  rewrite Hp, Hm, Hs. repeat split.
  unfold seed_generator in Hs. intros E. rewrite E in Hs. congruence.
Qed.

Lemma dropout_test_identity_witness :
  dropout_forward zero_generator vec34 test_param tt
  = Ok (vec34, (test_param, None), tt)
  /\ dropout_backward vec00 (test_param, None) = Ok (Some vec00)
  /\ (test_param !! "seed" = None -> tt = tt).
Proof.
  apply (dropout_test_identity zero_generator vec34 vec00 test_param tt tt
           (PFloat (1 / 2))); reflexivity.
Defined.

(** X4.  A configuration that holds a seed makes the forward pass of dropout
    deterministic: the result, the generator it leaves included, does not
    depend on the state of the generator before the call. *)
Theorem dropout_forward_seed_deterministic (G : generator) (x : ndarray R)
    (dropout_param : gmap string pyval) (g1 g2 : rng G) (s : pyval) :
  dropout_param !! "seed" = Some s ->
  dropout_forward G x dropout_param g1 = dropout_forward G x dropout_param g2.
Proof.
  intros Hs. unfold dropout_forward, seed_generator. now rewrite Hs.
Qed.

Lemma dropout_forward_seed_deterministic_witness :
  dropout_forward counting_generator vec34 seeded_param 0
  = dropout_forward counting_generator vec34 seeded_param 5.
Proof.
  apply (dropout_forward_seed_deterministic counting_generator vec34
           seeded_param 0 5 (PInt 7)).
  reflexivity.
Defined.

(** X5.  Forward then backward in training mode: the mask holds only 0 and 1,
    and the gradient is 0 exactly where the output was dropped (the draw
    below [p]) and the upstream gradient, unscaled, elsewhere. *)
Theorem dropout_backward_train_mask (G : generator) (x dout : ndarray R)
    (dropout_param : gmap string pyval) (g g0 : rng G) (pv : pyval) (p : R) :
  dropout_param !! "p" = Some pv ->
  to_array pv = Ok (scalar p) ->
  dropout_param !! "mode" = Some (PStr "train") ->
  seed_generator G dropout_param g = Ok g0 ->
  shape dout = shape x ->
  let probs := fst (np_random_rand G (shape x) g0) in
  exists out mask g' dx,
    dropout_forward G x dropout_param g
    = Ok (out, (dropout_param, Some mask), g')
    /\ dropout_backward dout (dropout_param, Some mask) = Ok (Some dx)
    /\ shape mask = shape x /\ shape dx = shape x
    /\ forall ix, in_bounds ix (shape x) ->
         ((get probs ix < p)%R ->
            get mask ix = 0%R /\ get out ix = 0%R /\ get dx ix = 0%R)
         /\ ((p <= get probs ix)%R ->
            get mask ix = 1%R /\ get out ix = get x ix
            /\ get dx ix = get dout ix).
Proof.
  intros Hp Hpv Hmode Hseed Hd probs.
  rewrite (dropout_forward_train_ok G x dropout_param g g0 pv p)
    by assumption.
  fold probs.
  set (mask := tabulate (shape x) (fun ix =>
                 if Rltb (get probs ix) p then 0%R else 1%R)).
  assert (Hb : dropout_backward dout (dropout_param, Some mask)
               = Ok (Some (tabulate (shape dout) (fun ix =>
                             (get dout ix * get mask ix)%R)))).
  { unfold dropout_backward, dict_item. rewrite Hmode.
    cbn [mbind result_bind bind py_eq_str].
    rewrite bool_decide_eq_true_2 by reflexivity.
    unfold np_mul. rewrite np_binop_same by (now rewrite Hd).
    reflexivity. }
  do 4 eexists. split; [reflexivity|]. split; [exact Hb|].
  split; [reflexivity|]. split; [exact Hd|].
  intros ix Hix. unfold mask.
  rewrite !get_tabulate by (rewrite ?Hd; exact Hix).
  unfold Rltb.
  destruct (Rlt_dec (get probs ix) p); split; intros; try lra;
    repeat split; ring.
Qed.

Lemma dropout_backward_train_mask_witness :
  exists out mask g' dx,
    dropout_forward alternating_generator vec34 train_param tt
    = Ok (out, (train_param, Some mask), g')
    /\ dropout_backward vec34 (train_param, Some mask) = Ok (Some dx)
    /\ shape mask = [2] /\ shape dx = [2]
    /\ (get mask [0] = 0%R /\ get out [0] = 0%R /\ get dx [0] = 0%R)
    /\ (get mask [1] = 1%R /\ get out [1] = 4%R /\ get dx [1] = 4%R).
Proof.
  destruct (dropout_backward_train_mask alternating_generator vec34 vec34
              train_param tt tt (PFloat (1 / 2)) (1 / 2)
              eq_refl eq_refl eq_refl eq_refl eq_refl)
    as (out & mask & g' & dx & E & Eb & Hm & Hd & Hv).
  exists out, mask, g', dx.
  split; [exact E|]. split; [exact Eb|].
  split; [exact Hm|]. split; [exact Hd|].
  split.
  - destruct (Hv [0]) as [H0 _]; [simpl; lia|].
    apply H0. unfold get. simpl. lra.
  - destruct (Hv [1]) as [_ H1]; [simpl; lia|].
    apply H1. unfold get. simpl. lra.
Defined.

(** X6.  The parameter [p] is the probability of dropping.  With [p <= 0] a
    training call keeps every element, with [p >= 1] it zeroes every
    element, whatever the generator draws. *)
Theorem dropout_forward_train_extremes (G : generator) (x : ndarray R)
    (dropout_param : gmap string pyval) (g g0 : rng G) (pv : pyval) (p : R) :
  dropout_param !! "p" = Some pv ->
  to_array pv = Ok (scalar p) ->
  dropout_param !! "mode" = Some (PStr "train") ->
  seed_generator G dropout_param g = Ok g0 ->
  exists out cache g',
    dropout_forward G x dropout_param g = Ok (out, cache, g')
    /\ shape out = shape x
    /\ ((p <= 0)%R ->
        forall ix, in_bounds ix (shape x) -> get out ix = get x ix)
    /\ ((1 <= p)%R ->
        forall ix, in_bounds ix (shape x) -> get out ix = 0%R).
Proof.
  intros Hp Hpv Hmode Hseed.
  rewrite (dropout_forward_train_ok G x dropout_param g g0 pv p)
    by assumption.
  do 3 eexists. split; [reflexivity|]. split; [reflexivity|].
  split; intros Hle ix Hix; rewrite !get_tabulate by exact Hix;
    pose proof (rand_range G (shape x) g0 ix Hix) as Hr;
    unfold Rltb; destruct (Rlt_dec _ p); try lra; ring.
Qed.

Lemma dropout_forward_train_extremes_witness :
  (exists out cache g',
     dropout_forward alternating_generator vec34 keep_all_param tt
     = Ok (out, cache, g')
     /\ shape out = [2] /\ get out [0] = 3%R /\ get out [1] = 4%R)
  /\ (exists out cache g',
        dropout_forward alternating_generator vec34 drop_all_param tt
        = Ok (out, cache, g')
        /\ shape out = [2] /\ get out [0] = 0%R /\ get out [1] = 0%R).
Proof.
  split.
  - destruct (dropout_forward_train_extremes alternating_generator vec34
                keep_all_param tt tt (PFloat 0) 0
                eq_refl eq_refl eq_refl eq_refl)
      as (out & cache & g' & E & Hsh & Hkeep & _).
    exists out, cache, g'. split; [exact E|]. split; [exact Hsh|].
    split; apply Hkeep; first [lra | simpl; lia].
  - destruct (dropout_forward_train_extremes alternating_generator vec34
                drop_all_param tt tt (PFloat 1) 1
                eq_refl eq_refl eq_refl eq_refl)
      as (out & cache & g' & E & Hsh & _ & Hdrop).
    exists out, cache, g'. split; [exact E|]. split; [exact Hsh|].
    split; apply Hdrop; first [lra | simpl; lia].
Defined.

(* ================================================================= *)
(** ** Required keys of the configurations *)

(** X7.  The keys that the kernels read with [d[k]] are required: batch
    normalization (vanilla and spatial) needs ['mode'], dropout needs ['p']
    (read first, also in test mode) and ['mode'], and each raises the
    [KeyError] of the first key that is absent, whatever its other
    arguments are. *)
Theorem missing_key_raises :
  (forall (x gamma beta : ndarray R) (bn_param : gmap string pyval),
     bn_param !! "mode" = None ->
     batchnorm_forward x gamma beta bn_param = Raise (KeyError "mode"))
  /\ (forall (x gamma beta : ndarray R) (bn_param : gmap string pyval)
         (N C H W : nat),
       shape x = [N; C; H; W] ->
       bn_param !! "mode" = None ->
       spatial_batchnorm_forward x gamma beta bn_param
       = Raise (KeyError "mode"))
  /\ (forall (G : generator) (x : ndarray R)
         (dropout_param : gmap string pyval) (g : rng G),
       dropout_param !! "p" = None ->
       dropout_forward G x dropout_param g = Raise (KeyError "p"))
  /\ (forall (G : generator) (x : ndarray R)
         (dropout_param : gmap string pyval) (g : rng G),
       is_Some (dropout_param !! "p") ->
       dropout_param !! "mode" = None ->
       dropout_forward G x dropout_param g = Raise (KeyError "mode"))
  /\ (forall (dout : ndarray R) (dropout_param : gmap string pyval)
         (mask : option (ndarray R)),
       dropout_param !! "mode" = None ->
       dropout_backward dout (dropout_param, mask) = Raise (KeyError "mode")).
Proof.
  repeat apply conj.
  - intros x gamma beta bn Hm. unfold batchnorm_forward, dict_item.
    now rewrite Hm.
  - intros x gamma beta bn N C H W Hx Hm. unfold spatial_batchnorm_forward.
    rewrite Hx. cbn [unpack4 mbind result_bind bind].
    destruct (np_transpose_0231_shape x N C H W Hx) as (xt & -> & Hxt & _).
    cbn [mbind result_bind bind].
    rewrite np_reshape_ok by (rewrite Hxt; simpl; ring).
    cbn [mbind result_bind bind].
    unfold batchnorm_forward, dict_item. now rewrite Hm.
  - intros G x dp g Hp. unfold dropout_forward, dict_item. now rewrite Hp.
  - intros G x dp g [p Hp] Hm. unfold dropout_forward, dict_item.
    now rewrite Hp, Hm.
  - intros dout dp mask Hm. unfold dropout_backward, dict_item.
    now rewrite Hm.
Qed.

Lemma missing_key_raises_witness :
  batchnorm_forward mat1 vec1 vec0 ∅ = Raise (KeyError "mode")
  /\ spatial_batchnorm_forward img1 vec1 vec0 ∅ = Raise (KeyError "mode")
  /\ dropout_forward zero_generator vec34 ∅ tt = Raise (KeyError "p")
  /\ dropout_forward zero_generator vec34 {["p" := PFloat (1 / 2)]} tt
     = Raise (KeyError "mode")
  /\ dropout_backward vec34 (∅, None) = Raise (KeyError "mode").
Proof.
  destruct missing_key_raises as (H1 & H2 & H3 & H4 & H5).
  repeat apply conj.
  - apply H1. reflexivity.
  - apply (H2 img1 vec1 vec0 ∅ 1 1 1 1); reflexivity.
  - apply H3. reflexivity.
  - apply H4; [eexists|]; reflexivity.
  - apply H5. reflexivity.
Defined.

(* ================================================================= *)
(** ** Batch normalization: the cache of a test-mode call *)

(** X8.  A test-mode forward call returns no cache, so a backward pass cannot
    follow it: on that cache both vanilla backward passes, and the spatial
    one, fail to unpack [None] and raise [TypeError]. *)
Theorem batchnorm_backward_after_test (x gamma beta : ndarray R)
    (bn_param : gmap string pyval) (N D : nat) (eps mom : R)
    (rm rv : ndarray R) :
  shape x = [N; D] -> shape gamma = [D] -> shape beta = [D] ->
  bn_param !! "mode" = Some (PStr "test") ->
  bn_config bn_param D eps mom rm rv ->
  exists out cache bn_param',
    batchnorm_forward x gamma beta bn_param = Ok (out, cache, bn_param')
    /\ cache = None
    /\ (forall dout,
          batchnorm_backward dout cache
          = Raise (TypeError "cannot unpack non-iterable NoneType object")
          /\ batchnorm_backward_alt dout cache
             = Raise (TypeError "cannot unpack non-iterable NoneType object"))
    /\ (forall dout n c h w, shape dout = [n; c; h; w] ->
          spatial_batchnorm_backward dout cache
          = Raise (TypeError "cannot unpack non-iterable NoneType object")).
Proof.
  intros Hx Hg Hb Hm Hcfg.
  rewrite (batchnorm_forward_test x gamma beta bn_param N D eps mom rm rv)
    by assumption.
  do 3 eexists. split; [reflexivity|]. split; [reflexivity|]. split.
  - intros dout. split; reflexivity.
  - intros dout n c h w Hd. unfold spatial_batchnorm_backward.
    rewrite Hd. cbn [unpack4 mbind result_bind bind].
    destruct (np_transpose_0231_shape dout n c h w Hd) as (dt & -> & Hdt & _).
    cbn [mbind result_bind bind].
    rewrite np_reshape_ok by (rewrite Hdt; simpl; ring).
    reflexivity.
Qed.

Lemma batchnorm_backward_after_test_witness :
  exists out cache bn_param',
    batchnorm_forward mat1 vec1 vec0 bn_test_param
    = Ok (out, cache, bn_param')
    /\ cache = None
    /\ (forall dout,
          batchnorm_backward dout cache
          = Raise (TypeError "cannot unpack non-iterable NoneType object")
          /\ batchnorm_backward_alt dout cache
             = Raise (TypeError "cannot unpack non-iterable NoneType object"))
    /\ (forall dout n c h w, shape dout = [n; c; h; w] ->
          spatial_batchnorm_backward dout cache
          = Raise (TypeError "cannot unpack non-iterable NoneType object")).
Proof.
  apply (batchnorm_backward_after_test mat1 vec1 vec0 bn_test_param
           1 1 (1 / 100000) (9 / 10) (np_zeros [1]) (np_zeros [1]));
    try reflexivity.
  repeat split.
Defined.

(* ================================================================= *)
(** ** Batch normalization in training mode: statistics and gradients *)

Lemma sum_upto_plus (n : nat) (f g : nat -> R) :
  sum_upto n (fun i => f i + g i)%R = (sum_upto n f + sum_upto n g)%R.
Proof. induction n as [|n IH]; simpl; [ring | rewrite IH; ring]. Qed.

Lemma sum_upto_const (n : nat) (c : R) :
  sum_upto n (fun _ => c) = (INR n * c)%R.
Proof.
  induction n as [|n IH]; [simpl; ring|].
  rewrite S_INR. simpl. rewrite IH. ring.
Qed.



(** X10.  A training-mode call stores the exponentially decayed statistics,
    [momentum * running + (1 - momentum) * batch statistic], touches no
    other key, and leaves a configuration that is again well-typed, with
    the same [eps], [momentum] and mode: the next call finds what it
    needs. *)
Theorem batchnorm_forward_train_running (x gamma beta : ndarray R)
    (bn_param : gmap string pyval) (N D : nat) (eps mom : R)
    (rm rv : ndarray R) :
  shape x = [N; D] -> shape gamma = [D] -> shape beta = [D] ->
  0 < N ->
  bn_param !! "mode" = Some (PStr "train") ->
  bn_config bn_param D eps mom rm rv ->
  exists out cache bn_param' rm' rv',
    batchnorm_forward x gamma beta bn_param = Ok (out, cache, bn_param')
    /\ bn_param' !! "running_mean" = Some (PArr rm')
    /\ bn_param' !! "running_var" = Some (PArr rv')
    /\ bn_config bn_param' D eps mom rm' rv'
    /\ (forall j, j < D ->
          get rm' [j] = (mom * get rm [j] + (1 - mom) * batch_mean x N j)%R
          /\ get rv' [j] = (mom * get rv [j] + (1 - mom) * batch_var x N j)%R)
    /\ (forall k, k <> "running_mean" -> k <> "running_var" ->
          bn_param' !! k = bn_param !! k).
Proof.
  intros Hx Hg Hb HN Hm Hcfg.
  rewrite (batchnorm_forward_train x gamma beta bn_param N D eps mom rm rv)
    by assumption.
  destruct Hcfg as (He & Hmom & Hrm & Hrv & Hsrm & Hsrv).
  do 5 eexists. split; [reflexivity|].
  split; [rewrite lookup_insert_ne by discriminate; apply lookup_insert_eq|].
  split; [apply lookup_insert_eq|].
  split; [|split].
  - unfold bn_config.
    rewrite (lookup_insert_ne _ "running_var" "eps") by discriminate.
    rewrite (lookup_insert_ne _ "running_mean" "eps") by discriminate.
    rewrite (lookup_insert_ne _ "running_var" "momentum") by discriminate.
    rewrite (lookup_insert_ne _ "running_mean" "momentum") by discriminate.
    rewrite (lookup_insert_ne _ "running_var" "running_mean")
      by discriminate.
    rewrite !lookup_insert_eq. cbn [default].
    repeat split; assumption.
  - intros j Hj.
    rewrite !get_tabulate by (cbn [in_bounds]; lia).
    split; reflexivity.
  - intros k Hk1 Hk2.
    rewrite lookup_insert_ne by congruence.
    now rewrite lookup_insert_ne by congruence.
Qed.

Lemma batchnorm_forward_train_running_witness :
  exists out cache bn_param' rm' rv',
    batchnorm_forward mat1 vec1 vec0 bn_train_param
    = Ok (out, cache, bn_param')
    /\ bn_param' !! "running_mean" = Some (PArr rm')
    /\ bn_param' !! "running_var" = Some (PArr rv')
    /\ bn_config bn_param' 1 (1 / 100000) (9 / 10) rm' rv'
    /\ (forall j, j < 1 ->
          get rm' [j]
          = (9 / 10 * get vec0 [j] + (1 - 9 / 10) * batch_mean mat1 1 j)%R
          /\ get rv' [j]
             = (9 / 10 * get vec0 [j] + (1 - 9 / 10) * batch_var mat1 1 j)%R)
    /\ (forall k, k <> "running_mean" -> k <> "running_var" ->
          bn_param' !! k = bn_train_param !! k).
Proof.
  apply (batchnorm_forward_train_running mat1 vec1 vec0 bn_train_param
           1 1 (1 / 100000) (9 / 10) vec0 vec0);
    try reflexivity.
  - lia.
  - repeat split.
Defined.



(* ================================================================= *)
(** ** Affine layer: values and errors *)

Lemma np_reshape_rows_ok (x : ndarray R) (N D : nat) (ds : list nat) :
  shape x = N :: ds -> size_of ds = D -> 0 < N ->
  np_reshape_rows x = Ok (mk_nd [N; D] (data x)).
Proof.
  intros Hx HD HN. unfold np_reshape_rows. rewrite Hx.
  cbn [shape0 mbind result_bind bind].
  destruct (Nat.eqb_spec N 0) as [->|_]; [lia|].
  cbn [size_of fold_right]. fold (size_of ds). rewrite HD.
  rewrite (Nat.mul_comm N D), Nat.div_mul by lia. reflexivity.
Qed.

Lemma np_dot_mm_ok (a b : ndarray R) (n k m : nat) :
  shape a = [n; k] -> shape b = [k; m] ->
  np_dot a b
  = Ok (tabulate [n; m] (fun ix =>
          sum_upto k (fun l =>
            (get a [ix_at ix 0; l] * get b [l; ix_at ix 1])%R))).
Proof.
  intros Ea Eb. unfold np_dot. now rewrite Ea, Eb, Nat.eqb_refl.
Qed.

Lemma np_dot_mv_ok (a b : ndarray R) (n k : nat) :
  shape a = [n; k] -> shape b = [k] ->
  np_dot a b
  = Ok (tabulate [n] (fun ix =>
          sum_upto k (fun l => (get a [ix_at ix 0; l] * get b [l])%R))).
Proof.
  intros Ea Eb. unfold np_dot. now rewrite Ea, Eb, Nat.eqb_refl.
Qed.

Lemma get_np_T2 (a : ndarray R) (n m i j : nat) :
  shape a = [n; m] -> i < m -> j < n -> get (np_T a) [i; j] = get a [j; i].
Proof.
  intros Ea Hi Hj. unfold np_T. rewrite Ea.
  now rewrite get_tabulate by (cbn [rev app in_bounds]; lia).
Qed.

(** X12.  The forward pass of the affine layer flattens every example of the
    batch into a row and returns [x.reshape(N, D) . w + b]: an (N, M) array
    whose element [(i, j)] is the dot product of row [i] of the flattened
    input with column [j] of [w], plus [b[j]].  The cache is the triple of
    the arguments, the input unflattened. *)
Theorem affine_forward_values (x w b : ndarray R) (N D M : nat)
    (ds : list nat) :
  shape x = N :: ds -> size_of ds = D -> 0 < N ->
  shape w = [D; M] -> shape b = [M] ->
  let X := mk_nd [N; D] (data x) in
  exists out,
    affine_forward x w b = Ok (out, (x, w, b))
    /\ shape out = [N; M]
    /\ forall i j, i < N -> j < M ->
         get out [i; j]
         = (sum_upto D (fun k => get X [i; k] * get w [k; j]) + get b [j])%R.
Proof.
  intros Hx HD HN Hw Hb X. unfold affine_forward.
  rewrite (np_reshape_rows_ok x N D ds Hx HD HN). fold X.
  cbn [mbind result_bind bind].
  rewrite (np_dot_mm_ok X w N D M eq_refl Hw).
  cbn [mbind result_bind bind].
  unfold np_add. rewrite (np_binop_row Rplus _ b N M) by (first [reflexivity | exact Hb]).
  cbn [mbind result_bind bind].
  eexists. split; [reflexivity|]. split; [reflexivity|].
  intros i j Hi Hj.
  rewrite !get_tabulate by (cbn [in_bounds]; lia).
  reflexivity.
Qed.

Lemma affine_forward_values_witness :
  exists out,
    affine_forward mat1 mat1 vec1 = Ok (out, (mat1, mat1, vec1))
    /\ shape out = [1; 1]
    /\ forall i j, i < 1 -> j < 1 ->
         get out [i; j]
         = (sum_upto 1 (fun k => get mat1 [i; k] * get mat1 [k; j])
            + get vec1 [j])%R.
Proof.
  apply (affine_forward_values mat1 mat1 vec1 1 1 1 [1]);
    first [reflexivity | lia].
Defined.

(** X13.  The forward pass of the affine layer raises [ValueError] on an empty
    batch (the size of the flattened rows cannot be inferred from no
    element), and on weights whose number of rows is not the size of an
    example. *)
Theorem affine_forward_errors (x w b : ndarray R) :
  (forall ds, shape x = 0 :: ds ->
     exists msg, affine_forward x w b = Raise (ValueError msg))
  /\ (forall N ds D' M, shape x = N :: ds -> 0 < N ->
        shape w = [D'; M] -> D' <> size_of ds ->
        exists msg, affine_forward x w b = Raise (ValueError msg)).
Proof.
  split.
  - intros ds Hx. unfold affine_forward, np_reshape_rows. rewrite Hx.
    eexists. reflexivity.
  - intros N ds D' M Hx HN Hw Hne. unfold affine_forward.
    rewrite (np_reshape_rows_ok x N (size_of ds) ds Hx eq_refl HN).
    cbn [mbind result_bind bind]. unfold np_dot. cbn [shape]. rewrite Hw.
    destruct (Nat.eqb_spec (size_of ds) D') as [E|_]; [congruence|].
    eexists. reflexivity.
Qed.

Lemma affine_forward_errors_witness :
  (exists msg,
     affine_forward (np_zeros [0; 3]) mat1 vec1 = Raise (ValueError msg))
  /\ (exists msg,
        affine_forward mat1 (tenths [3; 4]) vec1 = Raise (ValueError msg)).
Proof.
  destruct (affine_forward_errors (np_zeros [0; 3]) mat1 vec1) as [H1 _].
  destruct (affine_forward_errors mat1 (tenths [3; 4]) vec1) as [_ H2].
  split.
  - apply (H1 [3]). reflexivity.
  - apply (H2 1 [1] 3 4); first [reflexivity | lia | discriminate].
Defined.

(** X14.  The backward pass of the affine layer: dx is [dout . w^T] under the
    shape of the input, dw is [x.reshape(N, D)^T . dout] and db is the
    column sum of [dout]. *)
Theorem affine_backward_values (dout x w b : ndarray R) (N D M : nat)
    (ds : list nat) :
  shape x = N :: ds -> size_of ds = D ->
  shape w = [D; M] -> shape b = [M] -> shape dout = [N; M] ->
  let X := mk_nd [N; D] (data x) in
  exists dx dw db,
    affine_backward dout (x, w, b) = Ok (dx, dw, db)
    /\ shape dx = shape x /\ shape dw = [D; M] /\ shape db = [M]
    /\ (forall i k, i < N -> k < D ->
          get (mk_nd [N; D] (data dx)) [i; k]
          = sum_upto M (fun j => get dout [i; j] * get w [k; j])%R)
    /\ (forall k j, k < D -> j < M ->
          get dw [k; j]
          = sum_upto N (fun i => get X [i; k] * get dout [i; j])%R)
    /\ (forall j, j < M ->
          get db [j] = sum_upto N (fun i => get dout [i; j])).
Proof.
  intros Hx HD Hw Hb Hd X. unfold affine_backward.
  rewrite (np_dot_mm_ok dout (np_T w) N M D Hd)
    by (now rewrite shape_np_T, Hw).
  cbn [mbind result_bind bind].
  rewrite np_reshape_ok by (rewrite shape_tabulate, Hx; simpl; lia).
  cbn [mbind result_bind bind].
  rewrite np_reshape_ok by (rewrite shape_tabulate, Hx; simpl; lia).
  cbn [mbind result_bind bind]. rewrite shape_tabulate. fold X.
  rewrite (np_dot_mm_ok (np_T X) dout D N M eq_refl Hd).
  cbn [mbind result_bind bind].
  rewrite Hx. cbn [shape0 mbind result_bind bind].
  rewrite (np_dot_mv_ok (np_T dout) (np_ones [N]) M N)
    by (first [now rewrite shape_np_T, Hd | reflexivity]).
  cbn [mbind result_bind bind].
  do 3 eexists. split; [reflexivity|].
  split; [reflexivity|]. split; [reflexivity|]. split; [reflexivity|].
  repeat split.
  - intros i k Hi Hk. cbn [data].
    match goal with
    | |- get (mk_nd _ (data ?t)) _ = _ =>
        replace (mk_nd [N; D] (data t)) with t by reflexivity
    end.
    rewrite get_tabulate by (cbn [in_bounds]; lia). cbn [ix_at nth].
    apply sum_upto_ext. intros j Hj.
    now rewrite (get_np_T2 w D M) by assumption.
  - intros k j Hk Hj.
    rewrite get_tabulate by (cbn [in_bounds]; lia). cbn [ix_at nth].
    apply sum_upto_ext. intros i Hi.
    now rewrite (get_np_T2 X N D) by (first [reflexivity | assumption]).
  - intros j Hj.
    rewrite get_tabulate by (cbn [in_bounds]; lia). cbn [ix_at nth].
    apply sum_upto_ext. intros i Hi.
    rewrite (get_np_T2 dout N M) by assumption.
    rewrite get_np_ones by (cbn [in_bounds]; lia). ring.
Qed.

Lemma affine_backward_values_witness :
  exists dx dw db,
    affine_backward mat1 (mat1, mat1, vec1) = Ok (dx, dw, db)
    /\ shape dx = shape mat1 /\ shape dw = [1; 1] /\ shape db = [1]
    /\ (forall i k, i < 1 -> k < 1 ->
          get (mk_nd [1; 1] (data dx)) [i; k]
          = sum_upto 1 (fun j => get mat1 [i; j] * get mat1 [k; j])%R)
    /\ (forall k j, k < 1 -> j < 1 ->
          get dw [k; j]
          = sum_upto 1 (fun i => get mat1 [i; k] * get mat1 [i; j])%R)
    /\ (forall j, j < 1 ->
          get db [j] = sum_upto 1 (fun i => get mat1 [i; j])).
Proof.
  apply (affine_backward_values mat1 mat1 mat1 vec1 1 1 1 [1]);
    reflexivity.
Defined.

(* ================================================================= *)
(** ** Convolution and pooling: strides and sizes *)

(** X15.  A stride of 0 is not rejected by a check of its own: on 4-dimensional
    inputs, the two passes of the convolution and the two passes of max
    pooling stop at the division that computes the output height and raise
    [ZeroDivisionError]. *)
Theorem stride_zero_raises :
  (forall (x w b dout : ndarray R) (conv_param : gmap string nat)
       (N C H W F C' HH WW : nat),
     shape x = [N; C; H; W] -> shape w = [F; C'; HH; WW] ->
     conv_param !! "stride" = Some 0 ->
     conv_forward_naive x w b conv_param
     = Raise (ZeroDivisionError "division by zero")
     /\ conv_backward_naive dout (x, w, b, conv_param)
        = Raise (ZeroDivisionError "division by zero"))
  /\ (forall (x out dout : ndarray R) (pool_param : gmap string nat)
         (N C H W : nat),
       shape x = [N; C; H; W] ->
       pool_param !! "stride" = Some 0 ->
       max_pool_forward_naive x pool_param
       = Raise (ZeroDivisionError "division by zero")
       /\ max_pool_backward_naive dout (x, out, pool_param)
          = Raise (ZeroDivisionError "division by zero")).
Proof.
  split.
  - intros x w b dout cp N C H W F C' HH WW Hx Hw Hs.
    unfold conv_forward_naive, conv_backward_naive.
    rewrite Hx, Hw, Hs. cbn [unpack4 mbind result_bind bind default].
    destruct (np_pad23_ok x (default 0 (cp !! "pad")) N C H W Hx)
      as (xp & -> & _).
    split; reflexivity.
  - intros x out dout pp N C H W Hx Hs.
    unfold max_pool_forward_naive, max_pool_backward_naive.
    rewrite Hx, Hs. split; reflexivity.
Qed.

Lemma stride_zero_raises_witness :
  (conv_forward_naive img1 img1 vec0 {["stride" := 0]}
   = Raise (ZeroDivisionError "division by zero")
   /\ conv_backward_naive img1 (img1, img1, vec0, {["stride" := 0]})
      = Raise (ZeroDivisionError "division by zero"))
  /\ (max_pool_forward_naive img1 {["stride" := 0]}
      = Raise (ZeroDivisionError "division by zero")
      /\ max_pool_backward_naive img1 (img1, img1, {["stride" := 0]})
         = Raise (ZeroDivisionError "division by zero")).
Proof.
  destruct stride_zero_raises as [Hc Hp]. split.
  - apply (Hc img1 img1 vec0 img1 {["stride" := 0]} 1 1 1 1 1 1 1 1);
      reflexivity.
  - apply (Hp img1 img1 img1 {["stride" := 0]} 1 1 1 1); reflexivity.
Defined.

Lemma out_size_floor (a HH s : nat) :
  s <> 0 -> HH < a + s ->
  Z.quot (Z.of_nat a - Z.of_nat HH + Z.of_nat s) (Z.of_nat s)
  = Z.of_nat ((a + s - HH) / s).
Proof.
  intros Hs Hlt.
  replace (Z.of_nat a - Z.of_nat HH + Z.of_nat s)%Z
    with (Z.of_nat (a + s - HH)) by lia.
  rewrite Z.quot_div_nonneg by lia.
  now rewrite Nat2Z.inj_div.
Qed.

(** X16.  The forward pass of the convolution does not need a stride that fits:
    whenever the filter is smaller than the padded input plus the stride,
    it returns an output of [(H + 2 pad - HH + stride) // stride] rows and
    [(W + 2 pad - WW + stride) // stride] columns.  The positions left
    over by the stride are not visited, and a filter larger than the
    padded input (by less than the stride) gives an output with no
    element instead of an error. *)
Theorem conv_forward_output_shape_floor (x w b : ndarray R)
    (conv_param : gmap string nat) (N C H W F HH WW : nat) :
  shape x = [N; C; H; W] -> shape w = [F; C; HH; WW] -> shape b = [F] ->
  let stride := default 1 (conv_param !! "stride") in
  let pad := default 0 (conv_param !! "pad") in
  stride <> 0 ->
  HH < H + 2 * pad + stride -> WW < W + 2 * pad + stride ->
  exists out cache,
    conv_forward_naive x w b conv_param = Ok (out, cache)
    /\ shape out = [N; F; (H + 2 * pad + stride - HH) / stride;
                          (W + 2 * pad + stride - WW) / stride]
    /\ (H + 2 * pad < HH \/ W + 2 * pad < WW -> data out = []).
Proof.
  intros Hx Hw Hb stride pad Hs HltH HltW.
  assert (EH : Z.quot (Z.of_nat H + 2 * Z.of_nat pad - Z.of_nat HH
                       + Z.of_nat stride) (Z.of_nat stride)
               = Z.of_nat ((H + 2 * pad + stride - HH) / stride)).
  { rewrite <- (out_size_floor (H + 2 * pad) HH stride Hs HltH).
    f_equal. lia. }
  assert (EW : Z.quot (Z.of_nat W + 2 * Z.of_nat pad - Z.of_nat WW
                       + Z.of_nat stride) (Z.of_nat stride)
               = Z.of_nat ((W + 2 * pad + stride - WW) / stride)).
  { rewrite <- (out_size_floor (W + 2 * pad) WW stride Hs HltW).
    f_equal. lia. }
  destruct (conv_forward_shape x w b conv_param N C H W F HH WW Hx Hw Hb)
    as (out & E & Hsh & Hwf).
  - exact Hs.
  - fold stride pad. rewrite EH. lia.
  - fold stride pad. rewrite EW. lia.
  - fold stride pad in Hsh. rewrite EH, EW, !Nat2Z.id in Hsh.
    exists out, (x, w, b, conv_param). split; [exact E|].
    split; [exact Hsh|].
    intros Hsmall. apply length_zero_iff_nil. rewrite Hwf, Hsh.
    cbn [size_of fold_right].
    destruct Hsmall as [Hsm|Hsm].
    + rewrite (Nat.div_small (H + 2 * pad + stride - HH)) by lia. lia.
    + rewrite (Nat.div_small (W + 2 * pad + stride - WW)) by lia. lia.
Qed.

Lemma conv_forward_output_shape_floor_witness :
  (exists out cache,
     conv_forward_naive (tenths [1; 1; 5; 5]) (tenths [1; 1; 2; 2]) vec0
       stride2 = Ok (out, cache)
     /\ shape out = [1; 1; 2; 2])
  /\ (exists out cache,
        conv_forward_naive img1 (tenths [1; 1; 2; 2]) vec0 stride2
        = Ok (out, cache)
        /\ shape out = [1; 1; 0; 0] /\ data out = []).
Proof.
  split.
  - destruct (conv_forward_output_shape_floor (tenths [1; 1; 5; 5])
                (tenths [1; 1; 2; 2]) vec0 stride2 1 1 5 5 1 2 2
                eq_refl eq_refl eq_refl)
      as (out & cache & E & Hsh & _).
    + discriminate.
    + change (default 0 (stride2 !! "pad")) with 0.
      change (default 1 (stride2 !! "stride")) with 2. lia.
    + change (default 0 (stride2 !! "pad")) with 0.
      change (default 1 (stride2 !! "stride")) with 2. lia.
    + exists out, cache. split; [exact E | exact Hsh].
  - destruct (conv_forward_output_shape_floor img1
                (tenths [1; 1; 2; 2]) vec0 stride2 1 1 1 1 1 2 2
                eq_refl eq_refl eq_refl)
      as (out & cache & E & Hsh & Hempty).
    + discriminate.
    + change (default 0 (stride2 !! "pad")) with 0.
      change (default 1 (stride2 !! "stride")) with 2. lia.
    + change (default 0 (stride2 !! "pad")) with 0.
      change (default 1 (stride2 !! "stride")) with 2. lia.
    + exists out, cache. split; [exact E|]. split; [exact Hsh|].
      apply Hempty. left.
      change (default 0 (stride2 !! "pad")) with 0. lia.
Defined.

(* ================================================================= *)
(** ** Max pooling: the forward pass *)

(** X17.  The forward pass of max pooling returns, for every window that fits
    in the input, the greatest element of the window: one of its elements,
    and at least every one of them.  The cache holds the output beside the
    input and the configuration. *)
Theorem max_pool_forward_maximum (x : ndarray R)
    (pool_param : gmap string nat) (N C H W : nat) :
  shape x = [N; C; H; W] ->
  let HH := default H (pool_param !! "pool_height") in
  let WW := default W (pool_param !! "pool_width") in
  let stride := default 1 (pool_param !! "stride") in
  let h1 := (H - HH) / stride + 1 in
  let w1 := (W - WW) / stride + 1 in
  stride <> 0 -> 0 < HH <= H -> 0 < WW <= W ->
  exists out,
    max_pool_forward_naive x pool_param = Ok (out, (x, out, pool_param))
    /\ shape out = [N; C; h1; w1]
    /\ forall n c i j, n < N -> c < C -> i < h1 -> j < w1 ->
         stride * i + HH <= H /\ stride * j + WW <= W
         /\ (exists a b, a < HH /\ b < WW
               /\ get out [n; c; i; j]
                  = get x [n; c; stride * i + a; stride * j + b])
         /\ (forall a b, a < HH -> b < WW ->
               Rle (get x [n; c; stride * i + a; stride * j + b])
                   (get out [n; c; i; j])).
Proof.
  intros Hx HH WW stride h1 w1 Hs HHH HWW.
  destruct (max_pool_forward_ok x pool_param N C H W Hx Hs HHH HWW)
    as (out & E & Hsh & Hval).
  exists out. split; [exact E|]. split; [exact Hsh|].
  intros n c i j Hn Hc Hi Hj.
  fold HH WW stride in Hval. rewrite (Hval n c i j) by assumption.
  destruct (pool_window_maximum x stride HH WW n c i j) as [Hmem Hub];
    try lia.
  split; [|split; [|split; assumption]].
  - unfold h1 in Hi. pose proof (Nat.Div0.mul_div_le (H - HH) stride).
    assert (i <= (H - HH) / stride) by lia. nia.
  - unfold w1 in Hj. pose proof (Nat.Div0.mul_div_le (W - WW) stride).
    assert (j <= (W - WW) / stride) by lia. nia.
Qed.

Lemma max_pool_forward_maximum_witness :
  exists out,
    max_pool_forward_naive row152 pool12 = Ok (out, (row152, out, pool12))
    /\ shape out = [1; 1; 1; 2].
Proof.
  assert (Hs : default 1 (pool12 !! "stride") <> 0) by discriminate.
  assert (Hh : 0 < default 1 (pool12 !! "pool_height") <= 1)
    by (change (default 1 (pool12 !! "pool_height")) with 1; lia).
  assert (Hw : 0 < default 3 (pool12 !! "pool_width") <= 3)
    by (change (default 3 (pool12 !! "pool_width")) with 2; lia).
  destruct (max_pool_forward_maximum row152 pool12 1 1 1 3 eq_refl
              Hs Hh Hw) as (out & H1 & H2 & _).
  exists out. auto.
Defined.

(** X18.  Without ['pool_height'], ['pool_width'] and ['stride'] the pooling
    region is the whole image: the output has shape (N, C, 1, 1) and holds
    the greatest element of each image. *)
Theorem max_pool_forward_default_global (x : ndarray R)
    (pool_param : gmap string nat) (N C H W : nat) :
  shape x = [N; C; H; W] -> 0 < H -> 0 < W ->
  pool_param !! "pool_height" = None ->
  pool_param !! "pool_width" = None ->
  pool_param !! "stride" = None ->
  exists out cache,
    max_pool_forward_naive x pool_param = Ok (out, cache)
    /\ shape out = [N; C; 1; 1]
    /\ forall n c, n < N -> c < C ->
         (exists h w, h < H /\ w < W
            /\ get out [n; c; 0; 0] = get x [n; c; h; w])
         /\ (forall h w, h < H -> w < W ->
               Rle (get x [n; c; h; w]) (get out [n; c; 0; 0])).
Proof.
  intros Hx HH0 HW0 Eh Ew Es.
  destruct (max_pool_forward_ok x pool_param N C H W Hx)
    as (out & E & Hsh & Hval); rewrite ?Eh, ?Ew, ?Es; cbn [default];
    try lia.
  rewrite Eh, Ew, Es in Hsh, Hval. cbn [default] in Hsh, Hval.
  rewrite !Nat.sub_diag in Hsh, Hval.
  change (0 / 1 + 1) with 1 in Hsh, Hval.
  exists out, (x, out, pool_param). split; [exact E|]. split; [exact Hsh|].
  intros n c Hn Hc. rewrite (Hval n c 0 0) by lia.
  destruct (pool_window_maximum x 1 H W n c 0 0 HH0 HW0) as [Hmem Hub].
  cbn [Nat.mul Nat.add] in Hmem, Hub. split; assumption.
Qed.

Lemma max_pool_forward_default_global_witness :
  exists out cache,
    max_pool_forward_naive row152 ∅ = Ok (out, cache)
    /\ shape out = [1; 1; 1; 1]
    /\ forall n c, n < 1 -> c < 1 ->
         (exists h w, h < 1 /\ w < 3
            /\ get out [n; c; 0; 0] = get row152 [n; c; h; w])
         /\ (forall h w, h < 1 -> w < 3 ->
               Rle (get row152 [n; c; h; w]) (get out [n; c; 0; 0])).
Proof.
  apply (max_pool_forward_default_global row152 ∅ 1 1 1 3);
    first [reflexivity | lia].
Defined.

(* ================================================================= *)
(** ** Convolution: the values of the output *)

Lemma sum_upto_app (a b : nat) (g : nat -> R) :
  sum_upto (a + b) g = (sum_upto a g + sum_upto b (fun r => g (a + r)%nat))%R.
Proof.
  induction b as [|b IH].
  - rewrite Nat.add_0_r. simpl. ring.
  - rewrite Nat.add_succ_r. simpl. rewrite IH. ring.
Qed.

Lemma sum_upto_mul (d m : nat) (g : nat -> R) :
  sum_upto (d * m) g
  = sum_upto d (fun i => sum_upto m (fun r => g (i * m + r))).
Proof.
  induction d as [|d IH]; [reflexivity|].
  replace (S d * m) with (d * m + m) by lia.
  rewrite sum_upto_app, IH. reflexivity.
Qed.

(** A sum over the row-major positions of a shape is the nested sum over
    its axes. *)
Lemma sum_upto_unravel (sh : list nat) (f : list nat -> R) :
  sum_upto (size_of sh) (fun k => f (unravel sh k)) = sum_over sh f.
Proof.
  revert f. induction sh as [|d sh IH]; intros f.
  - simpl. ring.
  - cbn [size_of fold_right sum_over unravel]. fold (size_of sh).
    rewrite sum_upto_mul. apply sum_upto_ext. intros i Hi.
    rewrite <- IH. apply sum_upto_ext. intros r Hr.
    assert (Hs : size_of sh <> 0) by lia.
    rewrite Nat.div_add_l by exact Hs.
    rewrite (Nat.div_small r) by exact Hr.
    rewrite (Nat.add_comm (i * size_of sh) r), Nat.Div0.mod_add.
    rewrite Nat.mod_small by exact Hr.
    now rewrite Nat.add_0_r.
Qed.

Lemma in_bounds3_inv (ix : list nat) (a b c : nat) :
  in_bounds ix [a; b; c] ->
  exists i j k, ix = [i; j; k] /\ i < a /\ j < b /\ k < c.
Proof.
  destruct ix as [|i [|j [|k [|? ?]]]]; simpl; try tauto.
  intros (Hi & Hj & Hk & _). eauto 10.
Qed.

(** Element [(i, d)] of [t.reshape(n, D)] is element [d], in row-major
    order, of the sub-array [t[i]]. *)
Lemma get_reshape_rows (t : ndarray R) (n D i d : nat) (sh : list nat) :
  shape t = n :: sh -> size_of sh = D -> d < D ->
  get (mk_nd [n; D] (data t)) [i; d] = get t (i :: unravel sh d).
Proof.
  intros Ht HD Hd. unfold get. cbn [shape data]. rewrite Ht. f_equal.
  cbn [ravel size_of fold_right]. fold (size_of sh).
  rewrite ravel_unravel by lia. subst D. lia.
Qed.

Lemma np_pad23_values (a : ndarray R) (pad N C H W : nat) :
  shape a = [N; C; H; W] ->
  np_pad23 a pad
  = Ok (tabulate [N; C; H + 2 * pad; W + 2 * pad] (fun ix =>
          padded a pad H W (ix_at ix 0) (ix_at ix 1) (ix_at ix 2)
            (ix_at ix 3))).
Proof. intros E. unfold np_pad23. now rewrite E. Qed.

Lemma window_fits (a HH s i : nat) :
  s <> 0 -> i < (a + s - HH) / s -> s * i + HH <= a.
Proof.
  intros Hs Hi. pose proof (Nat.Div0.mul_div_le (a + s - HH) s).
  assert (i + 1 <= (a + s - HH) / s) by lia. nia.
Qed.

(** The forward pass of the convolution, element by element. *)
Lemma conv_forward_ok (x w b : ndarray R) (conv_param : gmap string nat)
    (N C H W F HH WW : nat) :
  shape x = [N; C; H; W] -> shape w = [F; C; HH; WW] -> shape b = [F] ->
  let stride := default 1 (conv_param !! "stride") in
  let pad := default 0 (conv_param !! "pad") in
  let h1 := (H + 2 * pad + stride - HH) / stride in
  let w1 := (W + 2 * pad + stride - WW) / stride in
  stride <> 0 ->
  HH < H + 2 * pad + stride -> WW < W + 2 * pad + stride ->
  exists out,
    conv_forward_naive x w b conv_param = Ok (out, (x, w, b, conv_param))
    /\ shape out = [N; F; h1; w1]
    /\ forall n f i j, n < N -> f < F -> i < h1 -> j < w1 ->
         get out [n; f; i; j]
         = (sum_over [C; HH; WW] (fun ix =>
              padded x pad H W n (ix_at ix 0)
                (stride * i + ix_at ix 1) (stride * j + ix_at ix 2)
              * get w (f :: ix))
            + get b [f])%R.
Proof.
  intros Hx Hw Hb stride pad h1 w1 Hs HltH HltW.
  unfold conv_forward_naive. rewrite Hx, Hw.
  cbn [unpack4 mbind result_bind bind].
  fold stride pad.
  rewrite (np_pad23_values x pad N C H W Hx).
  cbn [mbind result_bind bind].
  set (xp := tabulate [N; C; H + 2 * pad; W + 2 * pad] _).
  assert (Hxp : shape xp = [N; C; H + 2 * pad; W + 2 * pad]) by reflexivity.
  unfold out_size. rewrite (proj2 (Nat.eqb_neq stride 0) Hs).
  cbn [mbind result_bind bind].
  assert (EH : Z.quot (Z.of_nat H + 2 * Z.of_nat pad - Z.of_nat HH
                       + Z.of_nat stride) (Z.of_nat stride)
               = Z.of_nat h1).
  { unfold h1. rewrite <- (out_size_floor (H + 2 * pad) HH stride Hs HltH).
    f_equal. lia. }
  assert (EW : Z.quot (Z.of_nat W + 2 * Z.of_nat pad - Z.of_nat WW
                       + Z.of_nat stride) (Z.of_nat stride)
               = Z.of_nat w1).
  { unfold w1. rewrite <- (out_size_floor (W + 2 * pad) WW stride Hs HltW).
    f_equal. lia. }
  rewrite EH, EW.
  unfold np_zeros_int. cbn [forallb].
  rewrite !(proj2 (Z.leb_le 0 _)) by lia. cbn [andb map].
  cbn [mbind result_bind bind]. rewrite !Nat2Z.id.
  rewrite np_reshape_ok by (rewrite Hw; simpl; ring).
  cbn [mbind result_bind bind].
  set (D := C * HH * WW).
  set (wrT := mk_nd [F; D] (data w)).
  set (V := fun n f i j =>
              (sum_over [C; HH; WW] (fun ix =>
                 padded x pad H W n (ix_at ix 0)
                   (stride * i + ix_at ix 1) (stride * j + ix_at ix 2)
                 * get w (f :: ix))
               + get b [f])%R).
  assert (HD : size_of [C; HH; WW] = D) by (unfold D; simpl; ring).
  set (P := fun (k : nat) (out : ndarray R) =>
              shape out = [N; F; h1; w1]
              /\ forall n f i j, n < N -> f < F -> i < k -> j < w1 ->
                   get out [n; f; i; j] = V n f i j).
  match goal with
  | |- context [for_each (py_range ?n) ?body ?s] =>
      assert (Hloop : exists out, for_each (py_range n) body s = Ok out
                                  /\ P (Z.to_nat n) out);
      [ apply (for_each_range P)
      | destruct Hloop as (out & -> & Hout) ]
  end.
  - intros i out Hi [Hsh Hval]. rewrite Nat2Z.id in Hi.
    set (Q := fun (k : nat) (out : ndarray R) =>
                shape out = [N; F; h1; w1]
                /\ (forall n f i' j, n < N -> f < F -> i' < i -> j < w1 ->
                     get out [n; f; i'; j] = V n f i' j)
                /\ (forall n f j, n < N -> f < F -> j < k ->
                     get out [n; f; i; j] = V n f i j)).
    match goal with
    | |- context [for_each (py_range ?n) ?body ?s] =>
        assert (Hloop : exists out', for_each (py_range n) body s = Ok out'
                                     /\ Q (Z.to_nat n) out');
        [ apply (for_each_range Q)
        | destruct Hloop as (out' & -> & Hout') ]
    end.
    + intros j out' Hj (Hsh' & Hprev & Hrow). rewrite Nat2Z.id in Hj.
      pose proof (window_fits (H + 2 * pad) HH stride i Hs Hi) as Hi'.
      pose proof (window_fits (W + 2 * pad) WW stride j Hs Hj) as Hj'.
      rewrite (np_slice23_ok xp _ _ _ _ N C (H + 2 * pad) (W + 2 * pad))
        by (first [exact Hxp | lia]).
      cbn [mbind result_bind bind].
      replace (stride * i + HH - stride * i) with HH by lia.
      replace (stride * j + WW - stride * j) with WW by lia.
      set (xij := tabulate [N; C; HH; WW] _).
      rewrite (np_reshape_ok xij [N; D])
        by (unfold xij, D; rewrite shape_tabulate; simpl; ring).
      cbn [mbind result_bind bind].
      rewrite (np_dot_mm_ok (mk_nd [N; D] (data xij)) (np_T wrT) N D F
                 eq_refl eq_refl).
      cbn [mbind result_bind bind].
      unfold np_add.
      rewrite (np_binop_row Rplus _ b N F) by (first [reflexivity | exact Hb]).
      cbn [mbind result_bind bind].
      rewrite (np_set_ij_ok out' _ i j N F h1 w1 Hsh')
        by (first [reflexivity | lia]).
      eexists. split; [reflexivity|]. split; [reflexivity|]. split.
      * intros n f i' j' Hn Hf Hi'' Hj''.
        rewrite get_tabulate by (cbn [in_bounds]; lia).
        cbn [ix_at nth].
        destruct (Nat.eqb_spec i' i) as [->|_]; [lia|].
        cbn [andb]. now apply Hprev.
      * intros n f j' Hn Hf Hj''.
        rewrite get_tabulate by (cbn [in_bounds]; lia).
        cbn [ix_at nth]. rewrite Nat.eqb_refl. cbn [andb].
        destruct (Nat.eqb_spec j' j) as [->|Hne]; [|apply Hrow; lia].
        rewrite !get_tabulate by (cbn [in_bounds]; lia).
        cbn [ix_at nth]. unfold V. f_equal.
        rewrite <- sum_upto_unravel. rewrite HD.
        apply sum_upto_ext. intros l Hl.
        rewrite (get_reshape_rows xij N D n l [C; HH; WW])
          by (first [reflexivity | assumption]).
        rewrite (get_np_T2 wrT F D) by (first [reflexivity | assumption]).
        unfold wrT.
        rewrite (get_reshape_rows w F D f l [C; HH; WW])
          by (first [reflexivity | assumption]).
        pose proof (unravel_in_bounds [C; HH; WW] l ltac:(lia)) as Hb3.
        apply in_bounds3_inv in Hb3 as (c & a & b' & -> & Hc & Ha & Hb').
        cbn [ix_at nth]. f_equal.
        unfold xij. rewrite get_tabulate by (cbn [in_bounds]; lia).
        cbn [ix_at nth]. unfold xp.
        rewrite get_tabulate by (cbn [in_bounds]; lia).
        reflexivity.
    + split; [exact Hsh|]. split; [exact Hval|]. intros; lia.
    + rewrite Nat2Z.id in Hout'. destruct Hout' as (Hsh' & Hprev & Hrow).
      exists out'. split; [reflexivity|]. split; [exact Hsh'|].
      intros n f i' j Hn Hf Hi' Hj.
      destruct (Nat.eq_dec i' i) as [->|Hne]; [now apply Hrow|].
      apply Hprev; lia.
  - split; [reflexivity|]. intros; lia.
  - rewrite Nat2Z.id in Hout. destruct Hout as [Hsh Hval].
    cbn [mbind result_bind bind].
    exists out. split; [reflexivity|]. split; [exact Hsh|].
    intros. now apply Hval.
Qed.

(** X19.  The forward pass of the convolution computes a cross-correlation: the
    output at [(n, f, i, j)] is the sum, over the channels and the
    positions of the filter, of the zero-padded input under the window at
    [(stride * i, stride * j)] times filter [f], plus the bias [b[f]].
    Every window visited lies inside the padded frame. *)
Theorem conv_forward_values (x w b : ndarray R)
    (conv_param : gmap string nat) (N C H W F HH WW : nat) :
  shape x = [N; C; H; W] -> shape w = [F; C; HH; WW] -> shape b = [F] ->
  let stride := default 1 (conv_param !! "stride") in
  let pad := default 0 (conv_param !! "pad") in
  let h1 := (H + 2 * pad + stride - HH) / stride in
  let w1 := (W + 2 * pad + stride - WW) / stride in
  stride <> 0 ->
  HH < H + 2 * pad + stride -> WW < W + 2 * pad + stride ->
  exists out cache,
    conv_forward_naive x w b conv_param = Ok (out, cache)
    /\ shape out = [N; F; h1; w1]
    /\ forall n f i j, n < N -> f < F -> i < h1 -> j < w1 ->
         stride * i + HH <= H + 2 * pad
         /\ stride * j + WW <= W + 2 * pad
         /\ get out [n; f; i; j]
            = (sum_upto C (fun c => sum_upto HH (fun a => sum_upto WW (fun d =>
                 padded x pad H W n c (stride * i + a) (stride * j + d)
                 * get w [f; c; a; d])))
               + get b [f])%R.
Proof.
  intros Hx Hw Hb stride pad h1 w1 Hs HltH HltW.
  destruct (conv_forward_ok x w b conv_param N C H W F HH WW Hx Hw Hb
              Hs HltH HltW) as (out & E & Hsh & Hval).
  exists out, (x, w, b, conv_param). split; [exact E|]. split; [exact Hsh|].
  intros n f i j Hn Hf Hi Hj.
  split; [exact (window_fits (H + 2 * pad) HH stride i Hs Hi)|].
  split; [exact (window_fits (W + 2 * pad) WW stride j Hs Hj)|].
  apply (Hval n f i j); assumption.
Qed.

Lemma conv_forward_values_witness :
  exists out cache,
    conv_forward_naive img1 img1 vec0 ∅ = Ok (out, cache)
    /\ shape out = [1; 1; 1; 1].
Proof.
  destruct (conv_forward_values img1 img1 vec0 ∅ 1 1 1 1 1 1 1
              eq_refl eq_refl eq_refl) as (out & cache & E & Hsh & _).
  - discriminate.
  - change (default 0 (∅ !! "pad")) with 0.
    change (default 1 (∅ !! "stride")) with 1. lia.
  - change (default 0 (∅ !! "pad")) with 0.
    change (default 1 (∅ !! "stride")) with 1. lia.
  - exists out, cache. split; [exact E | exact Hsh].
Defined.

(* ================================================================= *)
(** ** Loss functions: indexing by the labels *)

(** Integer indexing on a 2 x 3 array: a negative column index counts from
    the end of the row, an index past the row raises. *)
Example np_take2_example :
  np_take2 (mk_nd [2; 3] [1; 2; 3; 4; 5; 6]%R) (np_arange 2)
    (mk_nd [2] [2; -3]%Z)
  = Ok (mk_nd [2] [3; 4]%R).
Proof. reflexivity. Qed.

Example np_put2_example :
  np_put2 (mk_nd [2; 3] [1; 2; 3; 4; 5; 6]%R) (np_arange 2)
    (mk_nd [2] [2; -3]%Z) (scalar 0)
  = Ok (mk_nd [2; 3] [1; 2; 0; 0; 5; 6]%R).
Proof. reflexivity. Qed.

Example np_take2_out_of_bounds :
  np_take2 (mk_nd [2; 3] [1; 2; 3; 4; 5; 6]%R) (np_arange 2)
    (mk_nd [2] [2; 3]%Z)
  = Raise (IndexError "index is out of bounds for axis").
Proof. reflexivity. Qed.

Example np_count1_example :
  np_count1 (mk_nd [2; 3] [true; false; true; false; false; false])
  = Ok (mk_nd [2] [2; 0]%Z).
Proof. reflexivity. Qed.

Lemma mapM_map_Some {A B : Type} (f : A -> option B) (g : A -> B)
    (l : list A) :
  (forall a, In a l -> f a = Some (g a)) -> mapM f l = Some (map g l).
Proof.
  induction l as [|a l IH]; intros Hf; [reflexivity|].
  cbn [mapM map]. rewrite (Hf a) by now left.
  rewrite IH by (intros a' Ha'; apply Hf; now right).
  reflexivity.
Qed.

Lemma mapM_None {A B : Type} (f : A -> option B) (l : list A) (a : A) :
  In a l -> f a = None -> mapM f l = None.
Proof.
  induction l as [|a' l IH]; intros Hin Hf; [destruct Hin|].
  cbn [mapM]. destruct Hin as [->|Hin].
  - now rewrite Hf.
  - rewrite (IH Hin Hf). now destruct (f a').
Qed.

Lemma norm_index_lt (d : nat) (z : Z) (i : nat) :
  norm_index d z = Some i -> i < d.
Proof.
  unfold norm_index. repeat case_match; intros E; inversion E; lia.
Qed.

Lemma norm_index_of_nat (d k : nat) :
  k < d -> norm_index d (Z.of_nat k) = Some k.
Proof.
  intros Hk. unfold norm_index.
  rewrite (proj2 (Z.leb_le 0 _)) by lia.
  rewrite (proj2 (Z.ltb_lt _ _)) by lia.
  cbn [andb]. now rewrite Nat2Z.id.
Qed.

Lemma label_lt (N C : nat) (y : ndarray Z) (i : nat) :
  valid_labels N C y -> i < N -> label C y i < C.
Proof.
  intros Hv Hi. destruct (Hv i Hi) as [j Hj]. unfold label. rewrite Hj.
  exact (norm_index_lt _ _ _ Hj).
Qed.

Lemma unravel1 (n k : nat) : unravel [n] k = [k].
Proof. cbn [unravel size_of fold_right]. now rewrite Nat.div_1_r. Qed.

(** The pairs that [a[np.arange(N), y]] visits: row [k] with the class of
    its label. *)
Lemma fancy_index_rows (y : ndarray Z) (N C : nat) (rest : list nat) :
  shape y = [N] -> valid_labels N C y ->
  fancy_index (N :: C :: rest) (np_arange N) y
  = Ok ([N], rest, map (fun k => (k, label C y k)) (seq 0 N)).
Proof.
  intros Hy Hv. unfold fancy_index.
  change (shape (np_arange N)) with [N]. rewrite Hy, broadcast_shapes_same.
  cbn [size_of fold_right]. rewrite Nat.mul_1_r.
  rewrite (mapM_map_Some _ (fun k => (k, label C y k))); [reflexivity|].
  intros k Hk. apply in_seq in Hk. rewrite unravel1.
  unfold index_pair. change (shape (np_arange N)) with [N]. rewrite Hy.
  rewrite !broadcast_index_same by (cbn [in_bounds]; lia).
  unfold np_arange. rewrite get_tabulate by (cbn [in_bounds]; lia).
  cbn [ix_at nth]. rewrite norm_index_of_nat by lia.
  unfold label. destruct (Hv k ltac:(lia)) as [j ->]. reflexivity.
Qed.

(** A label that selects no class stops the indexing. *)
Lemma fancy_index_invalid (y : ndarray Z) (N C i : nat) (rest : list nat) :
  shape y = [N] -> i < N -> norm_index C (get y [i]) = None ->
  fancy_index (N :: C :: rest) (np_arange N) y
  = Raise (IndexError "index is out of bounds for axis").
Proof.
  intros Hy Hi Hnone. unfold fancy_index.
  change (shape (np_arange N)) with [N]. rewrite Hy, broadcast_shapes_same.
  cbn [size_of fold_right]. rewrite Nat.mul_1_r.
  rewrite (mapM_None _ _ i); [reflexivity | apply in_seq; lia |].
  rewrite unravel1. unfold index_pair.
  change (shape (np_arange N)) with [N]. rewrite Hy.
  rewrite !broadcast_index_same by (cbn [in_bounds]; lia).
  rewrite Hnone. now destruct (norm_index N _).
Qed.

Lemma np_take2_rows (a : ndarray R) (y : ndarray Z) (N C : nat) :
  shape a = [N; C] -> shape y = [N] -> valid_labels N C y ->
  np_take2 a (np_arange N) y
  = Ok (tabulate [N] (fun ix => get a [ix_at ix 0; label C y (ix_at ix 0)])).
Proof.
  intros Ha Hy Hv. unfold np_take2.
  rewrite Ha, (fancy_index_rows y N C [] Hy Hv).
  cbn [mbind result_bind bind app length]. f_equal.
  apply tabulate_ext. intros ix Hix.
  apply in_bounds1_inv in Hix as (i & -> & Hi).
  cbn [firstn skipn ravel size_of fold_right ix_at nth].
  replace (i * 1 + 0) with i by lia.
  rewrite (nth_indep _ (0, 0) ((fun k => (k, label C y k)) 0))
    by (rewrite length_map, length_seq; exact Hi).
  rewrite (map_nth (fun k => (k, label C y k))), seq_nth by exact Hi.
  reflexivity.
Qed.

Lemma last_index_rows (lab : nat -> nat) (s n i j : nat) :
  last_index (i, j) (map (fun k => (k, lab k)) (seq s n))
  = if decide (s <= i < s + n /\ j = lab i) then Some (i - s) else None.
Proof.
  revert s. induction n as [|n IH]; intros s.
  - cbn [seq map last_index]. destruct (decide _) as [[? _]|_]; [lia|reflexivity].
  - cbn [seq map last_index]. rewrite IH.
    destruct (decide (S s <= i < S s + n /\ j = lab i)) as [[H1 H2]|Hn].
    + destruct (decide (s <= i < s + S n /\ j = lab i)) as [_|Hn'];
        [f_equal; lia | exfalso; apply Hn'; split; [lia | exact H2]].
    + destruct (decide ((s, lab s) = (i, j))) as [E|Hne].
      * injection E as -> <-.
        destruct (decide (i <= i < i + S n /\ lab i = lab i)) as [_|Hn'];
          [f_equal; lia | exfalso; apply Hn'; split; [lia | reflexivity]].
      * destruct (decide (s <= i < s + S n /\ j = lab i)) as [[H1 H2]|_];
          [|reflexivity].
        exfalso. destruct (Nat.eq_dec i s) as [->|Hne'].
        -- apply Hne. now rewrite H2.
        -- apply Hn. split; [lia | exact H2].
Qed.

Lemma np_put2_rows_scalar (a v : ndarray R) (y : ndarray Z) (N C : nat) :
  shape a = [N; C] -> shape y = [N] -> valid_labels N C y ->
  shape v = [] ->
  np_put2 a (np_arange N) y v
  = Ok (tabulate [N; C] (fun ix =>
          if decide (ix_at ix 1 = label C y (ix_at ix 0))
          then get v [] else get a ix)).
Proof.
  intros Ha Hy Hv Hs. unfold np_put2.
  rewrite Ha, (fancy_index_rows y N C [] Hy Hv).
  cbn [mbind result_bind bind app]. rewrite Hs, broadcast_shapes_nil_r.
  destruct (decide _) as [_|Hne]; [|now destruct Hne].
  f_equal. apply tabulate_ext. intros ix Hix.
  apply in_bounds2_inv in Hix as (i & j & -> & Hi & Hj).
  cbn [ix_at nth]. rewrite last_index_rows.
  destruct (decide (0 <= i < 0 + N /\ j = label C y i)) as [[_ E]|Hn];
    destruct (decide (j = label C y i)) as [E'|Hn']; try reflexivity.
  - contradiction.
  - exfalso. apply Hn. split; [lia | exact E'].
Qed.

Lemma np_put2_rows (a v : ndarray R) (y : ndarray Z) (N C : nat) :
  shape a = [N; C] -> shape y = [N] -> valid_labels N C y ->
  shape v = [N] ->
  np_put2 a (np_arange N) y v
  = Ok (tabulate [N; C] (fun ix =>
          if decide (ix_at ix 1 = label C y (ix_at ix 0))
          then get v [ix_at ix 0] else get a ix)).
Proof.
  intros Ha Hy Hv Hs. unfold np_put2.
  rewrite Ha, (fancy_index_rows y N C [] Hy Hv).
  cbn [mbind result_bind bind app]. rewrite Hs, broadcast_shapes_same.
  destruct (decide _) as [_|Hne]; [|now destruct Hne].
  f_equal. apply tabulate_ext. intros ix Hix.
  apply in_bounds2_inv in Hix as (i & j & -> & Hi & Hj).
  cbn [ix_at nth]. rewrite last_index_rows.
  destruct (decide (0 <= i < 0 + N /\ j = label C y i)) as [[_ E]|Hn];
    destruct (decide (j = label C y i)) as [E'|Hn']; try reflexivity.
  - rewrite Nat.sub_0_r, unravel1. cbn [skipn app].
    now rewrite broadcast_index_same by (cbn [in_bounds]; lia).
  - contradiction.
  - exfalso. apply Hn. split; [lia | exact E'].
Qed.

Lemma broadcast_shapes_col (n d : nat) :
  broadcast_shapes [n; d] [n; 1] = Some [n; d].
Proof.
  unfold broadcast_shapes. cbn [rev app broadcast_rev].
  rewrite Nat.eqb_refl.
  destruct (Nat.eqb_spec d 1) as [->|_]; reflexivity.
Qed.

Section BinopCol.
Context {A B C : Type} `{Inhabited A} `{Inhabited B} (op : A -> B -> C).

Lemma np_binop_col (a : ndarray A) (b : ndarray B) (n d : nat) :
  shape a = [n; d] -> shape b = [n; 1] ->
  np_binop op a b
  = Ok (tabulate [n; d] (fun ix => op (get a ix) (get b [ix_at ix 0; 0]))).
Proof.
  intros Ea Eb. unfold np_binop. rewrite Ea, Eb, broadcast_shapes_col.
  f_equal. apply tabulate_ext. intros ix Hix.
  rewrite broadcast_index_same by exact Hix.
  apply in_bounds2_inv in Hix as (i & j & -> & Hi & Hj).
  unfold broadcast_index. cbn [length Nat.sub skipn zip_with ix_at nth].
  destruct (Nat.eqb_spec n 1) as [->|_]; [|reflexivity].
  now replace i with 0 by lia.
Qed.

End BinopCol.

Lemma np_inplace_col {A B : Type} `{Inhabited A} `{Inhabited B}
    (op : A -> B -> A) (a : ndarray A) (b : ndarray B) (n d : nat) :
  shape a = [n; d] -> shape b = [n; 1] ->
  np_inplace op a b
  = Ok (tabulate [n; d] (fun ix => op (get a ix) (get b [ix_at ix 0; 0]))).
Proof.
  intros Ea Eb. unfold np_inplace. rewrite (np_binop_col op a b n d Ea Eb).
  cbn [mbind result_bind bind]. rewrite shape_tabulate, Ea.
  destruct (decide _) as [_|Hne]; [reflexivity | now destruct Hne].
Qed.

Lemma get_newaxis1 (t : ndarray R) (n i : nat) :
  shape t = [n] -> get (mk_nd [n; 1] (data t)) [i; 0] = get t [i].
Proof.
  intros Ht. unfold get. cbn [shape data]. rewrite Ht.
  f_equal; simpl; lia.
Qed.

(* ================================================================= *)
(** ** The SVM loss *)

Lemma np_count1_ok (m : ndarray bool) (n d : nat) :
  shape m = [n; d] ->
  np_count1 m
  = Ok (tabulate [n] (fun ix =>
          Z.of_nat (count_upto d (fun j => get m [ix_at ix 0; j])))).
Proof.
  intros E. unfold np_count1. now rewrite E.
Qed.

Lemma count_upto_ext (n : nat) (p q : nat -> bool) :
  (forall i, i < n -> p i = q i) -> count_upto n p = count_upto n q.
Proof.
  induction n as [|n IH]; intros E; simpl; [reflexivity|].
  rewrite IH by (intros i Hi; apply E; lia). now rewrite E by lia.
Qed.

(** The SVM loss and its gradient in closed form. *)
Lemma svm_loss_ok (x : ndarray R) (y : ndarray Z) (N C : nat) :
  shape x = [N; C] -> shape y = [N] -> valid_labels N C y ->
  svm_loss x y
  = Ok ((sum_upto N (fun i => sum_upto C (fun j => hinge x C y i j))
         / INR N)%R,
        tabulate [N; C] (fun ix =>
          (hinge_grad x C y (ix_at ix 0) (ix_at ix 1) / INR N)%R)).
Proof.
  intros Hx Hy Hv. unfold svm_loss. rewrite Hx.
  cbn [shape0 mbind result_bind bind].
  rewrite (np_take2_rows x y N C Hx Hy Hv).
  cbn [mbind result_bind bind].
  unfold np_newaxis1. rewrite shape_tabulate.
  cbn [mbind result_bind bind].
  unfold np_sub, np_add.
  match goal with
  | |- context [np_binop Rminus x ?c] =>
      rewrite (np_binop_col Rminus x c N C Hx eq_refl)
  end.
  cbn [mbind result_bind bind].
  rewrite np_binop_scalar_r by reflexivity.
  cbn [mbind result_bind bind]. rewrite shape_tabulate.
  rewrite (np_put2_rows_scalar _ (scalar 0) y N C) by
    (first [reflexivity | assumption]).
  cbn [mbind result_bind bind].
  set (margins := tabulate [N; C] _).
  assert (Hm : forall i j, i < N -> j < C ->
            get margins [i; j] = hinge x C y i j).
  { intros i j Hi Hj. unfold margins.
    rewrite get_tabulate by (cbn [in_bounds]; lia). cbn [ix_at nth].
    unfold hinge. destruct (decide (j = label C y i)); [reflexivity|].
    unfold np_map. rewrite shape_tabulate.
    rewrite !get_tabulate by (cbn [in_bounds]; lia).
    cbn [ix_at nth]. rewrite get_newaxis1 by reflexivity.
    rewrite get_tabulate by (cbn [in_bounds]; lia).
    reflexivity. }
  assert (Hp : forall i j, i < N -> j < C ->
            get (np_map (Rltb 0) margins) [i; j]
            = Rltb 0 (hinge x C y i j)).
  { intros i j Hi Hj. unfold np_map. change (shape margins) with [N; C].
    rewrite get_tabulate by (cbn [in_bounds]; lia).
    now rewrite Hm by assumption. }
  rewrite (np_count1_ok (np_map (Rltb 0) margins) N C) by reflexivity.
  cbn [mbind result_bind bind].
  rewrite np_mask_set_ok by (unfold np_zeros, np_map; now rewrite !shape_tabulate).
  cbn [mbind result_bind bind].
  change (shape (np_zeros [N; C])) with [N; C].
  rewrite (np_take2_rows _ y N C) by (first [reflexivity | assumption]).
  cbn [mbind result_bind bind].
  rewrite np_inplace_same by reflexivity.
  cbn [mbind result_bind bind]. rewrite shape_tabulate.
  rewrite (np_put2_rows _ _ y N C) by (first [reflexivity | assumption]).
  cbn [mbind result_bind bind].
  f_equal. f_equal.
  - unfold np_sum. cbn [sum_over]. change (shape margins) with [N; C].
    cbn [sum_over]. f_equal.
    apply sum_upto_ext. intros i Hi. apply sum_upto_ext. intros j Hj.
    now apply Hm.
  - unfold np_map at 1. rewrite shape_tabulate.
    apply tabulate_ext. intros ix Hix.
    apply in_bounds2_inv in Hix as (i & j & -> & Hi & Hj).
    pose proof (label_lt N C y i Hv Hi) as Hl.
    rewrite get_tabulate by (cbn [in_bounds]; lia).
    cbn [ix_at nth]. f_equal. unfold hinge_grad.
    destruct (decide (j = label C y i)) as [->|Hne].
    + rewrite !get_tabulate by (cbn [in_bounds]; lia).
      cbn [ix_at nth].
      rewrite !get_tabulate by (cbn [in_bounds]; lia).
      rewrite (Hp i (label C y i)) by assumption.
      assert (E0 : hinge x C y i (label C y i) = 0%R).
      { unfold hinge. destruct (decide _) as [_|Hn]; [reflexivity|].
        now destruct Hn. }
      rewrite E0. unfold Rltb at 1.
      destruct (Rlt_dec 0 0) as [Hlt|_]; [lra|].
      rewrite get_np_zeros by (cbn [in_bounds]; lia).
      rewrite <- INR_IZR_INZ.
      rewrite (count_upto_ext C _ (fun k => Rltb 0 (hinge x C y i k)))
        by (intros k Hk; now apply Hp).
      ring.
    + rewrite get_tabulate by (cbn [in_bounds]; lia).
      rewrite Hp by assumption.
      destruct (Rltb 0 (hinge x C y i j)); [reflexivity|].
      now rewrite get_np_zeros by (cbn [in_bounds]; lia).
Qed.

(* ================================================================= *)
(** ** The softmax loss *)

Lemma np_max1_keepdims_ok (a : ndarray R) (n d : nat) :
  shape a = [n; d] -> d <> 0 ->
  np_max1_keepdims a
  = Ok (tabulate [n; 1] (fun ix =>
          Rmax_list (map (fun j => get a [ix_at ix 0; j]) (seq 0 d)))).
Proof.
  intros E Hd. unfold np_max1_keepdims. rewrite E.
  now rewrite (proj2 (Nat.eqb_neq d 0) Hd).
Qed.

Lemma np_sum1_keepdims_ok (a : ndarray R) (n d : nat) :
  shape a = [n; d] ->
  np_sum1_keepdims a
  = Ok (tabulate [n; 1] (fun ix =>
          sum_upto d (fun j => get a [ix_at ix 0; j]))).
Proof. intros E. unfold np_sum1_keepdims. now rewrite E. Qed.

Lemma np_inplace_scalar_r {A B : Type} `{Inhabited A} `{Inhabited B}
    (op : A -> B -> A) (a : ndarray A) (b : ndarray B) :
  shape b = [] ->
  np_inplace op a b
  = Ok (tabulate (shape a) (fun ix => op (get a ix) (get b []))).
Proof.
  intros E. unfold np_inplace. rewrite (np_binop_scalar_r op a b E).
  cbn [mbind result_bind bind]. rewrite shape_tabulate.
  destruct (decide _) as [_|Hne]; [reflexivity | now destruct Hne].
Qed.

Lemma sum_upto_pos (n : nat) (f : nat -> R) :
  0 < n -> (forall i, i < n -> (0 < f i)%R) -> (0 < sum_upto n f)%R.
Proof.
  intros Hn Hf. destruct n as [|n]; [lia|]. simpl.
  assert (0 <= sum_upto n f)%R
    by (apply sum_upto_nonneg; intros i Hi; left; apply Hf; lia).
  pose proof (Hf n ltac:(lia)). lra.
Qed.

Lemma sum_upto_scal_r (n : nat) (c : R) (f : nat -> R) :
  sum_upto n (fun i => f i * c)%R = (sum_upto n f * c)%R.
Proof. induction n as [|n IH]; simpl; [ring | rewrite IH; ring]. Qed.

Lemma sum_upto_opp (n : nat) (f : nat -> R) :
  sum_upto n (fun i => - f i)%R = (- sum_upto n f)%R.
Proof. induction n as [|n IH]; simpl; [ring | rewrite IH; ring]. Qed.

(** The softmax loss and its gradient in closed form: subtracting the
    maximum of each row changes neither. *)
Lemma softmax_loss_ok (x : ndarray R) (y : ndarray Z) (N C : nat) :
  shape x = [N; C] -> 0 < C -> shape y = [N] -> valid_labels N C y ->
  softmax_loss x y
  = Ok ((sum_upto N (fun i =>
           ln (sum_upto C (fun k => exp (get x [i; k])))
           - get x [i; label C y i]) / INR N)%R,
        tabulate [N; C] (fun ix =>
          ((softmax x C (ix_at ix 0) (ix_at ix 1)
            - (if decide (ix_at ix 1 = label C y (ix_at ix 0))
               then 1 else 0)) / INR N)%R)).
Proof.
  intros Hx HC Hy Hv. unfold softmax_loss.
  rewrite (np_max1_keepdims_ok x N C Hx) by lia.
  cbn [mbind result_bind bind].
  unfold np_sub.
  match goal with
  | |- context [np_binop Rminus x ?c] =>
      rewrite (np_binop_col Rminus x c N C Hx eq_refl)
  end.
  cbn [mbind result_bind bind].
  set (m := fun i => Rmax_list (map (fun j => get x [i; j]) (seq 0 C))).
  set (e := np_map exp _).
  assert (He : forall i j, i < N -> j < C ->
            get e [i; j] = (exp (get x [i; j]) * / exp (m i))%R).
  { intros i j Hi Hj. unfold e, np_map. rewrite shape_tabulate.
    rewrite !get_tabulate by (cbn [in_bounds]; lia).
    cbn [ix_at nth]. rewrite get_tabulate by (cbn [in_bounds]; lia).
    cbn [ix_at nth]. fold (m i).
    unfold Rminus. now rewrite exp_plus, exp_Ropp. }
  rewrite (np_sum1_keepdims_ok e N C eq_refl).
  cbn [mbind result_bind bind].
  match goal with
  | |- context [np_inplace Rdiv e ?c] =>
      rewrite (np_inplace_col Rdiv e c N C eq_refl eq_refl)
  end.
  cbn [mbind result_bind bind].
  set (probs := tabulate [N; C] _).
  set (S := fun i => sum_upto C (fun k => exp (get x [i; k]))).
  assert (HS : forall i, (0 < S i)%R)
    by (intros i; apply sum_upto_pos; [exact HC | intros; apply exp_pos]).
  assert (Hp : forall i j, i < N -> j < C ->
            get probs [i; j] = softmax x C i j).
  { intros i j Hi Hj. unfold probs.
    repeat (rewrite get_tabulate by (cbn [in_bounds]; lia); cbn [ix_at nth]).
    rewrite He by assumption.
    rewrite (sum_upto_ext C _ (fun k => exp (get x [i; k]) * / exp (m i))%R)
      by (intros k Hk; now apply He).
    rewrite sum_upto_scal_r. unfold softmax. fold (S i).
    pose proof (exp_pos (m i)). pose proof (HS i).
    field. split; lra. }
  rewrite Hx. cbn [shape0 mbind result_bind bind].
  rewrite (np_take2_rows probs y N C) by (first [reflexivity | assumption]).
  cbn [mbind result_bind bind].
  rewrite np_inplace_scalar_r by reflexivity.
  cbn [mbind result_bind bind]. rewrite shape_tabulate.
  rewrite (np_put2_rows probs _ y N C) by (first [reflexivity | assumption]).
  cbn [mbind result_bind bind].
  f_equal. f_equal.
  - unfold np_sum, np_map. rewrite !shape_tabulate. cbn [sum_over].
    f_equal. rewrite <- sum_upto_opp.
    apply sum_upto_ext. intros i Hi.
    pose proof (label_lt N C y i Hv Hi) as Hl.
    rewrite !get_tabulate by (cbn [in_bounds]; lia).
    cbn [ix_at nth]. rewrite Hp by assumption.
    unfold softmax. fold (S i). unfold Rdiv.
    rewrite ln_mult by (first [apply exp_pos
                              | apply Rinv_0_lt_compat; apply HS]).
    rewrite ln_exp, ln_Rinv by apply HS. ring.
  - unfold np_map at 1. rewrite shape_tabulate.
    apply tabulate_ext. intros ix Hix.
    apply in_bounds2_inv in Hix as (i & j & -> & Hi & Hj).
    pose proof (label_lt N C y i Hv Hi) as Hl.
    rewrite get_tabulate by (cbn [in_bounds]; lia).
    cbn [ix_at nth]. f_equal.
    destruct (decide (j = label C y i)) as [->|Hne].
    + rewrite !get_tabulate by (cbn [in_bounds]; lia).
      cbn [ix_at nth]. rewrite Hp by assumption. reflexivity.
    + rewrite Hp by assumption. ring.
Qed.

(* ================================================================= *)
(** ** Loss functions: what they return *)

(** The losses on one row of scores [[3, 4]] labelled with class 0: the
    only margin is [max(0, 4 - 3 + 1) = 2]. *)
Example svm_loss_example :
  svm_loss scores34 labels0 = Ok (2%R, mk_nd [1; 2] [-1; 1]%R).
Proof.
  rewrite (svm_loss_ok scores34 labels0 1 2 eq_refl eq_refl).
  2: { intros i Hi. assert (i = 0) as -> by lia. eexists. reflexivity. }
  assert (Hm : Rmax 0 (4 - 3 + 1) = 2%R) by (rewrite Rmax_right; lra).
  assert (Hp : Rltb 0 2 = true).
  { unfold Rltb. destruct (Rlt_dec 0 2); [reflexivity | lra]. }
  assert (Hz : Rltb 0 0 = false).
  { unfold Rltb. destruct (Rlt_dec 0 0); [lra | reflexivity]. }
  f_equal. f_equal.
  - unfold hinge, label, scores34, labels0, get. simpl.
    rewrite Hm. lra.
  - unfold tabulate, hinge_grad, hinge, label, scores34, labels0, get. simpl.
    rewrite Hm, Hp, Hz. simpl. f_equal. f_equal; [lra|]. f_equal. lra.
Qed.

(** Two equal scores give each class the probability 1/2: the loss is
    [ln 2] and the gradient [[-1/2, 1/2]]. *)
Example softmax_loss_example :
  softmax_loss (mk_nd [1; 2] [0; 0]%R) labels0
  = Ok (ln 2, mk_nd [1; 2] [- (1 / 2); 1 / 2]%R).
Proof.
  rewrite (softmax_loss_ok (mk_nd [1; 2] [0; 0]%R) labels0 1 2 eq_refl).
  2: lia. 2: reflexivity.
  2: { intros i Hi. assert (i = 0) as -> by lia. eexists. reflexivity. }
  f_equal. f_equal.
  - unfold label, labels0, get. simpl. rewrite exp_0.
    replace (0 + 1 + 1)%R with 2%R by ring. lra.
  - unfold tabulate, softmax, label, labels0, get. simpl. rewrite exp_0.
    f_equal. f_equal; [lra|]. f_equal. lra.
Qed.

(** X20.  The SVM loss of a batch of [N >= 1] rows of scores is the mean over
    the batch of the hinge margins [max(0, x[i, j] - x[i, y[i]] + 1)]
    summed over the classes other than the labelled one.  Its gradient at
    [(i, j)] is [1 / N] for a class with a positive margin, minus the
    number of such classes over [N] for the labelled class, and 0
    elsewhere. *)
Theorem svm_loss_values (x : ndarray R) (y : ndarray Z) (N C : nat) :
  shape x = [N; C] -> shape y = [N] -> 0 < N -> valid_labels N C y ->
  exists loss dx,
    svm_loss x y = Ok (loss, dx)
    /\ loss = (sum_upto N (fun i => sum_upto C (fun j =>
                 if decide (j = label C y i) then 0
                 else Rmax 0 (get x [i; j] - get x [i; label C y i] + 1)))
               / INR N)%R
    /\ shape dx = [N; C]
    /\ forall i j, i < N -> j < C ->
         let positive k :=
           Rltb 0 (if decide (k = label C y i) then 0
                   else Rmax 0 (get x [i; k] - get x [i; label C y i] + 1)) in
         get dx [i; j]
         = ((if decide (j = label C y i)
             then - INR (count_upto C positive)
             else if positive j then 1 else 0) / INR N)%R.
Proof.
  intros Hx Hy HN Hv. rewrite (svm_loss_ok x y N C Hx Hy Hv).
  do 2 eexists. split; [reflexivity|]. split; [reflexivity|].
  split; [reflexivity|].
  intros i j Hi Hj positive.
  rewrite get_tabulate by (cbn [in_bounds]; lia). reflexivity.
Qed.

Lemma svm_loss_values_witness :
  exists loss dx,
    svm_loss scores34 labels0 = Ok (loss, dx) /\ shape dx = [1; 2].
Proof.
  destruct (svm_loss_values scores34 labels0 1 2 eq_refl eq_refl)
    as (loss & dx & E & _ & Hsh & _).
  - lia.
  - intros i Hi. assert (i = 0) as -> by lia. eexists. reflexivity.
  - exists loss, dx. split; [exact E | exact Hsh].
Defined.

Lemma sum_upto_indicator (n : nat) (p : nat -> bool) :
  sum_upto n (fun j => if p j then 1 else 0)%R = INR (count_upto n p).
Proof.
  induction n as [|n IH]; [reflexivity|].
  cbn [sum_upto count_upto]. rewrite IH, plus_INR.
  destruct (p n); simpl; ring.
Qed.

Lemma sum_upto_replace (n l : nat) (a : R) (f : nat -> R) :
  l < n ->
  sum_upto n (fun j => if decide (j = l) then a else f j)
  = (sum_upto n f - f l + a)%R.
Proof.
  induction n as [|n IH]; intros Hl; [lia|]. cbn [sum_upto].
  destruct (decide (n = l)) as [->|Hne].
  - rewrite (sum_upto_ext l _ f); [ring|].
    intros j Hj. destruct (decide (j = l)); [lia | reflexivity].
  - rewrite IH by lia. ring.
Qed.

Lemma hinge_nonneg (x : ndarray R) (C : nat) (y : ndarray Z) (i j : nat) :
  (0 <= hinge x C y i j)%R.
Proof.
  unfold hinge. destruct (decide _); [lra | apply Rmax_l].
Qed.

Lemma hinge_label (x : ndarray R) (C : nat) (y : ndarray Z) (i : nat) :
  hinge x C y i (label C y i) = 0%R.
Proof.
  unfold hinge. destruct (decide _) as [_|Hn]; [reflexivity|].
  now destruct Hn.
Qed.

(** X21.  The SVM loss is never negative and the gradient of every example sums
    to 0 over the classes.  When every labelled score exceeds the other
    scores of its row by 1 or more, the loss and the whole gradient are
    0. *)
Theorem svm_loss_properties (x : ndarray R) (y : ndarray Z) (N C : nat) :
  shape x = [N; C] -> shape y = [N] -> 0 < N -> valid_labels N C y ->
  exists loss dx,
    svm_loss x y = Ok (loss, dx)
    /\ (0 <= loss)%R
    /\ (forall i, i < N -> sum_upto C (fun j => get dx [i; j]) = 0%R)
    /\ ((forall i j, i < N -> j < C -> j <> label C y i ->
           (get x [i; j] + 1 <= get x [i; label C y i])%R) ->
        loss = 0%R
        /\ forall i j, i < N -> j < C -> get dx [i; j] = 0%R).
Proof.
  intros Hx Hy HN Hv. rewrite (svm_loss_ok x y N C Hx Hy Hv).
  assert (HN0 : (0 < INR N)%R) by (apply lt_0_INR; exact HN).
  do 2 eexists. split; [reflexivity|]. split; [|split].
  - apply Rmult_le_pos; [|left; now apply Rinv_0_lt_compat].
    apply sum_upto_nonneg. intros i _. apply sum_upto_nonneg. intros j _.
    apply hinge_nonneg.
  - intros i Hi. pose proof (label_lt N C y i Hv Hi) as Hl.
    rewrite (sum_upto_ext C _
               (fun j => / INR N * hinge_grad x C y i j)%R)
      by (intros j Hj; rewrite get_tabulate by (cbn [in_bounds]; lia);
          cbn [ix_at nth]; unfold Rdiv; ring).
    rewrite sum_upto_scal. unfold hinge_grad.
    rewrite (sum_upto_replace C (label C y i)) by exact Hl.
    rewrite sum_upto_indicator, hinge_label.
    unfold Rltb at 2. destruct (Rlt_dec 0 0); [lra | ring].
  - intros Hsep.
    assert (Hz : forall i j, i < N -> j < C -> hinge x C y i j = 0%R).
    { intros i j Hi Hj. unfold hinge.
      destruct (decide (j = label C y i)) as [_|Hne]; [reflexivity|].
      apply Rmax_left. specialize (Hsep i j Hi Hj Hne). lra. }
    split.
    + rewrite (sum_upto_zero N); [unfold Rdiv; ring|].
      intros i Hi. apply sum_upto_zero. intros j Hj. now apply Hz.
    + intros i j Hi Hj. rewrite get_tabulate by (cbn [in_bounds]; lia).
      cbn [ix_at nth]. unfold hinge_grad.
      rewrite (count_upto_ext C _ (fun _ => false)).
      * assert (E : count_upto C (fun _ => false) = 0)
          by (clear; induction C as [|C IH]; [reflexivity | simpl; lia]).
        rewrite E, Hz by assumption. unfold Rltb.
        destruct (Rlt_dec 0 0); [lra|].
        destruct (decide _); simpl; unfold Rdiv; ring.
      * intros k Hk. rewrite Hz by assumption. unfold Rltb.
        destruct (Rlt_dec 0 0); [lra | reflexivity].
Qed.

Lemma svm_loss_properties_witness :
  exists loss dx,
    svm_loss scores34 labels0 = Ok (loss, dx) /\ (0 <= loss)%R.
Proof.
  destruct (svm_loss_properties scores34 labels0 1 2 eq_refl eq_refl)
    as (loss & dx & E & Hpos & _).
  - lia.
  - intros i Hi. assert (i = 0) as -> by lia. eexists. reflexivity.
  - exists loss, dx. split; [exact E | exact Hpos].
Defined.

(** X22.  The softmax loss of a batch of [N >= 1] rows of scores over [C >= 1]
    classes is the mean cross-entropy
    [log(sum_k exp(x[i, k])) - x[i, y[i]]], and its gradient at [(i, j)] is
    the softmax probability of class [j], minus 1 for the labelled class,
    over [N].  The maximum that the code subtracts from every row does not
    appear in the result. *)
Theorem softmax_loss_values (x : ndarray R) (y : ndarray Z) (N C : nat) :
  shape x = [N; C] -> shape y = [N] -> 0 < N -> 0 < C ->
  valid_labels N C y ->
  exists loss dx,
    softmax_loss x y = Ok (loss, dx)
    /\ loss = (sum_upto N (fun i =>
                 ln (sum_upto C (fun k => exp (get x [i; k])))
                 - get x [i; label C y i]) / INR N)%R
    /\ shape dx = [N; C]
    /\ forall i j, i < N -> j < C ->
         get dx [i; j]
         = ((exp (get x [i; j]) / sum_upto C (fun k => exp (get x [i; k]))
             - (if decide (j = label C y i) then 1 else 0)) / INR N)%R.
Proof.
  intros Hx Hy HN HC Hv. rewrite (softmax_loss_ok x y N C Hx HC Hy Hv).
  do 2 eexists. split; [reflexivity|]. split; [reflexivity|].
  split; [reflexivity|].
  intros i j Hi Hj.
  rewrite get_tabulate by (cbn [in_bounds]; lia). reflexivity.
Qed.

Lemma softmax_loss_values_witness :
  exists loss dx,
    softmax_loss scores34 labels0 = Ok (loss, dx) /\ shape dx = [1; 2].
Proof.
  destruct (softmax_loss_values scores34 labels0 1 2 eq_refl eq_refl)
    as (loss & dx & E & _ & Hsh & _).
  - lia.
  - lia.
  - intros i Hi. assert (i = 0) as -> by lia. eexists. reflexivity.
  - exists loss, dx. split; [exact E | exact Hsh].
Defined.

Lemma sum_upto_ge_term (n l : nat) (f : nat -> R) :
  l < n -> (forall i, i < n -> (0 <= f i)%R) -> (f l <= sum_upto n f)%R.
Proof.
  induction n as [|n IH]; intros Hl Hf; [lia|]. cbn [sum_upto].
  assert (H0 : (0 <= sum_upto n f)%R)
    by (apply sum_upto_nonneg; intros i Hi; apply Hf; lia).
  destruct (Nat.eq_dec l n) as [->|Hne]; [lra|].
  pose proof (IH ltac:(lia) (fun i Hi => Hf i ltac:(lia))).
  pose proof (Hf n ltac:(lia)). lra.
Qed.

Lemma sum_upto_div (n : nat) (c : R) (f : nat -> R) :
  sum_upto n (fun i => f i / c)%R = (sum_upto n f / c)%R.
Proof. unfold Rdiv. apply sum_upto_scal_r. Qed.

(** X23.  The softmax loss is never negative, and the gradient of every example
    sums to 0 over the classes (the probabilities of a row sum to 1). *)
Theorem softmax_loss_properties (x : ndarray R) (y : ndarray Z) (N C : nat) :
  shape x = [N; C] -> shape y = [N] -> 0 < N -> 0 < C ->
  valid_labels N C y ->
  exists loss dx,
    softmax_loss x y = Ok (loss, dx)
    /\ (0 <= loss)%R
    /\ forall i, i < N ->
         sum_upto C (fun j => get dx [i; j]) = 0%R
         /\ sum_upto C (fun j => softmax x C i j) = 1%R.
Proof.
  intros Hx Hy HN HC Hv. rewrite (softmax_loss_ok x y N C Hx HC Hy Hv).
  assert (HN0 : (0 < INR N)%R) by (apply lt_0_INR; exact HN).
  assert (HS : forall i, (0 < sum_upto C (fun k => exp (get x [i; k])))%R)
    by (intros i; apply sum_upto_pos; [exact HC | intros; apply exp_pos]).
  assert (H1 : forall i, sum_upto C (fun j => softmax x C i j) = 1%R).
  { intros i. unfold softmax. rewrite sum_upto_div.
    pose proof (HS i). field. lra. }
  do 2 eexists. split; [reflexivity|]. split.
  - apply Rmult_le_pos; [|left; now apply Rinv_0_lt_compat].
    apply sum_upto_nonneg. intros i Hi.
    pose proof (label_lt N C y i Hv Hi) as Hl.
    pose proof (sum_upto_ge_term C (label C y i)
                  (fun k => exp (get x [i; k])) Hl
                  (fun k _ => Rlt_le _ _ (exp_pos _))) as Hge.
    cbn beta in Hge.
    pose proof (ln_exp (get x [i; label C y i])) as Hle.
    destruct Hge as [Hlt|Heq].
    + pose proof (ln_increasing _ _ (exp_pos _) Hlt). lra.
    + rewrite <- Heq. lra.
  - intros i Hi. split; [|apply H1].
    pose proof (label_lt N C y i Hv Hi) as Hl.
    rewrite (sum_upto_ext C _
               (fun j => / INR N
                         * (softmax x C i j
                            + - (if decide (j = label C y i) then 1 else 0)))%R)
      by (intros j Hj; rewrite get_tabulate by (cbn [in_bounds]; lia);
          cbn [ix_at nth]; unfold Rdiv; ring).
    rewrite sum_upto_scal, sum_upto_plus, sum_upto_opp, H1.
    rewrite (sum_upto_replace C (label C y i) 1 (fun _ => 0%R)) by exact Hl.
    rewrite sum_upto_const. ring.
Qed.

Lemma softmax_loss_properties_witness :
  exists loss dx,
    softmax_loss scores34 labels0 = Ok (loss, dx) /\ (0 <= loss)%R.
Proof.
  destruct (softmax_loss_properties scores34 labels0 1 2 eq_refl eq_refl)
    as (loss & dx & E & Hpos & _).
  - lia.
  - lia.
  - intros i Hi. assert (i = 0) as -> by lia. eexists. reflexivity.
  - exists loss, dx. split; [exact E | exact Hpos].
Defined.

(* ================================================================= *)
(** ** Loss functions: shifts and labels *)

(** X24.  Adding a constant to all the scores of an example (a constant per row)
    changes neither the softmax loss nor its gradient. *)
Theorem softmax_loss_shift_invariant (x x' : ndarray R) (y : ndarray Z)
    (N C : nat) (c : nat -> R) :
  shape x = [N; C] -> shape x' = [N; C] -> shape y = [N] ->
  0 < N -> 0 < C -> valid_labels N C y ->
  (forall i j, i < N -> j < C -> get x' [i; j] = (get x [i; j] + c i)%R) ->
  exists loss dx,
    softmax_loss x y = Ok (loss, dx) /\ softmax_loss x' y = Ok (loss, dx).
Proof.
  intros Hx Hx' Hy HN HC Hv Hshift.
  rewrite (softmax_loss_ok x y N C Hx HC Hy Hv).
  rewrite (softmax_loss_ok x' y N C Hx' HC Hy Hv).
  do 2 eexists. split; [reflexivity|].
  assert (HS : forall i, (0 < sum_upto C (fun k => exp (get x [i; k])))%R)
    by (intros i; apply sum_upto_pos; [exact HC | intros; apply exp_pos]).
  assert (HS' : forall i, i < N ->
            sum_upto C (fun k => exp (get x' [i; k]))
            = (exp (c i) * sum_upto C (fun k => exp (get x [i; k])))%R).
  { intros i Hi. rewrite <- sum_upto_scal. apply sum_upto_ext.
    intros k Hk. rewrite Hshift by assumption. rewrite exp_plus. ring. }
  f_equal. f_equal.
  - f_equal. apply sum_upto_ext. intros i Hi.
    pose proof (label_lt N C y i Hv Hi) as Hl.
    rewrite (HS' i Hi), (Hshift i (label C y i) Hi Hl).
    rewrite ln_mult by (first [apply exp_pos | apply HS]).
    rewrite ln_exp. ring.
  - apply tabulate_ext. intros ix Hix.
    apply in_bounds2_inv in Hix as (i & j & -> & Hi & Hj).
    cbn [ix_at nth]. f_equal. f_equal. unfold softmax.
    rewrite (HS' i Hi), (Hshift i j Hi Hj), exp_plus.
    pose proof (exp_pos (c i)). pose proof (HS i).
    field. split; lra.
Qed.

Lemma softmax_loss_shift_invariant_witness :
  exists loss dx,
    softmax_loss scores34 labels0 = Ok (loss, dx)
    /\ softmax_loss scores56 labels0 = Ok (loss, dx).
Proof.
  apply (softmax_loss_shift_invariant scores34 scores56 labels0 1 2
           (fun _ => 2%R)); try reflexivity; try lia.
  - intros i Hi. assert (i = 0) as -> by lia. eexists. reflexivity.
  - intros i j Hi Hj. assert (i = 0) as -> by lia.
    assert (j = 0 \/ j = 1) as [-> | ->] by lia;
      unfold get; simpl; lra.
Defined.

Lemma norm_index_None (d : nat) (z : Z) :
  (z < - Z.of_nat d \/ Z.of_nat d <= z)%Z -> norm_index d z = None.
Proof.
  intros Hz. unfold norm_index.
  destruct (Z.leb_spec 0 z), (Z.ltb_spec z (Z.of_nat d)),
    (Z.leb_spec (- Z.of_nat d) z), (Z.ltb_spec z 0);
    cbn [andb]; first [reflexivity | lia].
Qed.

(** X25.  The labels are not checked against the number of classes before they
    are used as indices: a label of [C] or more, or below [-C], makes both
    losses raise the [IndexError] of the indexing. *)
Theorem loss_label_out_of_range (x : ndarray R) (y : ndarray Z)
    (N C i : nat) :
  shape x = [N; C] -> shape y = [N] -> i < N ->
  (get y [i] < - Z.of_nat C \/ Z.of_nat C <= get y [i])%Z ->
  (exists msg, svm_loss x y = Raise (IndexError msg))
  /\ (0 < C -> exists msg, softmax_loss x y = Raise (IndexError msg)).
Proof.
  intros Hx Hy Hi Hout. apply norm_index_None in Hout. split.
  - unfold svm_loss, np_take2. rewrite Hx.
    cbn [shape0 mbind result_bind bind].
    rewrite (fancy_index_invalid y N C i [] Hy Hi Hout).
    eexists. reflexivity.
  - intros HC. unfold softmax_loss.
    rewrite (np_max1_keepdims_ok x N C Hx) by lia.
    cbn [mbind result_bind bind]. unfold np_sub.
    match goal with
    | |- context [np_binop Rminus x ?c] =>
        rewrite (np_binop_col Rminus x c N C Hx eq_refl)
    end.
    cbn [mbind result_bind bind].
    match goal with
    | |- context [np_sum1_keepdims ?e] =>
        rewrite (np_sum1_keepdims_ok e N C eq_refl);
        cbn [mbind result_bind bind];
        match goal with
        | |- context [np_inplace Rdiv e ?c] =>
            rewrite (np_inplace_col Rdiv e c N C eq_refl eq_refl)
        end
    end.
    cbn [mbind result_bind bind]. rewrite Hx.
    cbn [shape0 mbind result_bind bind]. unfold np_take2.
    rewrite shape_tabulate.
    rewrite (fancy_index_invalid y N C i [] Hy Hi Hout).
    eexists. reflexivity.
Qed.

Lemma loss_label_out_of_range_witness :
  (exists msg, svm_loss scores34 labels2 = Raise (IndexError msg))
  /\ (0 < 2 ->
      exists msg, softmax_loss scores34 labels2 = Raise (IndexError msg)).
Proof.
  apply (loss_label_out_of_range scores34 labels2 1 2 0);
    first [reflexivity | lia | right; vm_compute; discriminate].
Defined.

Lemma hinge_label_ext (x : ndarray R) (C : nat) (y y' : ndarray Z) (i j : nat) :
  label C y' i = label C y i -> hinge x C y' i j = hinge x C y i j.
Proof. intros E. unfold hinge. now rewrite E. Qed.

(** X26.  A negative label is not rejected either: a label [-k] with
    [1 <= k <= C] selects the class [C - k], and both losses return what
    they return for the labels written as classes. *)
Theorem loss_negative_labels (x : ndarray R) (y y' : ndarray Z) (N C : nat) :
  shape x = [N; C] -> shape y = [N] -> shape y' = [N] ->
  (forall i, i < N -> (- Z.of_nat C <= get y [i] < Z.of_nat C)%Z) ->
  (forall i, i < N ->
     get y' [i] = (if (get y [i] <? 0)%Z then get y [i] + Z.of_nat C
                   else get y [i])%Z) ->
  svm_loss x y = svm_loss x y'
  /\ softmax_loss x y = softmax_loss x y'
  /\ exists r, svm_loss x y = Ok r.
Proof.
  intros Hx Hy Hy' Hrange Hnorm.
  assert (Hv : valid_labels N C y).
  { intros i Hi. specialize (Hrange i Hi). unfold norm_index.
    destruct (Z.leb_spec 0 (get y [i])), (Z.ltb_spec (get y [i]) (Z.of_nat C)),
      (Z.leb_spec (- Z.of_nat C) (get y [i])), (Z.ltb_spec (get y [i]) 0);
      cbn [andb]; first [eexists; reflexivity | lia]. }
  assert (Hl : forall i, i < N ->
            norm_index C (get y' [i]) = norm_index C (get y [i])).
  { intros i Hi. specialize (Hrange i Hi). rewrite (Hnorm i Hi).
    destruct (Z.ltb_spec (get y [i]) 0) as [Hneg|Hpos]; [|reflexivity].
    unfold norm_index.
    rewrite (proj2 (Z.leb_le 0 (get y [i] + Z.of_nat C))) by lia.
    rewrite (proj2 (Z.ltb_lt (get y [i] + Z.of_nat C) _)) by lia.
    rewrite (proj2 (Z.leb_gt 0 (get y [i]))) by lia.
    rewrite (proj2 (Z.leb_le (- Z.of_nat C) (get y [i]))) by lia.
    rewrite (proj2 (Z.ltb_lt (get y [i]) 0)) by lia.
    reflexivity. }
  assert (Hv' : valid_labels N C y')
    by (intros i Hi; rewrite (Hl i Hi); now apply Hv).
  assert (Hlab : forall i, i < N -> label C y' i = label C y i)
    by (intros i Hi; unfold label; now rewrite (Hl i Hi)).
  split; [|split].
  - rewrite (svm_loss_ok x y N C Hx Hy Hv), (svm_loss_ok x y' N C Hx Hy' Hv').
    f_equal. f_equal.
    + f_equal. apply sum_upto_ext. intros i Hi. apply sum_upto_ext.
      intros j Hj. symmetry. now apply hinge_label_ext, Hlab.
    + apply tabulate_ext. intros ix Hix.
      apply in_bounds2_inv in Hix as (i & j & -> & Hi & Hj).
      cbn [ix_at nth]. f_equal. unfold hinge_grad.
      rewrite (Hlab i Hi).
      rewrite (hinge_label_ext x C y y' i j (Hlab i Hi)).
      rewrite (count_upto_ext C (fun k => Rltb 0 (hinge x C y' i k))
                 (fun k => Rltb 0 (hinge x C y i k)))
        by (intros k Hk; now rewrite (hinge_label_ext x C y y' i k (Hlab i Hi))).
      reflexivity.
  - destruct (Nat.eq_dec C 0) as [->|HC].
    + unfold softmax_loss, np_max1_keepdims. now rewrite Hx.
    + rewrite (softmax_loss_ok x y N C Hx ltac:(lia) Hy Hv).
      rewrite (softmax_loss_ok x y' N C Hx ltac:(lia) Hy' Hv').
      f_equal. f_equal.
      * f_equal. apply sum_upto_ext. intros i Hi. now rewrite (Hlab i Hi).
      * apply tabulate_ext. intros ix Hix.
        apply in_bounds2_inv in Hix as (i & j & -> & Hi & Hj).
        cbn [ix_at nth]. now rewrite (Hlab i Hi).
  - rewrite (svm_loss_ok x y N C Hx Hy Hv). eexists. reflexivity.
Qed.

Lemma loss_negative_labels_witness :
  svm_loss scores34 labels_m2 = svm_loss scores34 labels0
  /\ softmax_loss scores34 labels_m2 = softmax_loss scores34 labels0
  /\ exists r, svm_loss scores34 labels_m2 = Ok r.
Proof.
  apply (loss_negative_labels scores34 labels_m2 labels0 1 2);
    try reflexivity.
  - intros i Hi. assert (i = 0) as -> by lia. vm_compute.
    split; [discriminate | reflexivity].
  - intros i Hi. assert (i = 0) as -> by lia. reflexivity.
Defined.

(* ================================================================= *)
(** ** Spatial batch normalization: per-channel statistics *)








(* ================================================================= *)
(** ** Convolution: the values of the gradients *)

Lemma get_reshape_rows_ravel (t : ndarray R) (n D i : nat)
    (sh ix : list nat) :
  shape t = n :: sh -> size_of sh = D -> in_bounds ix sh ->
  get (mk_nd [n; D] (data t)) [i; ravel sh ix] = get t (i :: ix).
Proof.
  intros Ht HD Hix.
  rewrite (get_reshape_rows t n D i (ravel sh ix) sh Ht HD)
    by (rewrite <- HD; now apply size_of_pos_bounds).
  now rewrite unravel_ravel.
Qed.

Lemma get_unreshape_rows (t : ndarray R) (n D i : nat) (sh ix : list nat) :
  shape t = [n; D] -> size_of sh = D ->
  get (mk_nd (n :: sh) (data t)) (i :: ix) = get t [i; ravel sh ix].
Proof.
  intros Ht HD. unfold get. cbn [shape data]. rewrite Ht. f_equal.
  cbn [ravel size_of fold_right]. fold (size_of sh). rewrite HD. lia.
Qed.

(** The backward pass of the convolution, element by element; [dx] is
    given on the padded frame, [dw] on the flattened filters. *)
Lemma conv_backward_ok (dout x w b : ndarray R)
    (conv_param : gmap string nat) (N C H W F HH WW : nat) :
  shape x = [N; C; H; W] -> shape w = [F; C; HH; WW] -> shape b = [F] ->
  let stride := default 1 (conv_param !! "stride") in
  let pad := default 0 (conv_param !! "pad") in
  let h1 := (H + 2 * pad + stride - HH) / stride in
  let w1 := (W + 2 * pad + stride - WW) / stride in
  stride <> 0 ->
  HH < H + 2 * pad + stride -> WW < W + 2 * pad + stride ->
  shape dout = [N; F; h1; w1] ->
  exists dx dw db,
    conv_backward_naive dout (x, w, b, conv_param) = Ok (dx, dw, db)
    /\ shape dx = [N; C; H; W] /\ shape dw = [F; C; HH; WW]
    /\ shape db = [F]
    /\ (forall n c h w', n < N -> c < C -> h < H -> w' < W ->
          get dx [n; c; h; w']
          = sum_upto h1 (fun i => sum_upto w1 (fun j =>
              if in_window stride HH WW i j (pad + h) (pad + w')
              then sum_upto F (fun f =>
                     Rmult (get dout [n; f; i; j])
                       (get w [f; c; pad + h - stride * i;
                               pad + w' - stride * j]))
              else 0%R)))
    /\ (forall f c a d, f < F -> c < C -> a < HH -> d < WW ->
          get dw [f; c; a; d]
          = sum_upto h1 (fun i => sum_upto w1 (fun j =>
              sum_upto N (fun n =>
                Rmult (get dout [n; f; i; j])
                  (padded x pad H W n c (stride * i + a) (stride * j + d))))))
    /\ (forall f, f < F ->
          get db [f]
          = sum_upto h1 (fun i => sum_upto w1 (fun j =>
              sum_upto N (fun n => get dout [n; f; i; j])))).
Proof.
  intros Hx Hw Hb stride pad h1 w1 Hs HltH HltW Hd.
  unfold conv_backward_naive. rewrite Hx, Hw.
  cbn [unpack4 mbind result_bind bind].
  fold stride pad.
  rewrite (np_pad23_values x pad N C H W Hx).
  cbn [mbind result_bind bind].
  set (xp := tabulate [N; C; H + 2 * pad; W + 2 * pad] _).
  assert (Hxp : shape xp = [N; C; H + 2 * pad; W + 2 * pad]) by reflexivity.
  unfold out_size. rewrite (proj2 (Nat.eqb_neq stride 0) Hs).
  cbn [mbind result_bind bind].
  assert (EH : Z.quot (Z.of_nat H + 2 * Z.of_nat pad - Z.of_nat HH
                       + Z.of_nat stride) (Z.of_nat stride)
               = Z.of_nat h1).
  { unfold h1. rewrite <- (out_size_floor (H + 2 * pad) HH stride Hs HltH).
    f_equal. lia. }
  assert (EW : Z.quot (Z.of_nat W + 2 * Z.of_nat pad - Z.of_nat WW
                       + Z.of_nat stride) (Z.of_nat stride)
               = Z.of_nat w1).
  { unfold w1. rewrite <- (out_size_floor (W + 2 * pad) WW stride Hs HltW).
    f_equal. lia. }
  rewrite EH, EW.
  rewrite np_reshape_ok by (rewrite Hw; simpl; ring).
  cbn [mbind result_bind bind shape].
  set (D := C * HH * WW).
  set (wr := mk_nd [F; D] (data w)).
  assert (HD : size_of [C; HH; WW] = D) by (unfold D; simpl; ring).
  rewrite Hxp, Hb.
  set (DX := fun n c h w' i j =>
               if in_window stride HH WW i j h w'
               then sum_upto F (fun f =>
                      Rmult (get dout [n; f; i; j])
                        (get w [f; c; h - stride * i; w' - stride * j]))
               else 0%R).
  set (DW := fun f d i j =>
               sum_upto N (fun n =>
                 Rmult (get dout [n; f; i; j])
                   (get xp (n :: zip_with Nat.add [0; stride * i; stride * j]
                                   (unravel [C; HH; WW] d))))).
  set (DB := fun f i j => sum_upto N (fun n => get dout [n; f; i; j])).
  set (P := fun (k : nat) (acc : ndarray R * ndarray R * ndarray R) =>
              let '(dxp, dwr, db) := acc in
              (shape dxp = [N; C; H + 2 * pad; W + 2 * pad]
               /\ shape dwr = [F; D] /\ shape db = [F])
              /\ (forall n c h w', n < N -> c < C ->
                    h < H + 2 * pad -> w' < W + 2 * pad ->
                    get dxp [n; c; h; w']
                    = sum_upto k (fun i => sum_upto w1 (DX n c h w' i)))
              /\ (forall f d, f < F -> d < D ->
                    get dwr [f; d]
                    = sum_upto k (fun i => sum_upto w1 (DW f d i)))
              /\ (forall f, f < F ->
                    get db [f]
                    = sum_upto k (fun i => sum_upto w1 (DB f i)))).
  match goal with
  | |- context [for_each (py_range ?n) ?body ?s] =>
      assert (Hloop : exists acc, for_each (py_range n) body s = Ok acc
                                  /\ P (Z.to_nat n) acc);
      [ apply (for_each_range P)
      | destruct Hloop as ([[dxp dwr] db] & -> & Hacc) ]
  end.
  - intros i [[dxp dwr] db] Hi ((Hsx & Hsw & Hsb) & Hvx & Hvw & Hvb).
    rewrite Nat2Z.id in Hi.
    set (Q := fun (k : nat) (acc : ndarray R * ndarray R * ndarray R) =>
                let '(dxp, dwr, db) := acc in
                (shape dxp = [N; C; H + 2 * pad; W + 2 * pad]
                 /\ shape dwr = [F; D] /\ shape db = [F])
                /\ (forall n c h w', n < N -> c < C ->
                      h < H + 2 * pad -> w' < W + 2 * pad ->
                      get dxp [n; c; h; w']
                      = (sum_upto i (fun i => sum_upto w1 (DX n c h w' i))
                         + sum_upto k (DX n c h w' i))%R)
                /\ (forall f d, f < F -> d < D ->
                      get dwr [f; d]
                      = (sum_upto i (fun i => sum_upto w1 (DW f d i))
                         + sum_upto k (DW f d i))%R)
                /\ (forall f, f < F ->
                      get db [f]
                      = (sum_upto i (fun i => sum_upto w1 (DB f i))
                         + sum_upto k (DB f i))%R)).
    match goal with
    | |- context [for_each (py_range ?n) ?body ?s] =>
        assert (Hloop : exists acc, for_each (py_range n) body s = Ok acc
                                    /\ Q (Z.to_nat n) acc);
        [ apply (for_each_range Q)
        | destruct Hloop as ([[dxp' dwr'] db'] & -> & Hacc') ]
    end.
    + intros j [[dxp' dwr'] db'] Hj
        ((Hsx' & Hsw' & Hsb') & Hvx' & Hvw' & Hvb').
      rewrite Nat2Z.id in Hj.
      pose proof (window_fits (H + 2 * pad) HH stride i Hs Hi) as Hi'.
      pose proof (window_fits (W + 2 * pad) WW stride j Hs Hj) as Hj'.
      rewrite (np_get_ij_ok dout i j N F h1 w1 Hd) by lia.
      cbn [mbind result_bind bind].
      set (dO := tabulate [N; F] _).
      rewrite (np_slice23_ok xp _ _ _ _ N C (H + 2 * pad) (W + 2 * pad))
        by (first [exact Hxp | lia]).
      cbn [mbind result_bind bind].
      replace (stride * i + HH - stride * i) with HH by lia.
      replace (stride * j + WW - stride * j) with WW by lia.
      set (xij := tabulate [N; C; HH; WW] _).
      rewrite (np_reshape_ok xij [N; D])
        by (unfold xij, D; rewrite shape_tabulate; simpl; ring).
      cbn [mbind result_bind bind].
      rewrite (np_dot_mm_ok dO wr N F D eq_refl eq_refl).
      cbn [mbind result_bind bind].
      set (dxij0 := tabulate [N; D] _).
      rewrite (np_reshape_ok dxij0 [N; C; HH; WW])
        by (unfold dxij0, D; rewrite shape_tabulate; simpl; ring).
      cbn [mbind result_bind bind].
      rewrite (np_slice23_iadd_ok dxp' _ _ _ _ _ N C
                 (H + 2 * pad) (W + 2 * pad))
        by (first [exact Hsx' | lia
                  | cbn [shape]; f_equal; f_equal; f_equal; [|f_equal]; lia]).
      cbn [mbind result_bind bind].
      rewrite (np_dot_mm_ok (np_T dO) (mk_nd [N; D] (data xij)) F N D
                 eq_refl eq_refl).
      cbn [mbind result_bind bind].
      rewrite (np_inplace_same Rplus dwr' _) by (now rewrite Hsw').
      cbn [mbind result_bind bind].
      rewrite (np_dot_mv_ok (np_T dO) (np_ones [N]) F N eq_refl eq_refl).
      cbn [mbind result_bind bind].
      rewrite (np_inplace_same Rplus db' _) by (now rewrite Hsb').
      cbn [mbind result_bind bind].
      eexists. split; [reflexivity|].
      rewrite Hsw', Hsb'.
      split; [repeat split; reflexivity|]. split; [|split].
      * intros n c h w' Hn Hc Hh Hw'.
        rewrite get_tabulate by (cbn [in_bounds]; lia).
        cbn [ix_at nth sum_upto]. rewrite (Hvx' n c h w') by assumption.
        assert (EDX : DX n c h w' i j
                      = if (stride * i <=? h) && (h <? stride * i + HH)
                           && ((stride * j <=? w') && (w' <? stride * j + WW))
                        then sum_upto F (fun f =>
                               Rmult (get dout [n; f; i; j])
                                 (get w [f; c; h - stride * i;
                                         w' - stride * j]))
                        else 0%R) by reflexivity.
        rewrite EDX. clear EDX.
        destruct ((stride * i <=? h) && (h <? stride * i + HH)
                  && ((stride * j <=? w') && (w' <? stride * j + WW))) eqn:E;
          [|ring].
        apply andb_prop in E as [E1 E2].
        apply andb_prop in E1 as [E1 E1']. apply andb_prop in E2 as [E2 E2'].
        apply Nat.leb_le in E1, E2. apply Nat.ltb_lt in E1', E2'.
        rewrite Rplus_assoc. f_equal. f_equal.
        rewrite (get_unreshape_rows dxij0 N D n [C; HH; WW]
                   [c; h - stride * i; w' - stride * j] eq_refl HD).
        assert (Hr : ravel [C; HH; WW] [c; h - stride * i; w' - stride * j]
                     < D).
        { rewrite <- HD. apply size_of_pos_bounds. cbn [in_bounds]. lia. }
        unfold dxij0. rewrite get_tabulate by (cbn [in_bounds]; lia).
        cbn [ix_at nth]. apply sum_upto_ext. intros f Hf.
        unfold dO. rewrite get_tabulate by (cbn [in_bounds]; lia).
        cbn [ix_at nth]. f_equal. unfold wr.
        apply (get_reshape_rows_ravel w F D f [C; HH; WW]
                 [c; h - stride * i; w' - stride * j] Hw HD).
        cbn [in_bounds]. lia.
      * intros f d Hf Hdd.
        rewrite get_tabulate by (cbn [in_bounds]; lia).
        cbn [sum_upto]. rewrite (Hvw' f d) by assumption.
        rewrite Rplus_assoc. f_equal. f_equal.
        rewrite get_tabulate by (cbn [in_bounds]; lia).
        cbn [ix_at nth]. unfold DW. apply sum_upto_ext. intros n Hn.
        rewrite (get_np_T2 dO N F) by (first [reflexivity | assumption]).
        unfold dO. rewrite get_tabulate by (cbn [in_bounds]; lia).
        cbn [ix_at nth]. f_equal.
        rewrite (get_reshape_rows xij N D n d [C; HH; WW])
          by (first [reflexivity | assumption]).
        pose proof (unravel_in_bounds [C; HH; WW] d ltac:(lia)) as Hb3.
        apply in_bounds3_inv in Hb3 as (c & a & b' & -> & Hc & Ha & Hb').
        unfold xij. rewrite get_tabulate by (cbn [in_bounds]; lia).
        reflexivity.
      * intros f Hf.
        rewrite get_tabulate by (cbn [in_bounds]; lia).
        cbn [sum_upto]. rewrite (Hvb' f) by assumption.
        rewrite Rplus_assoc. f_equal. f_equal.
        rewrite get_tabulate by (cbn [in_bounds]; lia).
        cbn [ix_at nth]. unfold DB. apply sum_upto_ext. intros n Hn.
        rewrite (get_np_T2 dO N F) by (first [reflexivity | assumption]).
        unfold dO. rewrite get_tabulate by (cbn [in_bounds]; lia).
        cbn [ix_at nth].
        rewrite get_np_ones by (cbn [in_bounds]; lia). ring.
    + split; [repeat split; assumption|]. split; [|split].
      * intros n c h w' Hn Hc Hh Hw'. cbn [sum_upto].
        rewrite (Hvx n c h w') by assumption. ring.
      * intros f d Hf Hdd. cbn [sum_upto].
        rewrite (Hvw f d) by assumption. ring.
      * intros f Hf. cbn [sum_upto]. rewrite (Hvb f) by assumption. ring.
    + rewrite Nat2Z.id in Hacc'.
      destruct Hacc' as (Hsh' & Hvx' & Hvw' & Hvb').
      eexists. split; [reflexivity|]. split; [exact Hsh'|].
      split; [|split].
      * intros n c h w' Hn Hc Hh Hw'. cbn [sum_upto]. now apply Hvx'.
      * intros f d Hf Hdd. cbn [sum_upto]. now apply Hvw'.
      * intros f Hf. cbn [sum_upto]. now apply Hvb'.
  - split; [repeat split; reflexivity|]. split; [|split].
    + intros n c h w' Hn Hc Hh Hw'. cbn [sum_upto].
      now rewrite get_np_zeros by (cbn [in_bounds]; lia).
    + intros f d Hf Hdd. cbn [sum_upto].
      now rewrite get_np_zeros by (cbn [in_bounds]; lia).
    + intros f Hf. cbn [sum_upto].
      now rewrite get_np_zeros by (cbn [in_bounds]; lia).
  - rewrite Nat2Z.id in Hacc.
    destruct Hacc as ((Hsx & Hsw & Hsb) & Hvx & Hvw & Hvb).
    cbn [mbind result_bind bind].
    rewrite (np_slice23_ok dxp _ _ _ _ N C (H + 2 * pad) (W + 2 * pad))
      by (first [exact Hsx | lia]).
    cbn [mbind result_bind bind].
    rewrite np_reshape_ok by (rewrite Hsw; unfold D; simpl; ring).
    cbn [mbind result_bind bind].
    do 3 eexists. split; [reflexivity|].
    split; [rewrite shape_tabulate; f_equal; f_equal; f_equal;
            [|f_equal]; lia|].
    split; [reflexivity|]. split; [exact Hsb|].
    split; [|split].
    + intros n c h w' Hn Hc Hh Hw'.
      rewrite get_tabulate by (cbn [in_bounds]; lia).
      cbn [ix_at nth]. rewrite (Hvx n c (pad + h) (pad + w')) by lia.
      reflexivity.
    + intros f c a d Hf Hc Ha Hdd.
      rewrite (get_unreshape_rows dwr F D f [C; HH; WW] [c; a; d] Hsw HD).
      assert (Hr : ravel [C; HH; WW] [c; a; d] < D).
      { rewrite <- HD. apply size_of_pos_bounds. cbn [in_bounds]. lia. }
      rewrite (Hvw f _ Hf Hr).
      apply sum_upto_ext. intros i Hi. apply sum_upto_ext. intros j Hj.
      unfold DW. apply sum_upto_ext. intros n Hn. f_equal.
      rewrite unravel_ravel by (cbn [in_bounds]; lia).
      cbn [zip_with Nat.add].
      pose proof (window_fits (H + 2 * pad) HH stride i Hs Hi) as Hi'.
      pose proof (window_fits (W + 2 * pad) WW stride j Hs Hj) as Hj'.
      unfold xp. rewrite get_tabulate by (cbn [in_bounds]; lia).
      reflexivity.
    + intros f Hf. now apply Hvb.
Qed.

(** X28.  The backward pass of the convolution returns the gradients of the
    cross-correlation.  [db[f]] sums the upstream gradient of filter [f]
    over the batch and the output positions; [dw] at a filter position sums
    the upstream gradient times the padded input that the position met;
    [dx] at an input position sums, over the windows that cover it, the
    upstream gradient times the filter weight that met it, and the
    gradient of the padding is dropped. *)
Theorem conv_backward_values (dout x w b : ndarray R)
    (conv_param : gmap string nat) (N C H W F HH WW : nat) :
  shape x = [N; C; H; W] -> shape w = [F; C; HH; WW] -> shape b = [F] ->
  let stride := default 1 (conv_param !! "stride") in
  let pad := default 0 (conv_param !! "pad") in
  let h1 := (H + 2 * pad + stride - HH) / stride in
  let w1 := (W + 2 * pad + stride - WW) / stride in
  stride <> 0 ->
  HH < H + 2 * pad + stride -> WW < W + 2 * pad + stride ->
  shape dout = [N; F; h1; w1] ->
  exists dx dw db,
    conv_backward_naive dout (x, w, b, conv_param) = Ok (dx, dw, db)
    /\ (forall n c h w', n < N -> c < C -> h < H -> w' < W ->
          get dx [n; c; h; w']
          = sum_upto h1 (fun i => sum_upto w1 (fun j =>
              if in_window stride HH WW i j (pad + h) (pad + w')
              then sum_upto F (fun f =>
                     Rmult (get dout [n; f; i; j])
                       (get w [f; c; pad + h - stride * i;
                               pad + w' - stride * j]))
              else 0%R)))
    /\ (forall f c a d, f < F -> c < C -> a < HH -> d < WW ->
          get dw [f; c; a; d]
          = sum_upto h1 (fun i => sum_upto w1 (fun j =>
              sum_upto N (fun n =>
                Rmult (get dout [n; f; i; j])
                  (padded x pad H W n c (stride * i + a) (stride * j + d))))))
    /\ (forall f, f < F ->
          get db [f]
          = sum_upto h1 (fun i => sum_upto w1 (fun j =>
              sum_upto N (fun n => get dout [n; f; i; j])))).
Proof.
  intros Hx Hw Hb stride pad h1 w1 Hs HltH HltW Hd.
  destruct (conv_backward_ok dout x w b conv_param N C H W F HH WW Hx Hw Hb
              Hs HltH HltW Hd)
    as (dx & dw & db & E & _ & _ & _ & Hdx & Hdw & Hdb).
  exists dx, dw, db. repeat split; assumption.
Qed.

Lemma conv_backward_values_witness :
  exists dx dw db,
    conv_backward_naive img1 (img1, img1, vec0, ∅) = Ok (dx, dw, db).
Proof.
  destruct (conv_backward_values img1 img1 img1 vec0 ∅ 1 1 1 1 1 1 1
              eq_refl eq_refl eq_refl) as (dx & dw & db & E & _).
  - discriminate.
  - change (default 0 (∅ !! "pad")) with 0.
    change (default 1 (∅ !! "stride")) with 1. lia.
  - change (default 0 (∅ !! "pad")) with 0.
    change (default 1 (∅ !! "stride")) with 1. lia.
  - reflexivity.
  - exists dx, dw, db. exact E.
Defined.

(* ================================================================= *)
(** ** Batch normalization: a test call after a training call *)

(** X29.  The configuration that a training call leaves, switched to test
    mode, makes the forward pass normalize with the decayed statistics that
    the training call stored, and the test call leaves that configuration
    as it is.  With a momentum of 0 the stored statistics are those of the
    batch, and the test call on the same batch returns the output of the
    training call.  (The denominators of both calls are assumed
    positive.) *)
Theorem batchnorm_train_then_test (x gamma beta : ndarray R)
    (bn_param : gmap string pyval) (N D : nat) (eps mom : R)
    (rm rv : ndarray R) :
  shape x = [N; D] -> shape gamma = [D] -> shape beta = [D] ->
  0 < N ->
  bn_param !! "mode" = Some (PStr "train") ->
  bn_config bn_param D eps mom rm rv ->
  (forall j, j < D ->
     (0 < batch_var x N j + eps)%R
     /\ (0 < mom * get rv [j] + (1 - mom) * batch_var x N j + eps)%R) ->
  exists out cache bn_param' out',
    batchnorm_forward x gamma beta bn_param = Ok (out, cache, bn_param')
    /\ batchnorm_forward x gamma beta (<["mode" := PStr "test"]> bn_param')
       = Ok (out', None, <["mode" := PStr "test"]> bn_param')
    /\ shape out' = [N; D]
    /\ (forall i j, i < N -> j < D ->
          get out' [i; j]
          = ((get x [i; j]
              - (mom * get rm [j] + (1 - mom) * batch_mean x N j))
             / sqrt (mom * get rv [j] + (1 - mom) * batch_var x N j + eps)
             * get gamma [j] + get beta [j])%R)
    /\ (mom = 0%R -> out' = out).
Proof.
  intros Hx Hg Hb HN Hm Hcfg _.
  rewrite (batchnorm_forward_train x gamma beta bn_param N D eps mom rm rv)
    by assumption.
  destruct Hcfg as (He & Hmom & Hrm & Hrv & Hsrm & Hsrv).
  set (rm' := tabulate [D] (fun ix =>
                (mom * get rm ix + (1 - mom) * batch_mean x N (ix_at ix 0))%R)).
  set (rv' := tabulate [D] (fun ix =>
                (mom * get rv ix + (1 - mom) * batch_var x N (ix_at ix 0))%R)).
  set (bn' := <["running_var" := PArr rv']>
                (<["running_mean" := PArr rm']> bn_param)).
  set (bn'' := <["mode" := PStr "test"]> bn').
  assert (Hcfg'' : bn_config bn'' D eps mom rm' rv').
  { unfold bn_config, bn'', bn'.
    rewrite (lookup_insert_ne _ "mode" "eps") by discriminate.
    rewrite (lookup_insert_ne _ "running_var" "eps") by discriminate.
    rewrite (lookup_insert_ne _ "running_mean" "eps") by discriminate.
    rewrite (lookup_insert_ne _ "mode" "momentum") by discriminate.
    rewrite (lookup_insert_ne _ "running_var" "momentum") by discriminate.
    rewrite (lookup_insert_ne _ "running_mean" "momentum") by discriminate.
    rewrite (lookup_insert_ne _ "mode" "running_mean") by discriminate.
    rewrite (lookup_insert_ne _ "running_var" "running_mean")
      by discriminate.
    rewrite (lookup_insert_ne _ "mode" "running_var") by discriminate.
    rewrite !lookup_insert_eq. cbn [default].
    repeat split; assumption. }
  assert (Hm'' : bn'' !! "mode" = Some (PStr "test"))
    by apply lookup_insert_eq.
  pose proof (batchnorm_forward_test x gamma beta bn'' N D eps mom rm' rv'
                Hx Hg Hb Hm'' Hcfg'') as E2.
  assert (Eid : <["running_var" := PArr rv']>
                  (<["running_mean" := PArr rm']> bn'') = bn'').
  { rewrite (insert_id bn'' "running_mean" (PArr rm')).
    - apply insert_id. unfold bn'', bn'.
      rewrite lookup_insert_ne by discriminate. apply lookup_insert_eq.
    - unfold bn'', bn'.
      rewrite lookup_insert_ne by discriminate.
      rewrite lookup_insert_ne by discriminate. apply lookup_insert_eq. }
  rewrite Eid in E2.
  eexists. eexists. exists bn'. eexists.
  split; [reflexivity|]. split; [exact E2|].
  split; [reflexivity|]. split.
  - intros i j Hi Hj. unfold rm', rv'.
    rewrite get_tabulate by (cbn [in_bounds]; lia). cbn [ix_at nth].
    rewrite !get_tabulate by (cbn [in_bounds]; lia). reflexivity.
  - intros ->. apply tabulate_ext. intros ix Hix.
    apply in_bounds2_inv in Hix as (i & j & -> & Hi & Hj).
    cbn [ix_at nth]. unfold rm', rv', bn_train_cache. cbn [c_xn].
    rewrite !get_tabulate by (cbn [in_bounds]; lia). cbn [ix_at nth].
    replace (0 * get rm [j] + (1 - 0) * batch_mean x N j)%R
      with (batch_mean x N j) by ring.
    replace (0 * get rv [j] + (1 - 0) * batch_var x N j)%R
      with (batch_var x N j) by ring.
    reflexivity.
Qed.

Lemma batchnorm_train_then_test_witness :
  exists out cache bn_param' out',
    batchnorm_forward mat1 vec1 vec0 bn_train_param
    = Ok (out, cache, bn_param')
    /\ batchnorm_forward mat1 vec1 vec0 (<["mode" := PStr "test"]> bn_param')
       = Ok (out', None, <["mode" := PStr "test"]> bn_param')
    /\ shape out' = [1; 1].
Proof.
  destruct (batchnorm_train_then_test mat1 vec1 vec0 bn_train_param
              1 1 (1 / 100000) (9 / 10) vec0 vec0)
    as (out & cache & bn' & out' & E1 & E2 & Hsh & _); try reflexivity.
  - lia.
  - repeat split.
  - intros j Hj. assert (j = 0) as -> by lia.
    unfold batch_var, batch_mean, get, Rsqr. simpl. split; lra.
  - exists out, cache, bn', out'. repeat split; assumption.
Defined.

(* ================================================================= *)
(** ** Spatial batch normalization: the gradients *)




